(** * Shopping list organiser: the catalog, visit order, selection and
      list formatter of [app.py], embedded and verified.

    Python values are modelled as follows.
    - A [str] is the list of its code points ([pystr]); [len] is [length].
    - A [dict] is an association list in insertion order whose keys are
      pairwise distinct ([dict_wf]); assignment to an existing key keeps
      its position, assignment to a new key appends.
    - A [set] is only observed through membership and through iteration.
      The order in which CPython iterates over a set depends on string
      hashes; it is left open as a field of [runtime], constrained to be
      a permutation of the distinct elements inserted.
    - [sorted] is a stable sort; [str.lower] is the full lower-case
      mapping of the Unicode Character Database, the final sigma
      included.  The sorting lemmas are proved for an arbitrary key
      function. *)

From Stdlib Require Import String Ascii.
From Stdlib Require Import List NArith ZArith Bool Arith Lia Permutation Sorted.
Import ListNotations.

Set Implicit Arguments.
Set Warnings "-register-all".

(* ================================================================== *)
(** * Strings *)
(* ================================================================== *)

Definition pystr := list N.

(** An ASCII literal as a Python string. *)
Definition py (s : string) : pystr :=
  map N_of_ascii (list_ascii_of_string s).

Fixpoint str_eqb (a b : pystr) : bool :=
  match a, b with
  | [], [] => true
  | x :: a', y :: b' => (x =? y)%N && str_eqb a' b'
  | _, _ => false
  end.

(** [a <= b] on strings: lexicographic on code points. *)
Definition str_leb (a b : pystr) : bool :=
  match list_compare N.compare a b with
  | Gt => false
  | _ => true
  end.

(** The line feed as a string. *)
Definition nl : pystr := [10%N].

(** Truthiness of a string: non-empty. *)
Definition truthy (s : pystr) : bool :=
  match s with [] => false | _ => true end.

(** [str.isspace] on one code point. *)
Definition isspace (c : N) : bool :=
  ((9 <=? c) && (c <=? 13) || (28 <=? c) && (c <=? 32)
   || (c =? 133) || (c =? 160) || (c =? 5760)
   || (8192 <=? c) && (c <=? 8202)
   || (c =? 8232) || (c =? 8233) || (c =? 8239) || (c =? 8287)
   || (c =? 12288))%N.

Fixpoint lstrip (s : pystr) : pystr :=
  match s with
  | c :: r => if isspace c then lstrip r else s
  | [] => []
  end.

Definition rstrip (s : pystr) : pystr := rev (lstrip (rev s)).

(** [s.strip()] *)
Definition strip (s : pystr) : pystr := rstrip (lstrip s).

(** [s.split()]: the maximal runs of non-whitespace.  [cur] is the run
    being read, most recent code point first. *)
Fixpoint split_ws_aux (cur : pystr) (s : pystr) : list pystr :=
  match s with
  | [] => if truthy cur then [rev cur] else []
  | c :: r =>
      if isspace c
      then if truthy cur then rev cur :: split_ws_aux [] r
           else split_ws_aux [] r
      else split_ws_aux (c :: cur) r
  end.

Definition split_ws (s : pystr) : list pystr := split_ws_aux [] s.

(** [sep.join(l)] *)
Fixpoint join (sep : pystr) (l : list pystr) : pystr :=
  match l with
  | [] => []
  | [x] => x
  | x :: r => x ++ sep ++ join sep r
  end.

(** [s.split(sep)] for a one-character separator: empty pieces are kept
    and there is always at least one piece. *)
Fixpoint split_char_aux (sep : N) (cur : pystr) (s : pystr) : list pystr :=
  match s with
  | [] => [rev cur]
  | c :: r =>
      if (c =? sep)%N then rev cur :: split_char_aux sep [] r
      else split_char_aux sep (c :: cur) r
  end.

Definition split_char (sep : N) (s : pystr) : list pystr :=
  split_char_aux sep [] s.

(** [s.replace(a, b)] for one-character [a] and [b]. *)
Definition replace_char (a b : N) (s : pystr) : pystr :=
  map (fun c => if (c =? a)%N then b else c) s.

(** The line boundaries of [str.splitlines]. *)
Definition is_linebreak (c : N) : bool :=
  ((10 <=? c) && (c <=? 13) || (28 <=? c) && (c <=? 30)
   || (c =? 133) || (c =? 8232) || (c =? 8233))%N.

(** [s.splitlines()]: a carriage return followed by a line feed is one
    boundary ([after_cr]); a final boundary opens no empty last line. *)
Fixpoint splitlines_aux (after_cr : bool) (cur : pystr) (s : pystr)
  : list pystr :=
  match s with
  | [] => if truthy cur then [rev cur] else []
  | c :: r =>
      if after_cr && (c =? 10)%N then splitlines_aux false cur r
      else if is_linebreak c
           then rev cur :: splitlines_aux (c =? 13)%N [] r
           else splitlines_aux false (c :: cur) r
  end.

Definition splitlines (s : pystr) : list pystr := splitlines_aux false [] s.

(* ------------------------------------------------------------------ *)
(** ** Lower case

    [s.lower()] maps every code point by the lower-case mapping of the
    Unicode Character Database, whatever its script, except the capital
    sigma, whose image depends on the code points around it.  The tables
    are those of version 14.0.0 of the database, which CPython 3.11
    carries. *)

(** The code points whose lower-case mapping is another single code
    point.  [(first, last, step, image)] maps [first], [first + step],
    ... up to [last] to [image], [image + step], ...; the entries are in
    ascending order. *)
Definition lower_table : list (N * N * N * N) :=
  [
     (65, 90, 1, 97); (192, 214, 1, 224); (216, 222, 1, 248);
     (256, 302, 2, 257); (306, 310, 2, 307); (313, 327, 2, 314);
     (330, 374, 2, 331); (376, 376, 1, 255); (377, 381, 2, 378);
     (385, 385, 1, 595); (386, 388, 2, 387); (390, 390, 1, 596);
     (391, 391, 1, 392); (393, 394, 1, 598); (395, 395, 1, 396);
     (398, 398, 1, 477); (399, 399, 1, 601); (400, 400, 1, 603);
     (401, 401, 1, 402); (403, 403, 1, 608); (404, 404, 1, 611);
     (406, 406, 1, 617); (407, 407, 1, 616); (408, 408, 1, 409);
     (412, 412, 1, 623); (413, 413, 1, 626); (415, 415, 1, 629);
     (416, 420, 2, 417); (422, 422, 1, 640); (423, 423, 1, 424);
     (425, 425, 1, 643); (428, 428, 1, 429); (430, 430, 1, 648);
     (431, 431, 1, 432); (433, 434, 1, 650); (435, 437, 2, 436);
     (439, 439, 1, 658); (440, 440, 1, 441); (444, 444, 1, 445);
     (452, 452, 1, 454); (453, 453, 1, 454); (455, 455, 1, 457);
     (456, 456, 1, 457); (458, 458, 1, 460); (459, 475, 2, 460);
     (478, 494, 2, 479); (497, 497, 1, 499); (498, 500, 2, 499);
     (502, 502, 1, 405); (503, 503, 1, 447); (504, 542, 2, 505);
     (544, 544, 1, 414); (546, 562, 2, 547); (570, 570, 1, 11365);
     (571, 571, 1, 572); (573, 573, 1, 410); (574, 574, 1, 11366);
     (577, 577, 1, 578); (579, 579, 1, 384); (580, 580, 1, 649);
     (581, 581, 1, 652); (582, 590, 2, 583); (880, 882, 2, 881);
     (886, 886, 1, 887); (895, 895, 1, 1011); (902, 902, 1, 940);
     (904, 906, 1, 941); (908, 908, 1, 972); (910, 911, 1, 973);
     (913, 929, 1, 945); (931, 939, 1, 963); (975, 975, 1, 983);
     (984, 1006, 2, 985); (1012, 1012, 1, 952); (1015, 1015, 1, 1016);
     (1017, 1017, 1, 1010); (1018, 1018, 1, 1019); (1021, 1023, 1, 891);
     (1024, 1039, 1, 1104); (1040, 1071, 1, 1072); (1120, 1152, 2, 1121);
     (1162, 1214, 2, 1163); (1216, 1216, 1, 1231); (1217, 1229, 2, 1218);
     (1232, 1326, 2, 1233); (1329, 1366, 1, 1377); (4256, 4293, 1, 11520);
     (4295, 4295, 1, 11559); (4301, 4301, 1, 11565); (5024, 5103, 1, 43888);
     (5104, 5109, 1, 5112); (7312, 7354, 1, 4304); (7357, 7359, 1, 4349);
     (7680, 7828, 2, 7681); (7838, 7838, 1, 223); (7840, 7934, 2, 7841);
     (7944, 7951, 1, 7936); (7960, 7965, 1, 7952); (7976, 7983, 1, 7968);
     (7992, 7999, 1, 7984); (8008, 8013, 1, 8000); (8025, 8031, 2, 8017);
     (8040, 8047, 1, 8032); (8072, 8079, 1, 8064); (8088, 8095, 1, 8080);
     (8104, 8111, 1, 8096); (8120, 8121, 1, 8112); (8122, 8123, 1, 8048);
     (8124, 8124, 1, 8115); (8136, 8139, 1, 8050); (8140, 8140, 1, 8131);
     (8152, 8153, 1, 8144); (8154, 8155, 1, 8054); (8168, 8169, 1, 8160);
     (8170, 8171, 1, 8058); (8172, 8172, 1, 8165); (8184, 8185, 1, 8056);
     (8186, 8187, 1, 8060); (8188, 8188, 1, 8179); (8486, 8486, 1, 969);
     (8490, 8490, 1, 107); (8491, 8491, 1, 229); (8498, 8498, 1, 8526);
     (8544, 8559, 1, 8560); (8579, 8579, 1, 8580); (9398, 9423, 1, 9424);
     (11264, 11311, 1, 11312); (11360, 11360, 1, 11361); (11362, 11362, 1, 619);
     (11363, 11363, 1, 7549); (11364, 11364, 1, 637); (11367, 11371, 2, 11368);
     (11373, 11373, 1, 593); (11374, 11374, 1, 625); (11375, 11375, 1, 592);
     (11376, 11376, 1, 594); (11378, 11378, 1, 11379); (11381, 11381, 1, 11382);
     (11390, 11391, 1, 575); (11392, 11490, 2, 11393); (11499, 11501, 2, 11500);
     (11506, 11506, 1, 11507); (42560, 42604, 2, 42561); (42624, 42650, 2, 42625);
     (42786, 42798, 2, 42787); (42802, 42862, 2, 42803); (42873, 42875, 2, 42874);
     (42877, 42877, 1, 7545); (42878, 42886, 2, 42879); (42891, 42891, 1, 42892);
     (42893, 42893, 1, 613); (42896, 42898, 2, 42897); (42902, 42920, 2, 42903);
     (42922, 42922, 1, 614); (42923, 42923, 1, 604); (42924, 42924, 1, 609);
     (42925, 42925, 1, 620); (42926, 42926, 1, 618); (42928, 42928, 1, 670);
     (42929, 42929, 1, 647); (42930, 42930, 1, 669); (42931, 42931, 1, 43859);
     (42932, 42946, 2, 42933); (42948, 42948, 1, 42900); (42949, 42949, 1, 642);
     (42950, 42950, 1, 7566); (42951, 42953, 2, 42952); (42960, 42960, 1, 42961);
     (42966, 42968, 2, 42967); (42997, 42997, 1, 42998); (65313, 65338, 1, 65345);
     (66560, 66599, 1, 66600); (66736, 66771, 1, 66776); (66928, 66938, 1, 66967);
     (66940, 66954, 1, 66979); (66956, 66962, 1, 66995); (66964, 66965, 1, 67003);
     (68736, 68786, 1, 68800); (71840, 71871, 1, 71872); (93760, 93791, 1, 93792);
     (125184, 125217, 1, 125218)]%N.

(** The code points with the property Cased, as ranges in ascending
    order. *)
Definition cased_ranges : list (N * N) :=
  [
     (65, 90); (97, 122); (170, 170); (181, 181); (186, 186);
     (192, 214); (216, 246); (248, 442); (444, 447); (452, 659);
     (661, 696); (704, 705); (736, 740); (837, 837); (880, 883);
     (886, 887); (890, 893); (895, 895); (902, 902); (904, 906);
     (908, 908); (910, 929); (931, 1013); (1015, 1153); (1162, 1327);
     (1329, 1366); (1376, 1416); (4256, 4293); (4295, 4295); (4301, 4301);
     (4304, 4346); (4349, 4351); (5024, 5109); (5112, 5117); (7296, 7304);
     (7312, 7354); (7357, 7359); (7424, 7615); (7680, 7957); (7960, 7965);
     (7968, 8005); (8008, 8013); (8016, 8023); (8025, 8025); (8027, 8027);
     (8029, 8029); (8031, 8061); (8064, 8116); (8118, 8124); (8126, 8126);
     (8130, 8132); (8134, 8140); (8144, 8147); (8150, 8155); (8160, 8172);
     (8178, 8180); (8182, 8188); (8305, 8305); (8319, 8319); (8336, 8348);
     (8450, 8450); (8455, 8455); (8458, 8467); (8469, 8469); (8473, 8477);
     (8484, 8484); (8486, 8486); (8488, 8488); (8490, 8493); (8495, 8500);
     (8505, 8505); (8508, 8511); (8517, 8521); (8526, 8526); (8544, 8575);
     (8579, 8580); (9398, 9449); (11264, 11492); (11499, 11502); (11506, 11507);
     (11520, 11557); (11559, 11559); (11565, 11565); (42560, 42605); (42624, 42653);
     (42786, 42887); (42891, 42894); (42896, 42954); (42960, 42961); (42963, 42963);
     (42965, 42969); (42997, 42998); (43000, 43002); (43824, 43866); (43868, 43880);
     (43888, 43967); (64256, 64262); (64275, 64279); (65313, 65338); (65345, 65370);
     (66560, 66639); (66736, 66771); (66776, 66811); (66928, 66938); (66940, 66954);
     (66956, 66962); (66964, 66965); (66967, 66977); (66979, 66993); (66995, 67001);
     (67003, 67004); (67456, 67456); (67459, 67461); (67463, 67504); (67506, 67514);
     (68736, 68786); (68800, 68850); (71840, 71903); (93760, 93823); (119808, 119892);
     (119894, 119964); (119966, 119967); (119970, 119970); (119973, 119974); (119977, 119980);
     (119982, 119993); (119995, 119995); (119997, 120003); (120005, 120069); (120071, 120074);
     (120077, 120084); (120086, 120092); (120094, 120121); (120123, 120126); (120128, 120132);
     (120134, 120134); (120138, 120144); (120146, 120485); (120488, 120512); (120514, 120538);
     (120540, 120570); (120572, 120596); (120598, 120628); (120630, 120654); (120656, 120686);
     (120688, 120712); (120714, 120744); (120746, 120770); (120772, 120779); (122624, 122633);
     (122635, 122654); (125184, 125251); (127280, 127305); (127312, 127337); (127344, 127369)]%N.

(** The code points with the property Case_Ignorable, as ranges in
    ascending order. *)
Definition case_ignorable_ranges : list (N * N) :=
  [
     (39, 39); (46, 46); (58, 58); (94, 94); (96, 96);
     (168, 168); (173, 173); (175, 175); (180, 180); (183, 184);
     (688, 879); (884, 885); (890, 890); (900, 901); (903, 903);
     (1155, 1161); (1369, 1369); (1375, 1375); (1425, 1469); (1471, 1471);
     (1473, 1474); (1476, 1477); (1479, 1479); (1524, 1524); (1536, 1541);
     (1552, 1562); (1564, 1564); (1600, 1600); (1611, 1631); (1648, 1648);
     (1750, 1757); (1759, 1768); (1770, 1773); (1807, 1807); (1809, 1809);
     (1840, 1866); (1958, 1968); (2027, 2037); (2042, 2042); (2045, 2045);
     (2070, 2093); (2137, 2139); (2184, 2184); (2192, 2193); (2200, 2207);
     (2249, 2306); (2362, 2362); (2364, 2364); (2369, 2376); (2381, 2381);
     (2385, 2391); (2402, 2403); (2417, 2417); (2433, 2433); (2492, 2492);
     (2497, 2500); (2509, 2509); (2530, 2531); (2558, 2558); (2561, 2562);
     (2620, 2620); (2625, 2626); (2631, 2632); (2635, 2637); (2641, 2641);
     (2672, 2673); (2677, 2677); (2689, 2690); (2748, 2748); (2753, 2757);
     (2759, 2760); (2765, 2765); (2786, 2787); (2810, 2815); (2817, 2817);
     (2876, 2876); (2879, 2879); (2881, 2884); (2893, 2893); (2901, 2902);
     (2914, 2915); (2946, 2946); (3008, 3008); (3021, 3021); (3072, 3072);
     (3076, 3076); (3132, 3132); (3134, 3136); (3142, 3144); (3146, 3149);
     (3157, 3158); (3170, 3171); (3201, 3201); (3260, 3260); (3263, 3263);
     (3270, 3270); (3276, 3277); (3298, 3299); (3328, 3329); (3387, 3388);
     (3393, 3396); (3405, 3405); (3426, 3427); (3457, 3457); (3530, 3530);
     (3538, 3540); (3542, 3542); (3633, 3633); (3636, 3642); (3654, 3662);
     (3761, 3761); (3764, 3772); (3782, 3782); (3784, 3789); (3864, 3865);
     (3893, 3893); (3895, 3895); (3897, 3897); (3953, 3966); (3968, 3972);
     (3974, 3975); (3981, 3991); (3993, 4028); (4038, 4038); (4141, 4144);
     (4146, 4151); (4153, 4154); (4157, 4158); (4184, 4185); (4190, 4192);
     (4209, 4212); (4226, 4226); (4229, 4230); (4237, 4237); (4253, 4253);
     (4348, 4348); (4957, 4959); (5906, 5908); (5938, 5939); (5970, 5971);
     (6002, 6003); (6068, 6069); (6071, 6077); (6086, 6086); (6089, 6099);
     (6103, 6103); (6109, 6109); (6155, 6159); (6211, 6211); (6277, 6278);
     (6313, 6313); (6432, 6434); (6439, 6440); (6450, 6450); (6457, 6459);
     (6679, 6680); (6683, 6683); (6742, 6742); (6744, 6750); (6752, 6752);
     (6754, 6754); (6757, 6764); (6771, 6780); (6783, 6783); (6823, 6823);
     (6832, 6862); (6912, 6915); (6964, 6964); (6966, 6970); (6972, 6972);
     (6978, 6978); (7019, 7027); (7040, 7041); (7074, 7077); (7080, 7081);
     (7083, 7085); (7142, 7142); (7144, 7145); (7149, 7149); (7151, 7153);
     (7212, 7219); (7222, 7223); (7288, 7293); (7376, 7378); (7380, 7392);
     (7394, 7400); (7405, 7405); (7412, 7412); (7416, 7417); (7468, 7530);
     (7544, 7544); (7579, 7679); (8125, 8125); (8127, 8129); (8141, 8143);
     (8157, 8159); (8173, 8175); (8189, 8190); (8203, 8207); (8216, 8217);
     (8228, 8228); (8231, 8231); (8234, 8238); (8288, 8292); (8294, 8303);
     (8305, 8305); (8319, 8319); (8336, 8348); (8400, 8432); (11388, 11389);
     (11503, 11505); (11631, 11631); (11647, 11647); (11744, 11775); (11823, 11823);
     (12293, 12293); (12330, 12333); (12337, 12341); (12347, 12347); (12441, 12446);
     (12540, 12542); (40981, 40981); (42232, 42237); (42508, 42508); (42607, 42610);
     (42612, 42621); (42623, 42623); (42652, 42655); (42736, 42737); (42752, 42785);
     (42864, 42864); (42888, 42890); (42994, 42996); (43000, 43001); (43010, 43010);
     (43014, 43014); (43019, 43019); (43045, 43046); (43052, 43052); (43204, 43205);
     (43232, 43249); (43263, 43263); (43302, 43309); (43335, 43345); (43392, 43394);
     (43443, 43443); (43446, 43449); (43452, 43453); (43471, 43471); (43493, 43494);
     (43561, 43566); (43569, 43570); (43573, 43574); (43587, 43587); (43596, 43596);
     (43632, 43632); (43644, 43644); (43696, 43696); (43698, 43700); (43703, 43704);
     (43710, 43711); (43713, 43713); (43741, 43741); (43756, 43757); (43763, 43764);
     (43766, 43766); (43867, 43871); (43881, 43883); (44005, 44005); (44008, 44008);
     (44013, 44013); (64286, 64286); (64434, 64450); (65024, 65039); (65043, 65043);
     (65056, 65071); (65106, 65106); (65109, 65109); (65279, 65279); (65287, 65287);
     (65294, 65294); (65306, 65306); (65342, 65342); (65344, 65344); (65392, 65392);
     (65438, 65439); (65507, 65507); (65529, 65531); (66045, 66045); (66272, 66272);
     (66422, 66426); (67456, 67461); (67463, 67504); (67506, 67514); (68097, 68099);
     (68101, 68102); (68108, 68111); (68152, 68154); (68159, 68159); (68325, 68326);
     (68900, 68903); (69291, 69292); (69446, 69456); (69506, 69509); (69633, 69633);
     (69688, 69702); (69744, 69744); (69747, 69748); (69759, 69761); (69811, 69814);
     (69817, 69818); (69821, 69821); (69826, 69826); (69837, 69837); (69888, 69890);
     (69927, 69931); (69933, 69940); (70003, 70003); (70016, 70017); (70070, 70078);
     (70089, 70092); (70095, 70095); (70191, 70193); (70196, 70196); (70198, 70199);
     (70206, 70206); (70367, 70367); (70371, 70378); (70400, 70401); (70459, 70460);
     (70464, 70464); (70502, 70508); (70512, 70516); (70712, 70719); (70722, 70724);
     (70726, 70726); (70750, 70750); (70835, 70840); (70842, 70842); (70847, 70848);
     (70850, 70851); (71090, 71093); (71100, 71101); (71103, 71104); (71132, 71133);
     (71219, 71226); (71229, 71229); (71231, 71232); (71339, 71339); (71341, 71341);
     (71344, 71349); (71351, 71351); (71453, 71455); (71458, 71461); (71463, 71467);
     (71727, 71735); (71737, 71738); (71995, 71996); (71998, 71998); (72003, 72003);
     (72148, 72151); (72154, 72155); (72160, 72160); (72193, 72202); (72243, 72248);
     (72251, 72254); (72263, 72263); (72273, 72278); (72281, 72283); (72330, 72342);
     (72344, 72345); (72752, 72758); (72760, 72765); (72767, 72767); (72850, 72871);
     (72874, 72880); (72882, 72883); (72885, 72886); (73009, 73014); (73018, 73018);
     (73020, 73021); (73023, 73029); (73031, 73031); (73104, 73105); (73109, 73109);
     (73111, 73111); (73459, 73460); (78896, 78904); (92912, 92916); (92976, 92982);
     (92992, 92995); (94031, 94031); (94095, 94111); (94176, 94177); (94179, 94180);
     (110576, 110579); (110581, 110587); (110589, 110590); (113821, 113822); (113824, 113827);
     (118528, 118573); (118576, 118598); (119143, 119145); (119155, 119170); (119173, 119179);
     (119210, 119213); (119362, 119364); (121344, 121398); (121403, 121452); (121461, 121461);
     (121476, 121476); (121499, 121503); (121505, 121519); (122880, 122886); (122888, 122904);
     (122907, 122913); (122915, 122916); (122918, 122922); (123184, 123197); (123566, 123566);
     (123628, 123631); (125136, 125142); (125252, 125259); (127995, 127999); (917505, 917505);
     (917536, 917631); (917760, 917999)]%N.

Fixpoint in_ranges (c : N) (ranges : list (N * N)) : bool :=
  match ranges with
  | [] => false
  | (first, last) :: rest =>
      if (c <? first)%N then false
      else if (c <=? last)%N then true
      else in_ranges c rest
  end.

Definition is_cased (c : N) : bool := in_ranges c cased_ranges.

Definition is_case_ignorable (c : N) : bool :=
  in_ranges c case_ignorable_ranges.

Fixpoint lower_lookup (c : N) (table : list (N * N * N * N)) : N :=
  match table with
  | [] => c
  | (first, last, step, image) :: rest =>
      if (c <? first)%N then c
      else if (c <=? last)%N
           then if ((c - first) mod step =? 0)%N
                then (image + (c - first))%N
                else c
           else lower_lookup c rest
  end.

(** The full lower-case mapping of one code point: the capital I with
    dot above (U+0130) is the only one that maps to two code points. *)
Definition to_lower_full (c : N) : pystr :=
  if (c =? 304)%N then [105; 775]%N else [lower_lookup c lower_table].

(** The first code point of [s] that is not case-ignorable. *)
Fixpoint skip_case_ignorable (s : pystr) : option N :=
  match s with
  | [] => None
  | c :: rest =>
      if is_case_ignorable c then skip_case_ignorable rest else Some c
  end.

(** The image of a capital sigma (U+03A3).  It is the final sigma
    (U+03C2) when a cased code point stands before it and none after
    it, case-ignorable code points in between set aside; otherwise the
    small sigma (U+03C3).  [before] holds the code points before the
    sigma, the nearest first. *)
Definition handle_capital_sigma (before after : pystr) : N :=
  let final_sigma :=
    match skip_case_ignorable before with
    | Some c => is_cased c
    | None => false
    end in
  let final_sigma :=
    if final_sigma
    then match skip_case_ignorable after with
         | Some c => negb (is_cased c)
         | None => true
         end
    else false in
  if final_sigma then 962%N else 963%N.

(** Lowering [s], which stands after the code points [before] (the
    nearest first). *)
Fixpoint lower_from (before s : pystr) : pystr :=
  match s with
  | [] => []
  | c :: rest =>
      (if (c =? 931)%N then [handle_capital_sigma before rest]
       else to_lower_full c)
      ++ lower_from (c :: before) rest
  end.

(** [s.lower()] *)
Definition lower (s : pystr) : pystr := lower_from [] s.

(** [normalize_name]: [" ".join(str(name).strip().split())]. *)
Definition normalize_name (name : pystr) : pystr :=
  join (py " ") (split_ws (strip name)).

(** [x or "Uncategorized"] *)
Definition or_default (x dflt : pystr) : pystr :=
  if truthy x then x else dflt.

(* ================================================================== *)
(** * Lists: membership and stable sort *)
(* ================================================================== *)

(** [x in l] *)
Fixpoint mem (x : pystr) (l : list pystr) : bool :=
  match l with
  | [] => false
  | y :: r => str_eqb x y || mem x r
  end.

Section Sorting.

Variable key : pystr -> pystr.

(** [x] goes before the first element whose key is not smaller, so
    elements with equal keys keep the order of the input. *)
Fixpoint insert_by (x : pystr) (l : list pystr) : list pystr :=
  match l with
  | [] => [x]
  | y :: r =>
      if str_leb (key x) (key y) then x :: y :: r
      else y :: insert_by x r
  end.

(** [sorted(l, key=key)] *)
Fixpoint sorted (l : list pystr) : list pystr :=
  match l with
  | [] => []
  | x :: r => insert_by x (sorted r)
  end.

Definition key_le (a b : pystr) : Prop := str_leb (key a) (key b) = true.

End Sorting.

(* ================================================================== *)
(** * Dictionaries *)
(* ================================================================== *)

Section Dict.

Variable V : Type.

Definition dict := list (pystr * V).

Definition dict_keys (d : dict) : list pystr := map fst d.

(** [d.get(k)] *)
Fixpoint dict_get (k : pystr) (d : dict) : option V :=
  match d with
  | [] => None
  | (k', v) :: r => if str_eqb k k' then Some v else dict_get k r
  end.

(** [k in d] *)
Definition dict_mem (k : pystr) (d : dict) : bool :=
  mem k (dict_keys d).

(** [d[k] = v] *)
Fixpoint dict_set (k : pystr) (v : V) (d : dict) : dict :=
  match d with
  | [] => [(k, v)]
  | (k', v') :: r =>
      if str_eqb k k' then (k', v) :: r else (k', v') :: dict_set k v r
  end.

(** [del d[k]] *)
Definition dict_del (k : pystr) (d : dict) : dict :=
  filter (fun kv => negb (str_eqb k (fst kv))) d.

(** [d.setdefault(k, v)] *)
Definition dict_setdefault (k : pystr) (v : V) (d : dict) : dict :=
  if dict_mem k d then d else dict_set k v d.

(** [d.get(k, dflt)] *)
Definition dict_get_or (k : pystr) (dflt : V) (d : dict) : V :=
  match dict_get k d with Some v => v | None => dflt end.

Definition dict_wf (d : dict) : Prop := NoDup (dict_keys d).

End Dict.

(* ================================================================== *)
(** * JSON documents and the runtime *)
(* ================================================================== *)

(** A parsed JSON value.  [JScalar] stands for [null], the booleans and
    the numbers, each carried with the text [str()] gives for it. *)
Inductive json : Type :=
  | JString (s : pystr)
  | JScalar (text : pystr)
  | JArray (l : list json)
  | JObject (d : list (pystr * json)).

(** What the model leaves open about the Python runtime. *)
Record runtime := {
  (** the order in which a set iterates, given the sequence of values
      that were inserted into it *)
  set_iter : list pystr -> list pystr;
  set_iter_nodup : forall l, NoDup (set_iter l);
  set_iter_in : forall l x, In x (set_iter l) <-> In x l;
  (** [str()] of a list or a dictionary *)
  str_container : json -> pystr
}.

(** [str(x)] *)
Definition py_str (rt : runtime) (x : json) : pystr :=
  match x with
  | JString s => s
  | JScalar text => text
  | _ => str_container rt x
  end.

(** [_sorted_unique(items)] *)
Definition _sorted_unique (rt : runtime) (items : list pystr) : list pystr :=
  let clean := map normalize_name
                 (filter (fun x => truthy (normalize_name x)) items) in
  sorted lower (set_iter rt clean).

(* ================================================================== *)
(** * Catalog store *)
(* ================================================================== *)

Definition category_map := dict (list pystr).
Definition catalog := dict category_map.

Definition Uncategorized : pystr := py "Uncategorized".

Definition DEFAULT_STORES : catalog :=
  [ (py "Costco",
      [ (py "Bakery", [py "Bread"; py "Ritz Crackers"]);
        (py "Dairy", [py "Eggs"; py "Milk"; py "Cheese"; py "Butter";
                      py "Dahi"]);
        (py "Meat & Frozen", [py "Chicken"; py "Chicken nuggets"]);
        (py "Pantry & Snacks", [py "Chips"; py "Juice"; py "Nuts";
                                py "Cooking oil"]);
        (py "Household", [py "Toilet Paper"; py "Paper Towel"]) ]);
    (py "Walmart",
      [ (py "Pantry", [py "Tortillas"; py "Beans"; py "Pasta Noodles";
                       py "Sauces"; py "Sugar"]);
        (py "Dairy", [py "Sour cream"]);
        (py "Produce", [py "Veggies"; py "Fruits"; py "Tomato"; py "Potato";
                        py "Bell peppers"; py "Onion"]) ]);
    (py "Indian Store",
      [ (py "Staples", [py "Rice"; py "Daal"; py "Pulses"]);
        (py "Spices", [py "Masalas"]);
        (py "Convenience", [py "Maggie noodles"; py "Mango pulp"]) ]);
    (py "Marianos", [ (Uncategorized, []) ]) ].

Definition DEFAULT_STORE_ORDER : list pystr :=
  [py "Costco"; py "Walmart"; py "Indian Store"; py "Marianos"].

(** The two glyph constants, code point by code point as the source
    file holds them: U+201A U+00F2 U+00EA and U+201A U+00C4 U+00EE. *)
Definition CHECKBOX_BULLET : pystr := [8218; 242; 234]%N.
Definition UNDERLINE_CHAR : pystr := [8218; 196; 238]%N.

(** The body of the loop of [convert_legacy_shape] for one store:
    the category map built from its payload. *)
Definition convert_payload (rt : runtime) (payload : json) : category_map :=
  match payload with
  | JArray l => [(Uncategorized, _sorted_unique rt (map (py_str rt) l))]
  | JObject d =>
      let cat_map :=
        fold_left
          (fun (cat_map : category_map) (entry : pystr * json) =>
             let cat_name := or_default (normalize_name (fst entry))
                                        Uncategorized in
             match snd entry with
             | JArray l =>
                 dict_set cat_name (_sorted_unique rt (map (py_str rt) l))
                          cat_map
             | _ => cat_map
             end)
          d [] in
      match cat_map with
      | [] => [(Uncategorized, [])]
      | _ => cat_map
      end
  | _ => [(Uncategorized, [])]
  end.

Definition convert_legacy_shape (rt : runtime) (data : dict json) : catalog :=
  fold_left
    (fun (converted : catalog) (entry : pystr * json) =>
       let store_name := normalize_name (fst entry) in
       if truthy store_name
       then dict_set store_name (convert_payload rt (snd entry)) converted
       else converted)
    data [].

(** [load_stores].  [file] is the parsed content of the data file, or
    [None] when the file does not exist or reading or parsing it raises. *)
Definition load_stores (rt : runtime) (file : option json) : catalog :=
  match file with
  | Some (JObject raw) =>
      match convert_legacy_shape rt raw with
      | [] => DEFAULT_STORES
      | cleaned => cleaned
      end
  | _ => DEFAULT_STORES
  end.

(** [load_store_order].  [file] is the parsed content of the meta file,
    or [None] when it does not exist or reading or parsing it raises. *)
Definition load_store_order (rt : runtime) (file : option json)
    (stores : catalog) : list pystr :=
  let order :=
    match file with
    | Some (JObject meta) =>
        match dict_get (py "store_order") meta with
        | Some (JArray l) =>
            map (fun x => normalize_name (py_str rt x))
                (filter (fun x => truthy (normalize_name (py_str rt x))) l)
        | _ => []
        end
    | _ => []
    end in
  let order := match order with [] => DEFAULT_STORE_ORDER | _ => order end in
  let order := filter (fun s => dict_mem s stores) order in
  fold_left (fun order s => if mem s order then order else order ++ [s])
            (sorted lower (dict_keys stores)) order.

Definition add_store (stores : catalog) (store_name : pystr) : catalog :=
  let store_name := normalize_name store_name in
  if truthy store_name && negb (dict_mem store_name stores)
  then dict_set store_name [(Uncategorized, [])] stores
  else stores.

Definition add_category (stores : catalog) (store_name category_name : pystr)
  : catalog :=
  let store_name := normalize_name store_name in
  let category_name := or_default (normalize_name category_name)
                                  Uncategorized in
  match dict_get store_name stores with
  | Some cats =>
      if dict_mem category_name cats then stores
      else dict_set store_name (dict_set category_name [] cats) stores
  | None => stores
  end.

(** The pieces of [items_text] that [add_items] adds. *)
Definition new_items (items_text : pystr) : list pystr :=
  let raw := replace_char 10 44 items_text in
  let new_items := map normalize_name (split_char 44 raw) in
  filter truthy new_items.

Definition add_items (rt : runtime) (stores : catalog)
    (store_name category_name items_text : pystr) : catalog :=
  let store_name := normalize_name store_name in
  let category_name := or_default (normalize_name category_name)
                                  Uncategorized in
  match dict_get store_name stores with
  | None => stores
  | Some cats =>
      let cats := if dict_mem category_name cats then cats
                  else dict_set category_name [] cats in
      (* the values inserted into [merged], in sequence *)
      let merged := dict_get_or category_name [] cats
                    ++ new_items items_text in
      dict_set store_name
        (dict_set category_name (sorted lower (set_iter rt merged)) cats)
        stores
  end.

Definition remove_item (stores : catalog) (store_name category_name item : pystr)
  : catalog :=
  match dict_get store_name stores with
  | Some cats =>
      match dict_get category_name cats with
      | Some items =>
          dict_set store_name
            (dict_set category_name
               (filter (fun x => negb (str_eqb x item)) items) cats)
            stores
      | None => stores
      end
  | None => stores
  end.

Definition remove_category (stores : catalog) (store_name category_name : pystr)
  : catalog :=
  match dict_get store_name stores with
  | Some cats =>
      if dict_mem category_name cats
      then if 1 <? length cats
           then dict_set store_name (dict_del category_name cats) stores
           else dict_set store_name [(Uncategorized, [])] stores
      else stores
  | None => stores
  end.

Definition remove_store (stores : catalog) (store_name : pystr) : catalog :=
  if dict_mem store_name stores then dict_del store_name stores else stores.

(* ================================================================== *)
(** * Visit order and list formatter *)
(* ================================================================== *)

(** One step of the de-duplicating loops: the state is [(out, seen)]. *)
Definition visit (st : list pystr * list pystr) (s : pystr)
  : list pystr * list pystr :=
  if mem s (snd st) then st else (fst st ++ [s], s :: snd st).

Definition ordered_stores (V : Type) (store_order : list pystr)
    (stores : dict V) : list pystr :=
  let st := fold_left
              (fun st s => if dict_mem s stores then visit st s else st)
              store_order ([], []) in
  let st := fold_left visit (sorted lower (dict_keys stores)) st in
  fst st.

Definition parse_store_order_text (V : Type) (text : pystr)
    (stores : dict V) : list pystr :=
  let lines := map normalize_name (splitlines text) in
  let lines := filter (fun x => truthy x && dict_mem x stores) lines in
  let st := fold_left visit lines ([], []) in
  let st := fold_left visit (sorted lower (dict_keys stores)) st in
  fst st.

(** The items of one store as the formatter lists them: flattened over
    the categories, normalized, empties dropped, de-duplicated, sorted. *)
Definition store_items (rt : runtime) (cat_map : category_map) : list pystr :=
  let all_items := flat_map (fun cat => dict_get_or cat [] cat_map)
                            (dict_keys cat_map) in
  let all_items := map normalize_name
                     (filter (fun x => truthy (normalize_name x)) all_items) in
  sorted lower (set_iter rt all_items).

(** [max(6, min(22, len(store) + 2))] *)
Definition underline_length (store : pystr) : nat :=
  Nat.max 6 (Nat.min 22 (length store + 2)).

(** [f"*{store}*"] *)
Definition header_line (store : pystr) : pystr := py "*" ++ store ++ py "*".

(** [UNDERLINE_CHAR * max(6, min(22, len(store) + 2))] *)
Definition underline_line (store : pystr) : pystr :=
  concat (repeat UNDERLINE_CHAR (underline_length store)).

(** [f"{CHECKBOX_BULLET} {it}"] *)
Definition bullet_line (it : pystr) : pystr := CHECKBOX_BULLET ++ py " " ++ it.

(** The lines the loop of the formatter appends for one store. *)
Definition store_block (rt : runtime) (selected : catalog) (store : pystr)
  : list pystr :=
  let all_items := store_items rt (dict_get_or store [] selected) in
  match all_items with
  | [] => []
  | _ =>
      [header_line store; underline_line store]
        ++ map bullet_line all_items
        ++ [[]]
  end.

(** The list [lines] when the loop of the formatter ends.  [today] is
    the text [date.today().strftime("%b %d, %Y")] returns. *)
Definition format_lines (rt : runtime) (today : pystr) (selected : catalog)
    (store_order : list pystr) : list pystr :=
  fold_left (fun lines store => lines ++ store_block rt selected store)
            (ordered_stores store_order selected)
            [py "Shopping List - " ++ today; []].

Definition format_shopping_list_for_whatsapp (rt : runtime) (today : pystr)
    (selected : catalog) (store_order : list pystr) : pystr :=
  strip (join nl (format_lines rt today selected store_order)).

(* ================================================================== *)
(** * Selection reconciliation *)
(* ================================================================== *)

(** A set of chosen item names, held as the list of its members. *)
Definition pyset := list pystr.
Definition selection := dict (dict pyset).

(** The first loop: selected stores that left the catalog are deleted. *)
Definition drop_stale_stores (stores : catalog) (selected : selection)
  : selection :=
  fold_left
    (fun sel store => if dict_mem store stores then sel
                      else dict_del store sel)
    (dict_keys selected) selected.

(** The body of the second loop for one catalog store. *)
Definition align_store (stores : catalog) (selected : selection)
    (store : pystr) : selection :=
  let cats := dict_get_or store [] stores in
  let selected := dict_setdefault store [] selected in
  let inner := dict_get_or store [] selected in
  let inner := fold_left (fun inner cat => dict_setdefault cat [] inner)
                         (dict_keys cats) inner in
  let inner := fold_left
                 (fun inner cat => if dict_mem cat cats then inner
                                   else dict_del cat inner)
                 (dict_keys inner) inner in
  dict_set store inner selected.

(** The block that keeps the selection aligned with the catalog. *)
Definition reconcile (stores : catalog) (selected : selection) : selection :=
  fold_left (align_store stores) (dict_keys stores)
            (drop_stale_stores stores selected).

(* ================================================================== *)
(** * Invariants and reference definitions *)
(* ================================================================== *)

(** Keys are unique at both levels of a catalog. *)
Definition catalog_wf (stores : catalog) : Prop :=
  dict_wf stores /\ Forall (fun entry => dict_wf (snd entry)) stores.

(** Every store has at least one category. *)
Definition every_store_has_category (stores : catalog) : Prop :=
  Forall (fun entry => snd entry <> []) stores.

(** Splitting at every code point that [is_sep] accepts, in one pass;
    the reference for the replace-then-split of [add_items]. *)
Fixpoint split_where_aux (is_sep : N -> bool) (cur : pystr) (s : pystr)
  : list pystr :=
  match s with
  | [] => [rev cur]
  | c :: r =>
      if is_sep c then rev cur :: split_where_aux is_sep [] r
      else split_where_aux is_sep (c :: cur) r
  end.

Definition split_commas_newlines (s : pystr) : list pystr :=
  split_where_aux (fun c => (c =? 44)%N || (c =? 10)%N) [] s.

(** A name that [normalize_name] leaves as it is. *)
Definition normalized (k : pystr) : Prop := normalize_name k = k.

(** Store names and category names are normalized. *)
Definition catalog_normalized (stores : catalog) : Prop :=
  Forall (fun entry =>
            normalized (fst entry)
            /\ Forall (fun c => normalized (fst c)) (snd entry))
         stores.

(** The catalogs a session can hold: what [load_stores] returns, and
    what the mutating operations make of such a catalog. *)
Inductive reachable (rt : runtime) : catalog -> Prop :=
  | reach_load file : reachable rt (load_stores rt file)
  | reach_add_store stores name :
      reachable rt stores -> reachable rt (add_store stores name)
  | reach_add_category stores store category :
      reachable rt stores -> reachable rt (add_category stores store category)
  | reach_add_items stores store category text :
      reachable rt stores ->
      reachable rt (add_items rt stores store category text)
  | reach_remove_item stores store category item :
      reachable rt stores ->
      reachable rt (remove_item stores store category item)
  | reach_remove_category stores store category :
      reachable rt stores ->
      reachable rt (remove_category stores store category)
  | reach_remove_store stores store :
      reachable rt stores -> reachable rt (remove_store stores store).

(** A small catalog used in examples: one store with one category. *)
Definition one_store_catalog : catalog :=
  [(py "S", [(py "Dairy", [py "Milk"])])].

(** Reading the item list of a category of a store. *)
Definition category_items (stores : catalog) (store category : pystr)
  : option (list pystr) :=
  match dict_get store stores with
  | Some cats => dict_get category cats
  | None => None
  end.

(** The catalog document
    [{"Costco": {"Dairy": ["Milk", "milk", "  Eggs "]}}]. *)
Definition dairy_document : json :=
  JObject [(py "Costco",
            JObject [(py "Dairy",
                      JArray [JString (py "Milk"); JString (py "milk");
                              JString (py "  Eggs ")])])].

(** The meta file is absent or unreadable, or what it holds is not an
    object with a list under "store_order". *)
Definition order_document_unusable (file : option json) : Prop :=
  match file with
  | Some (JObject meta) =>
      match dict_get (py "store_order") meta with
      | Some (JArray _) => False
      | _ => True
      end
  | _ => True
  end.

(** The state of a de-duplicating loop: [out] has no duplicates and
    [seen] has the members of [out]. *)
Definition visit_inv (st : list pystr * list pystr) : Prop :=
  NoDup (fst st) /\ forall x, In x (snd st) <-> In x (fst st).

(** The set chosen under a store and a category, empty when the
    selection has no such entry. *)
Definition chosen (selected : selection) (store category : pystr) : pyset :=
  dict_get_or category [] (dict_get_or store [] selected).

(** The entry of [store] in [sel] is aligned with the catalog: it has the
    categories of the store in the catalog, each with the set that
    [selected] had for it. *)
Definition settled (stores : catalog) (selected : selection) (store : pystr)
    (sel : selection) : Prop :=
  exists inner,
    dict_get store sel = Some inner
    /\ forall c, dict_get c inner
                 = if dict_mem c (dict_get_or store [] stores)
                   then Some (chosen selected store c) else None.

(** The entry of [store] in [sel] is still the one of [selected]. *)
Definition pending (selected : selection) (store : pystr) (sel : selection)
  : Prop :=
  dict_get store sel = dict_get store selected.

(** The selection [{"Costco": {"Dairy": ["Milk"]}, "Walmart":
    {"Produce": []}}] as the formatter receives it. *)
Definition milk_selection : catalog :=
  [(py "Costco", [(py "Dairy", [py "Milk"])]);
   (py "Walmart", [(py "Produce", [])])].

(** A name as the catalog stores it: not empty, and normalized. *)
Definition clean_name (k : pystr) : Prop := k <> [] /\ normalized k.

(** Store names, category names and item names are all clean. *)
Definition catalog_clean (stores : catalog) : Prop :=
  Forall (fun entry =>
            clean_name (fst entry)
            /\ Forall (fun c => clean_name (fst c)
                                /\ Forall clean_name (snd c))
                      (snd entry))
         stores.




(** The members of a list in the order of their first occurrence; the
    reference for the loops that keep a set of names already seen. *)
Fixpoint first_occurrences (l : list pystr) : list pystr :=
  match l with
  | [] => []
  | x :: r => x :: filter (fun y => negb (str_eqb x y)) (first_occurrences r)
  end.

(* ------------------------------------------------------------------ *)
(** ** The helpers of the user interface *)

(** [len(range(0, stop, step))] for a positive [step]. *)
Definition range_length (stop step : nat) : nat := (stop + step - 1) / step.

(** [chunk_list(items, n)]: [[items[i:i + n] for i in
    range(0, len(items), n)]].  A step of zero makes [range] raise
    ([None]); with a negative step the range is empty. *)
Definition chunk_list (A : Type) (items : list A) (n : Z)
  : option (list (list A)) :=
  if (n =? 0)%Z then None
  else if (n <? 0)%Z then Some []
  else
    let step := Z.to_nat n in
    Some (map (fun k => firstn step (skipn (k * step) items))
              (seq 0 (range_length (length items) step))).

(** [needle in hay] for strings. *)
Fixpoint starts_with (needle hay : pystr) : bool :=
  match needle, hay with
  | [], _ => true
  | c :: needle', d :: hay' => (c =? d)%N && starts_with needle' hay'
  | _ :: _, [] => false
  end.

Fixpoint contains (needle hay : pystr) : bool :=
  starts_with needle hay
  || match hay with
     | [] => false
     | _ :: hay' => contains needle hay'
     end.

Definition store_color (store : pystr) : pystr :=
  let s := lower store in
  if contains (py "costco") s then py "#D62828"
  else if contains (py "walmart") s then py "#1D9BF0"
  else if contains (py "indian") s then py "#2B2B2B"
  else if contains (py "maria") s then py "#6B4F2A"
  else py "#2B2B2B".

(** A line that starts with an asterisk, as the header lines do. *)
Definition starts_with_star (line : pystr) : bool :=
  match line with
  | c :: _ => (c =? 42)%N
  | [] => false
  end.

(** The formatter has an item to list for the store. *)
Definition has_items (rt : runtime) (selected : catalog) (store : pystr)
  : bool :=
  match store_items rt (dict_get_or store [] selected) with
  | [] => false
  | _ :: _ => true
  end.

(** The selection has the shape of the catalog: its stores are stores
    of the catalog, each store of the catalog has an entry, and that
    entry has exactly the categories of the store. *)
Definition aligned (stores : catalog) (sel : selection) : Prop :=
  (forall e, In e sel -> dict_mem (fst e) stores = true)
  /\ (forall s, In s (dict_keys stores) ->
        exists inner,
          dict_get s sel = Some inner
          /\ (forall c, In c inner ->
                dict_mem (fst c) (dict_get_or s [] stores) = true)
          /\ (forall c, In c (dict_keys (dict_get_or s [] stores)) ->
                dict_mem c inner = true)).

(* ------------------------------------------------------------------ *)
(** ** The session: what the buttons and check boxes do *)

(** [{s: {c: set() for c in stores[s].keys()} for s in stores}]: the
    selection a session starts with. *)
Definition initial_selection (stores : catalog) : selection :=
  fold_left
    (fun sel s =>
       dict_set s
         (fold_left (fun inner c => dict_set c [] inner)
                    (dict_keys (dict_get_or s [] stores)) [])
         sel)
    (dict_keys stores) [].

(** The search filter of the tiles: the items whose lower-cased name
    holds the normalized, lower-cased search text; all of them when that
    text is empty. *)
Definition visible_items (search : pystr) (items : list pystr) : list pystr :=
  let search_norm := lower (normalize_name search) in
  if truthy search_norm
  then filter (fun it => contains search_norm (lower it)) items
  else items.

(** What the user does in one run of the script.  [Tick] is a run in
    which no button is pressed: the check boxes are read, [checked]
    giving the state of the box of a store, category and item from the
    state it is drawn with. *)
Inductive event : Type :=
  | ClearSelections
  | ResetToDefaults
  | AddStore (new_store : pystr)
  | AddCategory (store_for_cat new_cat : pystr)
  | AddProducts (store_for_items cat_name items_text : pystr)
  | RemoveProduct (store_rm cat_rm item_rm : pystr)
  | RemoveCategory (store_rm cat_rm : pystr)
  | RemoveStore (store_rm : pystr)
  | Tick (search : pystr)
         (checked : pystr -> pystr -> pystr -> bool -> bool).

(** [selected[store][cat]] is written by [f]; [None] stands for the
    [KeyError] of a missing store or category. *)
Definition update_chosen (selected : selection) (store cat : pystr)
    (f : pyset -> pyset) : option selection :=
  match dict_get store selected with
  | None => None
  | Some inner =>
      match dict_get cat inner with
      | None => None
      | Some chosen_set =>
          Some (dict_set store (dict_set cat (f chosen_set) inner) selected)
      end
  end.

(** [selected[store]] is written by [f]; [None] stands for the
    [KeyError] of a missing store. *)
Definition update_store (selected : selection) (store : pystr)
    (f : dict pyset -> dict pyset) : option selection :=
  match dict_get store selected with
  | None => None
  | Some inner => Some (dict_set store (f inner) selected)
  end.

(** [s.add(item)] and [s.discard(item)] *)
Definition set_add (item : pystr) (s : pyset) : pyset :=
  if mem item s then s else s ++ [item].

Definition set_discard (item : pystr) (s : pyset) : pyset :=
  filter (fun x => negb (str_eqb x item)) s.

(** The rows of tiles: the stores sorted by lower-cased name, two to a
    row. *)
Definition tile_rows (stores : catalog) : list (list pystr) :=
  let store_names := sorted lower (dict_keys stores) in
  match chunk_list store_names 2 with
  | Some rows => rows
  | None => []
  end.

(** The check boxes of one tile, in the order they are drawn. *)
Definition tile_boxes (search : pystr) (stores : catalog) (store : pystr)
  : list (pystr * pystr * pystr) :=
  let cat_map := dict_get_or store [] stores in
  flat_map
    (fun cat =>
       map (fun item => (store, cat, item))
           (visible_items search (dict_get_or cat [] cat_map)))
    (sorted lower (dict_keys cat_map)).

(** The check boxes of the tiles, in the order they are drawn. *)
Definition drawn_boxes (search : pystr) (stores : catalog)
  : list (pystr * pystr * pystr) :=
  flat_map (fun row => flat_map (tile_boxes search stores) row)
           (tile_rows stores).

(** Reading one check box. *)
Definition read_box (checked : pystr -> pystr -> pystr -> bool -> bool)
    (selected : option selection) (box : pystr * pystr * pystr)
  : option selection :=
  match selected with
  | None => None
  | Some sel =>
      let '(store, cat, item) := box in
      match update_chosen sel store cat (fun s => s) with
      | None => None
      | Some _ =>
          let default_checked := mem item (chosen sel store cat) in
          if checked store cat item default_checked
          then update_chosen sel store cat (set_add item)
          else update_chosen sel store cat (set_discard item)
      end
  end.

(** The body of the run for each event: the new catalog and selection,
    or [None] when a [KeyError] is raised. *)
Definition handle (rt : runtime) (ev : event) (stores : catalog)
    (selected : selection) : option (catalog * selection) :=
  match ev with
  | ClearSelections =>
      Some (stores,
            fold_left
              (fun sel s =>
                 let inner := dict_get_or s [] sel in
                 dict_set s
                   (fold_left (fun inner c => dict_set c [] inner)
                              (dict_keys inner) inner)
                   sel)
              (dict_keys selected) selected)
  | ResetToDefaults =>
      Some (DEFAULT_STORES, initial_selection DEFAULT_STORES)
  | AddStore new_store =>
      let new_store := normalize_name new_store in
      if negb (truthy new_store) then Some (stores, selected)
      else if dict_mem new_store stores then Some (stores, selected)
      else Some (add_store stores new_store,
                 dict_setdefault new_store [(Uncategorized, [])] selected)
  | AddCategory store_for_cat new_cat =>
      let new_cat := or_default (normalize_name new_cat) Uncategorized in
      let stores := add_category stores store_for_cat new_cat in
      option_map (fun sel => (stores, sel))
        (update_store selected store_for_cat (dict_setdefault new_cat []))
  | AddProducts store_for_items cat_name items_text =>
      let cat_name := or_default (normalize_name cat_name) Uncategorized in
      if negb (truthy (strip items_text)) then Some (stores, selected)
      else
        let stores := add_items rt stores store_for_items cat_name
                                items_text in
        option_map (fun sel => (stores, sel))
          (update_store selected store_for_items
             (dict_setdefault cat_name []))
  | RemoveProduct store_rm cat_rm item_rm =>
      let stores := remove_item stores store_rm cat_rm item_rm in
      option_map (fun sel => (stores, sel))
        (update_chosen selected store_rm cat_rm (set_discard item_rm))
  | RemoveCategory store_rm cat_rm =>
      let stores := remove_category stores store_rm cat_rm in
      option_map (fun sel => (stores, sel))
        (update_store selected store_rm
           (fun inner => if dict_mem cat_rm inner then dict_del cat_rm inner
                         else inner))
  | RemoveStore store_rm =>
      Some (remove_store stores store_rm,
            if dict_mem store_rm selected then dict_del store_rm selected
            else selected)
  | Tick search checked =>
      option_map (fun sel => (stores, sel))
        (fold_left (read_box checked) (drawn_boxes search stores)
                   (Some selected))
  end.

(** [selected[store][cat]] can be read. *)
Definition has_entry (selected : selection) (store cat : pystr) : Prop :=
  exists inner,
    dict_get store selected = Some inner /\ dict_mem cat inner = true.

(** The names an action gets from the select boxes are taken from the
    catalog as it is drawn: the store of a new category or of new
    products, the store, category and product to remove. *)
Definition offered (stores : catalog) (ev : event) : Prop :=
  match ev with
  | AddCategory store_for_cat _ => In store_for_cat (dict_keys stores)
  | AddProducts store_for_items _ _ => In store_for_items (dict_keys stores)
  | RemoveProduct store_rm cat_rm item_rm =>
      exists items,
        category_items stores store_rm cat_rm = Some items /\ In item_rm items
  | RemoveCategory store_rm cat_rm =>
      exists items, category_items stores store_rm cat_rm = Some items
  | RemoveStore store_rm => In store_rm (dict_keys stores)
  | _ => True
  end.

(** The structure the list is formatted from: for every store and
    category of the catalog the chosen items, sorted by lower-cased
    name.  [None] stands for the [KeyError] of a store the selection
    does not have. *)
Definition selected_for_output (rt : runtime) (stores : catalog)
    (selected : selection) : option catalog :=
  fold_left
    (fun out store =>
       match out with
       | None => None
       | Some out =>
           option_map (fun cats => dict_set store cats out)
             (fold_left
                (fun cats cat =>
                   match cats with
                   | None => None
                   | Some cats =>
                       match dict_get store selected with
                       | None => None
                       | Some inner =>
                           Some (dict_set cat
                                   (sorted lower
                                      (set_iter rt (dict_get_or cat [] inner)))
                                   cats)
                       end
                   end)
                (dict_keys (dict_get_or store [] stores)) (Some []))
       end)
    (dict_keys stores) (Some []).

(** Every chosen item is an item of the catalog, under its store and
    category. *)
Definition items_within (stores : catalog) (selected : selection) : Prop :=
  forall s c x,
    In x (chosen selected s c) ->
    exists items, category_items stores s c = Some items /\ In x items.

(** The selection lies within the catalog at every level. *)
Definition session_ok (stores : catalog) (selected : selection) : Prop :=
  aligned stores selected /\ items_within stores selected.

(** The states of a session, as the page sees them: the catalog and the
    selection right after the reconciliation block.  The first run loads
    the catalog and builds the initial selection; every later run starts
    from what the action of the run before left in the session state. *)
Inductive session (rt : runtime) : catalog -> selection -> Prop :=
  | session_start file :
      session rt (load_stores rt file)
        (reconcile (load_stores rt file)
                   (initial_selection (load_stores rt file)))
  | session_step stores selected ev stores' selected' :
      session rt stores selected ->
      handle rt ev stores selected = Some (stores', selected') ->
      session rt stores' (reconcile stores' selected').

(* ================================================================== *)
(** * Two runtimes *)
(* ================================================================== *)

Definition str_eq_dec : forall a b : pystr, {a = b} + {a <> b} :=
  list_eq_dec N.eq_dec.

(** Sets that iterate in the order of insertion. *)
Definition insertion_order_runtime : runtime :=
  {| set_iter := nodup str_eq_dec;
     set_iter_nodup := NoDup_nodup str_eq_dec;
     set_iter_in := nodup_In str_eq_dec;
     str_container := fun _ => py "[...]" |}.

(** Sets that iterate against the order of insertion. *)
Definition reverse_order_runtime : runtime :=
  {| set_iter := fun l => rev (nodup str_eq_dec l);
     set_iter_nodup := fun l =>
       Permutation_NoDup (Permutation_rev _) (NoDup_nodup str_eq_dec l);
     set_iter_in := fun l x =>
       iff_trans (iff_sym (in_rev _ x)) (nodup_In str_eq_dec l x);
     str_container := fun _ => py "[...]" |}.

(* ================================================================== *)
(** * Facts about strings and membership *)
(* ================================================================== *)

Lemma str_eqb_eq (a b : pystr) : str_eqb a b = true <-> a = b.
Proof.
  revert b; induction a as [|x a IH]; intros [|y b]; simpl;
    try (split; [discriminate | congruence]); try tauto.
  rewrite andb_true_iff, N.eqb_eq, IH.
  split; [intros [-> ->]; reflexivity | intros H; inversion H; auto].
Qed.

Lemma str_eqb_refl (a : pystr) : str_eqb a a = true.
Proof. apply str_eqb_eq; reflexivity. Qed.

Lemma str_eqb_neq (a b : pystr) : str_eqb a b = false <-> a <> b.
Proof.
  rewrite <- str_eqb_eq. destruct (str_eqb a b); split; congruence.
Qed.

Lemma str_eqb_sym (a b : pystr) : str_eqb a b = str_eqb b a.
Proof.
  destruct (str_eqb a b) eqn:E, (str_eqb b a) eqn:F; auto.
  - apply str_eqb_eq in E; subst. now rewrite str_eqb_refl in F.
  - apply str_eqb_eq in F; subst. now rewrite str_eqb_refl in E.
Qed.

Lemma mem_In (x : pystr) (l : list pystr) : mem x l = true <-> In x l.
Proof.
  induction l as [|y l IH]; simpl; [split; [discriminate | tauto]|].
  rewrite orb_true_iff, str_eqb_eq, IH. split; intros [H|H]; auto.
Qed.

Lemma mem_not_In (x : pystr) (l : list pystr) : mem x l = false <-> ~ In x l.
Proof.
  rewrite <- mem_In. destruct (mem x l); split; congruence.
Qed.

Lemma mem_app (x : pystr) (l1 l2 : list pystr) :
  mem x (l1 ++ l2) = mem x l1 || mem x l2.
Proof.
  induction l1 as [|y l1 IH]; simpl; [reflexivity|].
  now rewrite IH, orb_assoc.
Qed.

Lemma str_compare_eq (a b : pystr) :
  list_compare N.compare a b = Eq <-> a = b.
Proof. apply list_compare_refl, N.compare_eq_iff. Qed.

Lemma str_compare_antisym (a b : pystr) :
  list_compare N.compare b a = CompOpp (list_compare N.compare a b).
Proof.
  apply list_compare_antisym; [apply N.compare_eq_iff|].
  intros x y. apply N.compare_antisym.
Qed.

Lemma N_compare_trans (x y z : N) (c : comparison) :
  (x ?= y)%N = c -> (y ?= z)%N = c -> (x ?= z)%N = c.
Proof.
  destruct c; intros H1 H2.
  - apply N.compare_eq_iff in H1, H2. subst. apply N.compare_refl.
  - rewrite N.compare_lt_iff in *. lia.
  - rewrite N.compare_gt_iff in *. lia.
Qed.

Lemma str_compare_trans (a b c : pystr) (r : comparison) :
  list_compare N.compare a b = r -> list_compare N.compare b c = r ->
  list_compare N.compare a c = r.
Proof.
  apply list_compare_trans.
  - apply N.compare_eq_iff.
  - apply N_compare_trans.
  - intros x y. apply N.compare_antisym.
Qed.

Lemma str_leb_refl (a : pystr) : str_leb a a = true.
Proof.
  unfold str_leb. now rewrite (proj2 (str_compare_eq a a) eq_refl).
Qed.

Lemma str_leb_total (a b : pystr) : str_leb a b = true \/ str_leb b a = true.
Proof.
  unfold str_leb. rewrite (str_compare_antisym a b).
  destruct (list_compare N.compare a b); simpl; auto.
Qed.

Lemma str_leb_trans (a b c : pystr) :
  str_leb a b = true -> str_leb b c = true -> str_leb a c = true.
Proof.
  unfold str_leb.
  destruct (list_compare N.compare a b) eqn:E1; try discriminate;
    destruct (list_compare N.compare b c) eqn:E2; try discriminate;
    intros _ _.
  - apply str_compare_eq in E1; subst. now rewrite E2.
  - apply str_compare_eq in E1; subst. now rewrite E2.
  - apply str_compare_eq in E2; subst. now rewrite E1.
  - now rewrite (str_compare_trans _ _ _ E1 E2).
Qed.

(* ================================================================== *)
(** * The stable sort *)
(* ================================================================== *)

Section SortingFacts.

Variable key : pystr -> pystr.

Lemma insert_by_perm (x : pystr) (l : list pystr) :
  Permutation (insert_by key x l) (x :: l).
Proof.
  induction l as [|y l IH]; simpl; [reflexivity|].
  destruct (str_leb (key x) (key y)); [reflexivity|].
  rewrite IH. apply perm_swap.
Qed.

Lemma sorted_perm (l : list pystr) : Permutation (sorted key l) l.
Proof.
  induction l as [|x l IH]; simpl; [reflexivity|].
  rewrite insert_by_perm. now constructor.
Qed.

Lemma sorted_In (l : list pystr) (x : pystr) :
  In x (sorted key l) <-> In x l.
Proof.
  split; apply Permutation_in;
    [apply sorted_perm | symmetry; apply sorted_perm].
Qed.

Lemma sorted_NoDup (l : list pystr) : NoDup l -> NoDup (sorted key l).
Proof.
  apply Permutation_NoDup. symmetry. apply sorted_perm.
Qed.

Lemma sorted_nil_inv (l : list pystr) : sorted key l = [] -> l = [].
Proof.
  intros H. apply Permutation_nil. rewrite <- H. apply sorted_perm.
Qed.

Lemma insert_by_sorted (x : pystr) (l : list pystr) :
  StronglySorted (key_le key) l ->
  StronglySorted (key_le key) (insert_by key x l).
Proof.
  induction 1 as [|y l Hs IH Hall]; simpl.
  - repeat constructor.
  - destruct (str_leb (key x) (key y)) eqn:E.
    + constructor; [now constructor|].
      constructor; [exact E|].
      eapply Forall_impl; [|exact Hall].
      intros z Hz. unfold key_le in *. eapply str_leb_trans; eauto.
    + constructor; [exact IH|].
      apply (Permutation_Forall (Permutation_sym (insert_by_perm x l))).
      constructor; [|exact Hall].
      unfold key_le. destruct (str_leb_total (key x) (key y)); congruence.
Qed.

(** The result is in ascending order of keys. *)
Lemma sorted_sorted (l : list pystr) :
  StronglySorted (key_le key) (sorted key l).
Proof.
  induction l as [|x l IH]; simpl; [constructor|].
  now apply insert_by_sorted.
Qed.

Lemma insert_by_stable (k x : pystr) (l : list pystr) :
  filter (fun y => str_eqb (key y) k) (insert_by key x l)
  = filter (fun y => str_eqb (key y) k) (x :: l).
Proof.
  induction l as [|y l IH]; [reflexivity|].
  cbn [insert_by].
  destruct (str_leb (key x) (key y)) eqn:E; [reflexivity|].
  cbn [filter] in *. rewrite IH.
  destruct (str_eqb (key x) k) eqn:Ex, (str_eqb (key y) k) eqn:Ey;
    try reflexivity.
  apply str_eqb_eq in Ex, Ey. rewrite Ex, Ey, str_leb_refl in E.
  discriminate.
Qed.

(** The sort is stable: elements with one key keep their order. *)
Lemma sorted_stable (k : pystr) (l : list pystr) :
  filter (fun y => str_eqb (key y) k) (sorted key l)
  = filter (fun y => str_eqb (key y) k) l.
Proof.
  induction l as [|x l IH]; [reflexivity|].
  cbn [sorted]. rewrite insert_by_stable. cbn [filter]. now rewrite IH.
Qed.

End SortingFacts.

(* ================================================================== *)
(** * Facts about dictionaries *)
(* ================================================================== *)

Section DictFacts.

Variable V : Type.
Implicit Types (d : dict V) (k : pystr) (v : V).

Lemma dict_mem_In k d : dict_mem k d = true <-> In k (dict_keys d).
Proof. apply mem_In. Qed.

Lemma dict_get_None k d : dict_get k d = None <-> dict_mem k d = false.
Proof.
  unfold dict_mem. induction d as [|[k' v'] d IH]; simpl; [tauto|].
  destruct (str_eqb k k'); simpl; [split; discriminate | exact IH].
Qed.

Lemma dict_get_Some_mem k d v : dict_get k d = Some v -> dict_mem k d = true.
Proof.
  intros H. destruct (dict_mem k d) eqn:E; [reflexivity|].
  apply dict_get_None in E. congruence.
Qed.

Lemma dict_mem_get k d : dict_mem k d = true -> exists v, dict_get k d = Some v.
Proof.
  intros H. destruct (dict_get k d) as [v|] eqn:E; [now exists v|].
  apply dict_get_None in E. congruence.
Qed.

Lemma dict_get_In k d v : dict_get k d = Some v -> In (k, v) d.
Proof.
  induction d as [|[k' v'] d IH]; simpl; [discriminate|].
  destruct (str_eqb k k') eqn:E; [|auto].
  apply str_eqb_eq in E. intros [= ->]. subst. now left.
Qed.

Lemma dict_get_set_same k v d : dict_get k (dict_set k v d) = Some v.
Proof.
  induction d as [|[k' v'] d IH]; simpl.
  - now rewrite str_eqb_refl.
  - destruct (str_eqb k k') eqn:E; simpl; now rewrite E.
Qed.

Lemma dict_get_set_other k k' v d :
  k' <> k -> dict_get k' (dict_set k v d) = dict_get k' d.
Proof.
  intros Hne. induction d as [|[k0 v0] d IH]; simpl.
  - apply str_eqb_neq in Hne. now rewrite Hne.
  - destruct (str_eqb k k0) eqn:E; simpl; [|now rewrite IH].
    apply str_eqb_eq in E. subst k0.
    apply str_eqb_neq in Hne. now rewrite Hne.
Qed.

Lemma dict_keys_set_In k k' v d :
  In k' (dict_keys (dict_set k v d)) <-> k' = k \/ In k' (dict_keys d).
Proof.
  induction d as [|[k0 v0] d IH]; simpl.
  - intuition.
  - destruct (str_eqb k k0) eqn:E; simpl.
    + apply str_eqb_eq in E. subst. intuition.
    + rewrite IH. intuition.
Qed.

Lemma dict_mem_set k k' v d :
  dict_mem k' (dict_set k v d) = str_eqb k' k || dict_mem k' d.
Proof.
  destruct (dict_mem k' (dict_set k v d)) eqn:E; symmetry.
  - apply dict_mem_In, dict_keys_set_In in E.
    apply orb_true_iff. rewrite str_eqb_eq, dict_mem_In. exact E.
  - apply orb_false_iff. rewrite str_eqb_neq.
    assert (~ In k' (dict_keys (dict_set k v d))) as H
      by (rewrite <- dict_mem_In; congruence).
    rewrite dict_keys_set_In in H. split; [tauto|].
    destruct (dict_mem k' d) eqn:F; [|reflexivity].
    apply dict_mem_In in F. tauto.
Qed.

Lemma dict_keys_set_present k v d :
  dict_mem k d = true -> dict_keys (dict_set k v d) = dict_keys d.
Proof.
  unfold dict_mem.
  induction d as [|[k0 v0] d IH]; simpl; [discriminate|].
  destruct (str_eqb k k0) eqn:E; simpl; [reflexivity|].
  intros H. now rewrite IH.
Qed.

Lemma dict_keys_set_absent k v d :
  dict_mem k d = false -> dict_keys (dict_set k v d) = dict_keys d ++ [k].
Proof.
  unfold dict_mem.
  induction d as [|[k0 v0] d IH]; simpl; [reflexivity|].
  destruct (str_eqb k k0) eqn:E; simpl; [discriminate|].
  intros H. now rewrite IH.
Qed.

Lemma dict_set_not_nil k v d : dict_set k v d <> [].
Proof.
  destruct d as [|[k0 v0] d]; simpl; [discriminate|].
  destruct (str_eqb k k0); discriminate.
Qed.

Lemma dict_wf_set k v d : dict_wf d -> dict_wf (dict_set k v d).
Proof.
  unfold dict_wf. intros H.
  destruct (dict_mem k d) eqn:E.
  - now rewrite dict_keys_set_present.
  - rewrite dict_keys_set_absent by exact E.
    apply NoDup_app; [exact H | repeat constructor; simpl; tauto |].
    intros x Hx [<-|[]]. apply dict_mem_In in Hx. congruence.
Qed.

Lemma dict_keys_del k d :
  dict_keys (dict_del k d)
  = filter (fun k' => negb (str_eqb k k')) (dict_keys d).
Proof.
  unfold dict_del, dict_keys.
  induction d as [|[k0 v0] d IH]; simpl; [reflexivity|].
  destruct (str_eqb k k0); simpl; now rewrite IH.
Qed.

Lemma dict_mem_del k k' d :
  dict_mem k' (dict_del k d) = negb (str_eqb k k') && dict_mem k' d.
Proof.
  unfold dict_mem. rewrite dict_keys_del.
  induction (dict_keys d) as [|k0 l IH]; simpl; [now rewrite andb_false_r|].
  destruct (str_eqb k k0) eqn:E; simpl; rewrite IH.
  - apply str_eqb_eq in E. subst k0.
    rewrite (str_eqb_sym k' k).
    destruct (str_eqb k k'); reflexivity.
  - destruct (str_eqb k' k0) eqn:F; simpl; [|reflexivity].
    apply str_eqb_eq in F. subst k0. rewrite E. reflexivity.
Qed.

Lemma dict_get_del_other k k' d :
  k' <> k -> dict_get k' (dict_del k d) = dict_get k' d.
Proof.
  intros Hne. unfold dict_del.
  induction d as [|[k0 v0] d IH]; simpl; [reflexivity|].
  destruct (str_eqb k k0) eqn:E; simpl.
  - apply str_eqb_eq in E. subst k0.
    apply str_eqb_neq in Hne. now rewrite Hne.
  - now rewrite IH.
Qed.

Lemma dict_wf_del k d : dict_wf d -> dict_wf (dict_del k d).
Proof.
  unfold dict_wf. rewrite dict_keys_del. apply NoDup_filter.
Qed.

(** Deleting a key that is present removes exactly one entry. *)
Lemma dict_del_length k d :
  dict_wf d -> dict_mem k d = true -> S (length (dict_del k d)) = length d.
Proof.
  unfold dict_wf, dict_mem, dict_del.
  induction d as [|[k0 v0] d IH]; simpl; [discriminate|].
  intros Hnd Hm. inversion Hnd as [|? ? Hnin Hnd']; subst.
  destruct (str_eqb k k0) eqn:E; simpl.
  - apply str_eqb_eq in E. subst k0. f_equal.
    clear IH Hm Hnd Hnd'. induction d as [|[k1 v1] d IH]; [reflexivity|].
    simpl in *. destruct (str_eqb k k1) eqn:F.
    + apply str_eqb_eq in F. subst k1. exfalso. apply Hnin. now left.
    + simpl. f_equal. apply IH. tauto.
  - f_equal. apply IH; assumption.
Qed.

Lemma dict_mem_setdefault k k' v d :
  dict_mem k' (dict_setdefault k v d) = str_eqb k' k || dict_mem k' d.
Proof.
  unfold dict_setdefault. destruct (dict_mem k d) eqn:E.
  - destruct (str_eqb k' k) eqn:F; [|reflexivity].
    apply str_eqb_eq in F. subst. now rewrite E.
  - apply dict_mem_set.
Qed.

Lemma dict_get_setdefault_other k k' v d :
  k' <> k -> dict_get k' (dict_setdefault k v d) = dict_get k' d.
Proof.
  intros H. unfold dict_setdefault.
  destruct (dict_mem k d); [reflexivity | now apply dict_get_set_other].
Qed.

Lemma dict_get_setdefault_present k k' v v' d :
  dict_get k' d = Some v' -> dict_get k' (dict_setdefault k v d) = Some v'.
Proof.
  intros H. unfold dict_setdefault.
  destruct (dict_mem k d) eqn:E; [exact H|].
  rewrite dict_get_set_other; [exact H|].
  intros ->. apply dict_get_Some_mem in H. congruence.
Qed.

End DictFacts.

Section DictForall.

Variable V : Type.
Variable P : V -> Prop.

Lemma dict_set_Forall (k : pystr) (v : V) (d : dict V) :
  P v -> Forall (fun e => P (snd e)) d ->
  Forall (fun e => P (snd e)) (dict_set k v d).
Proof.
  intros Hv. induction 1 as [|[k0 v0] d Hx Hd IH]; simpl.
  - repeat constructor. exact Hv.
  - destruct (str_eqb k k0); constructor; auto.
Qed.

Lemma dict_del_Forall (k : pystr) (d : dict V) :
  Forall (fun e => P (snd e)) d -> Forall (fun e => P (snd e)) (dict_del k d).
Proof.
  intros H. apply Forall_forall. intros e He.
  apply filter_In in He. rewrite Forall_forall in H. now apply H.
Qed.

Lemma dict_get_Forall (k : pystr) (v : V) (d : dict V) :
  Forall (fun e => P (snd e)) d -> dict_get k d = Some v -> P v.
Proof.
  intros H Hg. apply dict_get_In in Hg. rewrite Forall_forall in H.
  exact (H _ Hg).
Qed.

End DictForall.

(* ================================================================== *)
(** * The catalog store *)
(* ================================================================== *)

Lemma split_char_replace_aux (cur s : pystr) :
  split_char_aux 44 cur (replace_char 10 44 s)
  = split_where_aux (fun c => (c =? 44)%N || (c =? 10)%N) cur s.
Proof.
  revert cur. induction s as [|c s IH]; intros cur; simpl; [reflexivity|].
  destruct (c =? 10)%N eqn:E10.
  - simpl. rewrite orb_true_r. now rewrite IH.
  - rewrite orb_false_r. destruct (c =? 44)%N; now rewrite IH.
Qed.

(** Replacing newlines by commas and splitting on commas is splitting on
    commas and newlines alike. *)
Lemma split_char_replace (s : pystr) :
  split_char 44 (replace_char 10 44 s) = split_commas_newlines s.
Proof. apply split_char_replace_aux. Qed.

Lemma new_items_In (items_text x : pystr) :
  In x (new_items items_text) <->
  x <> [] /\ exists piece, In piece (split_commas_newlines items_text)
                           /\ normalize_name piece = x.
Proof.
  unfold new_items. rewrite filter_In, in_map_iff, split_char_replace.
  assert (truthy x = true <-> x <> []) as Ht
    by (destruct x; simpl; split; congruence).
  rewrite Ht. split.
  - intros [[p [Hp Hin]] Hx]. split; [exact Hx|]. now exists p.
  - intros [Hx [p [Hin Hp]]]. split; [now exists p | exact Hx].
Qed.

Lemma convert_payload_not_nil (rt : runtime) (payload : json) :
  convert_payload rt payload <> [].
Proof.
  destruct payload as [s|t|l|d]; simpl; try discriminate.
  match goal with |- context [fold_left ?f d []] =>
    destruct (fold_left f d []) end; discriminate.
Qed.

Lemma convert_legacy_shape_has_category (rt : runtime) (data : dict json) :
  every_store_has_category (convert_legacy_shape rt data).
Proof.
  unfold convert_legacy_shape, every_store_has_category.
  assert (Forall (fun e : pystr * category_map => snd e <> []) []) as H0
    by constructor.
  revert H0. generalize (@nil (pystr * category_map)) as acc.
  induction data as [|[store payload] data IH]; intros acc Hacc;
    cbn [fold_left]; [exact Hacc|].
  apply IH. cbn [fst snd].
  destruct (truthy (normalize_name store)); [|exact Hacc].
  apply (dict_set_Forall (fun v : category_map => v <> [])); [|exact Hacc].
  apply convert_payload_not_nil.
Qed.

Lemma DEFAULT_STORES_has_category : every_store_has_category DEFAULT_STORES.
Proof. repeat constructor; discriminate. Qed.

Lemma load_stores_has_category (rt : runtime) (file : option json) :
  every_store_has_category (load_stores rt file).
Proof.
  destruct file as [[s|t|l|raw]|]; simpl;
    try apply DEFAULT_STORES_has_category.
  pose proof (convert_legacy_shape_has_category rt raw) as H.
  destruct (convert_legacy_shape rt raw);
    [apply DEFAULT_STORES_has_category | exact H].
Qed.

Lemma singleton_wf (V : Type) (k : pystr) (v : V) : dict_wf [(k, v)].
Proof. repeat constructor. simpl. tauto. Qed.

Lemma catalog_wf_set (stores : catalog) (k : pystr) (cats : category_map) :
  catalog_wf stores -> dict_wf cats -> catalog_wf (dict_set k cats stores).
Proof.
  intros [Hk Hin] Hc. split; [now apply dict_wf_set|].
  now apply (dict_set_Forall (fun v : category_map => dict_wf v)).
Qed.

Lemma catalog_wf_del (stores : catalog) (k : pystr) :
  catalog_wf stores -> catalog_wf (dict_del k stores).
Proof.
  intros [Hk Hin]. split; [now apply dict_wf_del|].
  now apply (dict_del_Forall (fun v : category_map => dict_wf v)).
Qed.

Lemma catalog_wf_get (stores : catalog) (k : pystr) (cats : category_map) :
  catalog_wf stores -> dict_get k stores = Some cats -> dict_wf cats.
Proof.
  intros [_ Hin]. apply (dict_get_Forall (fun v : category_map => dict_wf v)).
  exact Hin.
Qed.

Lemma convert_payload_wf (rt : runtime) (payload : json) :
  dict_wf (convert_payload rt payload).
Proof.
  destruct payload as [s|t|l|d]; simpl; try apply singleton_wf.
  match goal with |- context [fold_left ?f d []] =>
    assert (dict_wf (fold_left f d [])) as H;
    [|destruct (fold_left f d []); [apply singleton_wf | exact H]]
  end.
  assert (dict_wf (@nil (pystr * list pystr))) as H0 by constructor.
  revert H0. generalize (@nil (pystr * list pystr)) as acc.
  induction d as [|[cat items] d IH]; intros acc Hacc; cbn [fold_left];
    [exact Hacc|].
  apply IH. cbn [fst snd].
  destruct items; try exact Hacc. now apply dict_wf_set.
Qed.

Lemma convert_legacy_shape_wf (rt : runtime) (data : dict json) :
  catalog_wf (convert_legacy_shape rt data).
Proof.
  unfold convert_legacy_shape.
  assert (catalog_wf []) as H0 by (split; constructor).
  revert H0. generalize (@nil (pystr * category_map)) as acc.
  induction data as [|[store payload] data IH]; intros acc Hacc;
    cbn [fold_left]; [exact Hacc|].
  apply IH. cbn [fst snd].
  destruct (truthy (normalize_name store)); [|exact Hacc].
  apply catalog_wf_set; [exact Hacc | apply convert_payload_wf].
Qed.

Lemma concrete_NoDup (l : list pystr) : nodup str_eq_dec l = l -> NoDup l.
Proof. intros <-. apply NoDup_nodup. Qed.

Lemma DEFAULT_STORES_wf : catalog_wf DEFAULT_STORES.
Proof.
  split; [apply concrete_NoDup; vm_compute; reflexivity|].
  unfold DEFAULT_STORES.
  repeat apply Forall_cons; try apply Forall_nil;
    apply concrete_NoDup; vm_compute; reflexivity.
Qed.

Lemma load_stores_wf (rt : runtime) (file : option json) :
  catalog_wf (load_stores rt file).
Proof.
  destruct file as [[s|t|l|raw]|]; simpl; try apply DEFAULT_STORES_wf.
  pose proof (convert_legacy_shape_wf rt raw) as H.
  destruct (convert_legacy_shape rt raw); [apply DEFAULT_STORES_wf | exact H].
Qed.

(** ** The operations keep keys unique *)

Lemma add_store_wf (stores : catalog) (store_name : pystr) :
  catalog_wf stores -> catalog_wf (add_store stores store_name).
Proof.
  intros H. unfold add_store.
  destruct (truthy _ && negb _); [|exact H].
  apply catalog_wf_set; [exact H | apply singleton_wf].
Qed.

Lemma add_category_wf (stores : catalog) (store_name category_name : pystr) :
  catalog_wf stores -> catalog_wf (add_category stores store_name category_name).
Proof.
  intros H. unfold add_category.
  destruct (dict_get _ stores) as [cats|] eqn:E; [|exact H].
  destruct (dict_mem _ cats); [exact H|].
  apply catalog_wf_set; [exact H|].
  apply dict_wf_set. eapply catalog_wf_get; eauto.
Qed.

Lemma add_items_wf (rt : runtime) (stores : catalog)
    (store_name category_name items_text : pystr) :
  catalog_wf stores ->
  catalog_wf (add_items rt stores store_name category_name items_text).
Proof.
  intros H. unfold add_items.
  destruct (dict_get _ stores) as [cats|] eqn:E; [|exact H].
  pose proof (catalog_wf_get _ H E) as Hc.
  apply catalog_wf_set; [exact H|].
  apply dict_wf_set. destruct (dict_mem _ cats); [exact Hc|].
  now apply dict_wf_set.
Qed.

Lemma remove_item_wf (stores : catalog) (store_name category_name item : pystr) :
  catalog_wf stores ->
  catalog_wf (remove_item stores store_name category_name item).
Proof.
  intros H. unfold remove_item.
  destruct (dict_get _ stores) as [cats|] eqn:E; [|exact H].
  destruct (dict_get _ cats) as [items|]; [|exact H].
  apply catalog_wf_set; [exact H|].
  apply dict_wf_set. eapply catalog_wf_get; eauto.
Qed.

Lemma remove_category_wf (stores : catalog) (store_name category_name : pystr) :
  catalog_wf stores ->
  catalog_wf (remove_category stores store_name category_name).
Proof.
  intros H. unfold remove_category.
  destruct (dict_get _ stores) as [cats|] eqn:E; [|exact H].
  destruct (dict_mem _ cats); [|exact H].
  destruct (1 <? length cats); apply catalog_wf_set; try exact H.
  - apply dict_wf_del. eapply catalog_wf_get; eauto.
  - apply singleton_wf.
Qed.

Lemma remove_store_wf (stores : catalog) (store_name : pystr) :
  catalog_wf stores -> catalog_wf (remove_store stores store_name).
Proof.
  intros H. unfold remove_store.
  destruct (dict_mem _ stores); [now apply catalog_wf_del | exact H].
Qed.

(** ** The operations keep a category in every store *)

Lemma has_category_set (stores : catalog) (k : pystr) (cats : category_map) :
  every_store_has_category stores -> cats <> [] ->
  every_store_has_category (dict_set k cats stores).
Proof.
  intros H Hc.
  now apply (dict_set_Forall (fun v : category_map => v <> [])).
Qed.

Lemma add_store_has_category (stores : catalog) (store_name : pystr) :
  every_store_has_category stores ->
  every_store_has_category (add_store stores store_name).
Proof.
  intros H. unfold add_store.
  destruct (truthy _ && negb _); [|exact H].
  apply has_category_set; [exact H | discriminate].
Qed.

Lemma add_category_has_category (stores : catalog)
    (store_name category_name : pystr) :
  every_store_has_category stores ->
  every_store_has_category (add_category stores store_name category_name).
Proof.
  intros H. unfold add_category.
  destruct (dict_get _ stores) as [cats|]; [|exact H].
  destruct (dict_mem _ cats); [exact H|].
  apply has_category_set; [exact H | apply dict_set_not_nil].
Qed.

Lemma add_items_has_category (rt : runtime) (stores : catalog)
    (store_name category_name items_text : pystr) :
  every_store_has_category stores ->
  every_store_has_category
    (add_items rt stores store_name category_name items_text).
Proof.
  intros H. unfold add_items.
  destruct (dict_get _ stores) as [cats|]; [|exact H].
  apply has_category_set; [exact H | apply dict_set_not_nil].
Qed.

Lemma remove_item_has_category (stores : catalog)
    (store_name category_name item : pystr) :
  every_store_has_category stores ->
  every_store_has_category (remove_item stores store_name category_name item).
Proof.
  intros H. unfold remove_item.
  destruct (dict_get _ stores) as [cats|]; [|exact H].
  destruct (dict_get _ cats) as [items|]; [|exact H].
  apply has_category_set; [exact H | apply dict_set_not_nil].
Qed.

Lemma remove_category_has_category (stores : catalog)
    (store_name category_name : pystr) :
  catalog_wf stores ->
  every_store_has_category stores ->
  every_store_has_category (remove_category stores store_name category_name).
Proof.
  intros Hwf H. unfold remove_category.
  destruct (dict_get _ stores) as [cats|] eqn:E; [|exact H].
  destruct (dict_mem _ cats) eqn:Em; [|exact H].
  destruct (1 <? length cats) eqn:El.
  - apply has_category_set; [exact H|].
    apply Nat.ltb_lt in El.
    pose proof (dict_del_length category_name
                  (catalog_wf_get _ Hwf E) Em) as Hlen.
    intros Hnil. rewrite Hnil in Hlen. simpl in Hlen. lia.
  - apply has_category_set; [exact H | discriminate].
Qed.

Lemma remove_store_has_category (stores : catalog) (store_name : pystr) :
  every_store_has_category stores ->
  every_store_has_category (remove_store stores store_name).
Proof.
  intros H. unfold remove_store.
  destruct (dict_mem _ stores); [|exact H].
  now apply (dict_del_Forall (fun v : category_map => v <> [])).
Qed.

Lemma add_store_new (stores : catalog) (store_name : pystr) :
  truthy (normalize_name store_name) = true ->
  dict_mem (normalize_name store_name) stores = false ->
  dict_get (normalize_name store_name) (add_store stores store_name)
  = Some [(Uncategorized, [])].
Proof.
  intros Ht Hm. unfold add_store. rewrite Ht, Hm. simpl.
  apply dict_get_set_same.
Qed.

Lemma reachable_wf (rt : runtime) (stores : catalog) :
  reachable rt stores -> catalog_wf stores.
Proof.
  induction 1;
    auto using load_stores_wf, add_store_wf, add_category_wf, add_items_wf,
      remove_item_wf, remove_category_wf, remove_store_wf.
Qed.

(** Every catalog a session can hold has a category in every store. *)
Lemma reachable_has_category (rt : runtime) (stores : catalog) :
  reachable rt stores -> every_store_has_category stores.
Proof.
  induction 1 as [file| | | | | stores store category Hr IH |].
  - apply load_stores_has_category.
  - now apply add_store_has_category.
  - now apply add_category_has_category.
  - now apply add_items_has_category.
  - now apply remove_item_has_category.
  - apply remove_category_has_category; [|exact IH].
    eapply reachable_wf; eauto.
  - now apply remove_store_has_category.
Qed.

(** C9 (amended).  Every store of the catalog has at least one
    category: the catalog [load_stores] returns has the property
    (legacy shapes and the default catalog included), each mutating
    operation keeps it, and [add_store] inserts a new store with the
    single category "Uncategorized".  [remove_category] does delete a
    store's last remaining category: the store is then given the single
    empty category "Uncategorized" in its place, so the named category
    is gone unless it is "Uncategorized" itself.  For [remove_category]
    the catalog is a dictionary of dictionaries, that is, keys are
    unique ([catalog_wf], which [load_stores] establishes and every
    operation keeps). *)
Theorem every_store_keeps_a_category :
  (forall rt file, every_store_has_category (load_stores rt file)) /\
  (forall stores name,
      every_store_has_category stores ->
      every_store_has_category (add_store stores name)) /\
  (forall stores name,
      truthy (normalize_name name) = true ->
      dict_mem (normalize_name name) stores = false ->
      dict_get (normalize_name name) (add_store stores name)
      = Some [(Uncategorized, [])]) /\
  (forall stores store category,
      every_store_has_category stores ->
      every_store_has_category (add_category stores store category)) /\
  (forall rt stores store category text,
      every_store_has_category stores ->
      every_store_has_category (add_items rt stores store category text)) /\
  (forall stores store category item,
      every_store_has_category stores ->
      every_store_has_category (remove_item stores store category item)) /\
  (forall stores store category,
      catalog_wf stores ->
      every_store_has_category stores ->
      every_store_has_category (remove_category stores store category)) /\
  (forall stores store category cats,
      dict_get store stores = Some cats ->
      length cats = 1 ->
      dict_mem category cats = true ->
      dict_get store (remove_category stores store category)
      = Some [(Uncategorized, [])]
      /\ (category <> Uncategorized ->
          category_items (remove_category stores store category)
            store category = None)) /\
  (forall stores store,
      every_store_has_category stores ->
      every_store_has_category (remove_store stores store)).
Proof.
  repeat match goal with |- _ /\ _ => split end.
  - apply load_stores_has_category.
  - apply add_store_has_category.
  - apply add_store_new.
  - apply add_category_has_category.
  - apply add_items_has_category.
  - apply remove_item_has_category.
  - apply remove_category_has_category.
  - intros stores store category cats Hget Hlen Hmem.
    assert (dict_get store (remove_category stores store category)
            = Some [(Uncategorized, [])]) as Hnew.
    { unfold remove_category. unfold catalog, category_map, dict in *.
      rewrite Hget, Hmem, Hlen. cbn [Nat.ltb Nat.leb].
      apply dict_get_set_same. }
    split; [exact Hnew|]. intros Hne. unfold category_items.
    unfold catalog, category_map, dict in *.
    rewrite Hnew. apply dict_get_None.
    destruct (dict_mem category [(Uncategorized, @nil pystr)]) eqn:E;
      [|reflexivity].
    apply dict_mem_In in E. destruct E as [E | []]. cbn [fst] in E.
    congruence.
  - apply remove_store_has_category.
Qed.

(** C9 as stated fails in its last clause: the store Corner shop has
    Produce as its only category, and [remove_category] deletes it; the
    store is left with the category "Uncategorized" instead. *)
Lemma remove_category_deletes_last_category :
  let stores : catalog :=
    [(py "Corner shop", [(py "Produce", [py "Apples"; py "Pears"])])] in
  let stores' := remove_category stores (py "Corner shop") (py "Produce") in
  dict_get (py "Corner shop") stores
  = Some [(py "Produce", [py "Apples"; py "Pears"])]
  /\ category_items stores (py "Corner shop") (py "Produce")
     = Some [py "Apples"; py "Pears"]
  /\ category_items stores' (py "Corner shop") (py "Produce") = None
  /\ stores' = [(py "Corner shop", [(Uncategorized, [])])].
Proof. repeat split. Qed.

(** C1 (amended).  When the named store exists and the named category is
    its only category, [remove_category] replaces the store's category
    map by the single category "Uncategorized" with an empty item list:
    the store keeps exactly one category, and the named category is
    still there only if its name is "Uncategorized". *)
Theorem remove_category_only_category
    (stores : catalog) (store_name category_name : pystr)
    (cats : category_map) :
  dict_get store_name stores = Some cats ->
  length cats = 1 ->
  dict_mem category_name cats = true ->
  exists cats',
    dict_get store_name (remove_category stores store_name category_name)
    = Some cats'
    /\ cats' = [(Uncategorized, [])]
    /\ (dict_mem category_name cats' = true <-> category_name = Uncategorized).
Proof.
  intros Hget Hlen Hmem. exists [(Uncategorized, [])].
  split; [|split; [reflexivity|]].
  - unfold remove_category. rewrite Hget, Hmem, Hlen. simpl.
    apply dict_get_set_same.
  - unfold dict_mem. simpl. rewrite orb_false_r. apply str_eqb_eq.
Qed.

Lemma remove_category_only_category_witness :
  exists cats',
    dict_get (py "S") (remove_category one_store_catalog (py "S") (py "Dairy"))
    = Some cats'
    /\ cats' = [(Uncategorized, [])]
    /\ (dict_mem (py "Dairy") cats' = true <-> py "Dairy" = Uncategorized).
Proof.
  apply (@remove_category_only_category one_store_catalog (py "S")
           (py "Dairy") [(py "Dairy", [py "Milk"])]); reflexivity.
Defined.

(** C1 as stated fails: in the catalog with the one store S and its only
    category Dairy, removing Dairy leaves S without a category Dairy
    (the claim has Dairy kept, with an empty item list). *)
Lemma remove_category_drops_the_name :
  dict_get (py "S") one_store_catalog = Some [(py "Dairy", [py "Milk"])]
  /\ dict_get (py "S")
       (remove_category one_store_catalog (py "S") (py "Dairy"))
     = Some [(Uncategorized, [])]
  /\ dict_get (py "Dairy") [(Uncategorized, @nil pystr)] = None.
Proof. repeat split. Qed.

(** C10.  [add_items] changes at most the targeted category of the
    targeted store (both names as the function resolves them): any other
    store maps to the category map it had, an unknown store leaves the
    catalog as it is, and in the targeted store any other category maps
    to the item list it had. *)
Theorem add_items_frame (rt : runtime) (stores : catalog)
    (store_name category_name items_text : pystr) :
  let s := normalize_name store_name in
  let c := or_default (normalize_name category_name) Uncategorized in
  let stores' := add_items rt stores store_name category_name items_text in
  (forall s', s' <> s -> dict_get s' stores' = dict_get s' stores) /\
  (dict_get s stores = None -> stores' = stores) /\
  (forall cats, dict_get s stores = Some cats ->
     exists cats', dict_get s stores' = Some cats' /\
       forall c', c' <> c -> dict_get c' cats' = dict_get c' cats).
Proof.
  intros s c stores'. subst stores'. unfold add_items. fold s. fold c.
  repeat split.
  - intros s' Hne. destruct (dict_get s stores) as [cats|]; [|reflexivity].
    now apply dict_get_set_other.
  - intros ->. reflexivity.
  - intros cats ->. eexists. split; [apply dict_get_set_same|].
    intros c' Hne. rewrite dict_get_set_other by exact Hne.
    destruct (dict_mem c cats); [reflexivity|].
    now apply dict_get_set_other.
Qed.

(** C4.  When the store [add_items] resolves to exists, the targeted
    category afterwards holds a list that is sorted by lower-cased name,
    has no duplicates, and whose members are exactly the items the
    category held before (none if it did not exist) and the non-empty
    normalized pieces of the text split on commas and newlines. *)
Theorem add_items_sorted_union (rt : runtime) (stores : catalog)
    (store_name category_name items_text : pystr) (cats : category_map) :
  let s := normalize_name store_name in
  let c := or_default (normalize_name category_name) Uncategorized in
  dict_get s stores = Some cats ->
  exists cats' items',
    dict_get s (add_items rt stores store_name category_name items_text)
    = Some cats'
    /\ dict_get c cats' = Some items'
    /\ StronglySorted (key_le lower) items'
    /\ NoDup items'
    /\ forall x,
         In x items' <->
         In x (dict_get_or c [] cats)
         \/ (x <> [] /\ exists piece,
               In piece (split_commas_newlines items_text)
               /\ normalize_name piece = x).
Proof.
  intros s c Hget. unfold add_items. fold s. fold c. rewrite Hget.
  do 2 eexists. split; [apply dict_get_set_same|].
  split; [apply dict_get_set_same|].
  split; [apply sorted_sorted|].
  split; [apply sorted_NoDup, set_iter_nodup|].
  intros x. rewrite sorted_In, set_iter_in, in_app_iff, new_items_In.
  destruct (dict_mem c cats) eqn:E; [reflexivity|].
  apply dict_get_None in E.
  unfold dict_get_or. rewrite dict_get_set_same, E. reflexivity.
Qed.

Lemma add_items_sorted_union_witness :
  let stores : catalog := [(py "S", [(py "Dairy", [py "banana"; py "Milk"])])] in
  let text := py "cherry, Apple" ++ nl ++ py " ,,banana,  Bread " in
  add_items insertion_order_runtime stores (py " S ") (py "Dairy") text
  = [(py "S", [(py "Dairy", [py "Apple"; py "banana"; py "Bread";
                             py "cherry"; py "Milk"])])]
  /\ exists cats' items',
       dict_get (py "S")
         (add_items insertion_order_runtime stores (py " S ") (py "Dairy")
                    text)
       = Some cats'
       /\ dict_get (py "Dairy") cats' = Some items'
       /\ StronglySorted (key_le lower) items'
       /\ NoDup items'
       /\ forall x,
            In x items' <->
            In x [py "banana"; py "Milk"]
            \/ (x <> [] /\ exists piece,
                  In piece (split_commas_newlines text)
                  /\ normalize_name piece = x).
Proof.
  split; [vm_compute; reflexivity|].
  apply (@add_items_sorted_union insertion_order_runtime
           [(py "S", [(py "Dairy", [py "banana"; py "Milk"])])]
           (py " S ") (py "Dairy")
           (py "cherry, Apple" ++ nl ++ py " ,,banana,  Bread ")
           [(py "Dairy", [py "banana"; py "Milk"])]).
  reflexivity.
Defined.

(** ** Loading a document with names that differ by case only *)

(** A list with the members of [[a; b; c]] and no duplicates is one of
    the arrangements of the three. *)
Lemma three_members (a b c : pystr) (l : list pystr) :
  NoDup [a; b; c] -> NoDup l -> (forall x, In x l <-> In x [a; b; c]) ->
  l = [a; b; c] \/ l = [a; c; b] \/ l = [b; a; c] \/ l = [b; c; a]
  \/ l = [c; a; b] \/ l = [c; b; a].
Proof.
  intros Habc Hl Hin.
  assert (Permutation l [a; b; c]) as Hp by now apply NoDup_Permutation.
  pose proof (Permutation_length Hp) as Hlen.
  destruct l as [|x [|y [|z [|? ?]]]]; try discriminate.
  assert (In x [a; b; c]) as Hx by (apply Hin; simpl; auto).
  assert (In y [a; b; c]) as Hy by (apply Hin; simpl; auto).
  assert (In z [a; b; c]) as Hz by (apply Hin; simpl; auto).
  inversion Hl as [|? ? Hxn Hl']; subst.
  inversion Hl' as [|? ? Hyn _]; subst.
  simpl in Hx, Hy, Hz, Hxn, Hyn.
  destruct Hx as [<-|[<-|[<-|[]]]], Hy as [<-|[<-|[<-|[]]]],
           Hz as [<-|[<-|[<-|[]]]]; tauto.
Qed.

Lemma load_dairy_document (rt : runtime) :
  exists items,
    load_stores rt (Some dairy_document)
    = [(py "Costco", [(py "Dairy", items)])]
    /\ (items = [py "Eggs"; py "Milk"; py "milk"]
        \/ items = [py "Eggs"; py "milk"; py "Milk"]).
Proof.
  exists (sorted lower (set_iter rt [py "Milk"; py "milk"; py "Eggs"])).
  split; [reflexivity|].
  destruct (@three_members (py "Milk") (py "milk") (py "Eggs")
              (set_iter rt [py "Milk"; py "milk"; py "Eggs"]))
    as [H|[H|[H|[H|[H|H]]]]];
    try (rewrite H; vm_compute; auto; fail).
  - apply concrete_NoDup. vm_compute. reflexivity.
  - apply set_iter_nodup.
  - apply set_iter_in.
Qed.

(** C2 (amended).  Loading the document yields the one store Costco with
    the one category Dairy, which holds the three items Eggs, Milk and
    milk: names are normalized, duplicates are dropped by exact
    comparison (Milk and milk both stay), and the list is sorted by
    lower-cased name, so Eggs comes first and Milk and milk, whose keys
    are equal, follow in the order the set yields them. *)
Theorem load_keeps_names_differing_by_case (rt : runtime) :
  exists items,
    load_stores rt (Some dairy_document)
    = [(py "Costco", [(py "Dairy", items)])]
    /\ (items = [py "Eggs"; py "Milk"; py "milk"]
        \/ items = [py "Eggs"; py "milk"; py "Milk"]).
Proof. apply load_dairy_document. Qed.

(** C2 as stated fails: under no iteration order of sets does the loaded
    Dairy category hold exactly Eggs and Milk. *)
Lemma load_dairy_is_not_two_items :
  ~ exists rt : runtime,
      category_items (load_stores rt (Some dairy_document))
        (py "Costco") (py "Dairy")
      = Some [py "Eggs"; py "Milk"].
Proof.
  intros [rt H]. destruct (load_dairy_document rt) as [items [E Hi]].
  rewrite E in H. vm_compute in H.
  destruct Hi as [-> | ->]; discriminate.
Qed.

(** Both orders of the two names occur, each under one of the runtimes. *)
Lemma load_dairy_both_orders :
  category_items (load_stores insertion_order_runtime (Some dairy_document))
    (py "Costco") (py "Dairy")
  = Some [py "Eggs"; py "Milk"; py "milk"]
  /\ category_items (load_stores reverse_order_runtime (Some dairy_document))
       (py "Costco") (py "Dairy")
     = Some [py "Eggs"; py "milk"; py "Milk"].
Proof. split; vm_compute; reflexivity. Qed.

(* ================================================================== *)
(** * The visit order *)
(* ================================================================== *)

Lemma visit_spec (st : list pystr * list pystr) (s : pystr) :
  visit_inv st ->
  visit_inv (visit st s)
  /\ forall x, In x (fst (visit st s)) <-> In x (fst st) \/ x = s.
Proof.
  intros [Hnd Hseen]. unfold visit.
  destruct (mem s (snd st)) eqn:E.
  - split; [now split|]. intros x. split; [auto|].
    intros [H| ->]; [exact H|]. apply Hseen, mem_In, E.
  - apply mem_not_In in E. cbn [fst snd]. split; [split|].
    + apply NoDup_app; [exact Hnd | repeat constructor; simpl; tauto|].
      intros x Hx [<-|[]]. apply E, Hseen, Hx.
    + intros x. simpl. rewrite in_app_iff, Hseen. simpl.
      split; intros [H|H]; auto; destruct H as [H|[]]; auto.
    + intros x. rewrite in_app_iff. simpl.
      split; intros [H|H]; auto; destruct H as [H|[]]; auto.
Qed.

Lemma fold_visit_spec (l : list pystr) (st : list pystr * list pystr) :
  visit_inv st ->
  visit_inv (fold_left visit l st)
  /\ forall x, In x (fst (fold_left visit l st)) <-> In x (fst st) \/ In x l.
Proof.
  revert st. induction l as [|s l IH]; intros st Hst; cbn [fold_left].
  - split; [exact Hst|]. intros x. simpl. tauto.
  - destruct (visit_spec s Hst) as [Hinv Hin].
    destruct (IH _ Hinv) as [Hinv' Hin']. split; [exact Hinv'|].
    intros x. rewrite Hin', Hin. simpl. intuition.
Qed.

Lemma fold_visit_guarded (keep : pystr -> bool) (l : list pystr)
    (st : list pystr * list pystr) :
  fold_left (fun st s => if keep s then visit st s else st) l st
  = fold_left visit (filter keep l) st.
Proof.
  revert st. induction l as [|s l IH]; intros st; simpl; [reflexivity|].
  destruct (keep s); simpl; apply IH.
Qed.

Lemma visit_inv_start : visit_inv ([], []).
Proof. split; [constructor | tauto]. Qed.

Lemma parse_store_order_text_spec (V : Type) (text : pystr) (stores : dict V) :
  NoDup (parse_store_order_text text stores)
  /\ forall x, In x (parse_store_order_text text stores)
               <-> In x (dict_keys stores).
Proof.
  unfold parse_store_order_text.
  set (lines := filter _ _).
  destruct (fold_visit_spec lines visit_inv_start) as [H1 Hin1].
  destruct (fold_visit_spec (sorted lower (dict_keys stores)) H1)
    as [[Hnd _] Hin2].
  split; [exact Hnd|].
  intros x. rewrite Hin2, Hin1, sorted_In. simpl.
  split; [|auto]. intros [[[]|H]|H]; [|exact H].
  apply filter_In in H. destruct H as [_ H].
  apply andb_true_iff in H. now apply dict_mem_In.
Qed.

(** C5.  For every text and every catalog, what [parse_store_order_text]
    returns is a permutation of the catalog's store names: it has every
    store name, each once, and nothing else, whatever lines the text
    holds. *)
Theorem parse_store_order_text_permutation
    (V : Type) (text : pystr) (stores : dict V) :
  dict_wf stores ->
  Permutation (parse_store_order_text text stores) (dict_keys stores)
  /\ NoDup (parse_store_order_text text stores)
  /\ forall x, In x (parse_store_order_text text stores)
               <-> In x (dict_keys stores).
Proof.
  intros Hwf.
  destruct (parse_store_order_text_spec text stores) as [Hnd Hin].
  split; [|split; assumption].
  now apply NoDup_Permutation.
Qed.

Lemma parse_store_order_text_permutation_witness :
  let text := py "Walmart" ++ [10%N] ++ py "no such store" ++ [10%N]
              ++ py "  Walmart " ++ [10%N] ++ py "Costco" in
  Permutation (parse_store_order_text text DEFAULT_STORES)
              (dict_keys DEFAULT_STORES)
  /\ NoDup (parse_store_order_text text DEFAULT_STORES)
  /\ forall x, In x (parse_store_order_text text DEFAULT_STORES)
               <-> In x (dict_keys DEFAULT_STORES).
Proof.
  intros text.
  apply (@parse_store_order_text_permutation _ text DEFAULT_STORES).
  apply concrete_NoDup. vm_compute. reflexivity.
Defined.

Lemma append_missing (ks order : list pystr) :
  NoDup ks ->
  fold_left (fun order s => if mem s order then order else order ++ [s])
            ks order
  = order ++ filter (fun s => negb (mem s order)) ks.
Proof.
  revert order. induction ks as [|k ks IH]; intros order Hnd; simpl.
  - now rewrite app_nil_r.
  - inversion Hnd as [|? ? Hk Hnd']; subst.
    rewrite IH by exact Hnd'.
    destruct (mem k order) eqn:E; simpl; [reflexivity|].
    rewrite <- app_assoc. simpl. do 2 f_equal.
    apply filter_ext_in. intros x Hx. rewrite mem_app. simpl.
    rewrite orb_false_r.
    destruct (str_eqb x k) eqn:F; [|now rewrite orb_false_r].
    apply str_eqb_eq in F. subst. contradiction.
Qed.

Lemma load_store_order_seeded (rt : runtime) (file : option json)
    (stores : catalog) :
  order_document_unusable file -> dict_wf stores ->
  let kept := filter (fun s => dict_mem s stores) DEFAULT_STORE_ORDER in
  load_store_order rt file stores
  = kept ++ filter (fun s => negb (mem s kept))
                   (sorted lower (dict_keys stores)).
Proof.
  intros Hfile Hwf kept. unfold load_store_order.
  assert (match file with
          | Some (JObject meta) =>
              match dict_get (py "store_order") meta with
              | Some (JArray l) =>
                  map (fun x => normalize_name (py_str rt x))
                    (filter (fun x => truthy (normalize_name (py_str rt x))) l)
              | _ => []
              end
          | _ => []
          end = []) as ->.
  { destruct file as [[s|t|l|meta]|]; try reflexivity.
    simpl in Hfile.
    destruct (dict_get (py "store_order") meta) as [[s|t|l|d]|];
      try reflexivity. contradiction. }
  apply append_missing, sorted_NoDup, Hwf.
Qed.

(** C6.  When the order document is absent, unreadable or not of the
    expected shape, [load_store_order] starts from the default sequence
    Costco, Walmart, Indian Store, Marianos, keeps of it the names that
    are stores of the catalog, and appends the remaining stores of the
    catalog in the order of their lower-cased names.  With the stores
    Zed and Alpha the result is Alpha, Zed; with the stores Zed,
    Walmart, alpha and Costco it is Costco, Walmart (the default
    sequence first, in its own order), then alpha, Zed (upper and lower
    case sorted together). *)
Theorem load_store_order_unusable_document (rt : runtime)
    (file : option json) (stores : catalog) :
  order_document_unusable file -> dict_wf stores ->
  DEFAULT_STORE_ORDER
  = [py "Costco"; py "Walmart"; py "Indian Store"; py "Marianos"]
  /\ (let kept := filter (fun s => dict_mem s stores) DEFAULT_STORE_ORDER in
      load_store_order rt file stores
      = kept ++ filter (fun s => negb (mem s kept))
                       (sorted lower (dict_keys stores)))
  /\ (forall zed alpha : category_map,
        load_store_order rt file [(py "Zed", zed); (py "Alpha", alpha)]
        = [py "Alpha"; py "Zed"])
  /\ (forall zed walmart alpha costco : category_map,
        load_store_order rt file
          [(py "Zed", zed); (py "Walmart", walmart); (py "alpha", alpha);
           (py "Costco", costco)]
        = [py "Costco"; py "Walmart"; py "alpha"; py "Zed"]).
Proof.
  intros Hfile Hwf. split; [reflexivity|].
  split; [now apply load_store_order_seeded|]. split.
  - intros zed alpha.
    rewrite load_store_order_seeded; [reflexivity|exact Hfile|].
    apply concrete_NoDup. vm_compute. reflexivity.
  - intros zed walmart alpha costco.
    rewrite load_store_order_seeded; [reflexivity|exact Hfile|].
    apply concrete_NoDup. vm_compute. reflexivity.
Qed.

Lemma load_store_order_unusable_document_witness :
  load_store_order insertion_order_runtime (Some (JScalar (py "None")))
    [(py "indian store", []); (py "Zed", []); (py "Marianos", []);
     (py "apple", []); (py "Costco", []); (py "Bakery", [])]
  = [py "Costco"; py "Marianos"; py "apple"; py "Bakery";
     py "indian store"; py "Zed"]
  /\ DEFAULT_STORE_ORDER
     = [py "Costco"; py "Walmart"; py "Indian Store"; py "Marianos"]
  /\ (let kept := filter (fun s => dict_mem s DEFAULT_STORES)
                         DEFAULT_STORE_ORDER in
      load_store_order insertion_order_runtime (Some (JScalar (py "None")))
        DEFAULT_STORES
      = kept ++ filter (fun s => negb (mem s kept))
                       (sorted lower (dict_keys DEFAULT_STORES)))
  /\ (forall zed alpha : category_map,
        load_store_order insertion_order_runtime (Some (JScalar (py "None")))
          [(py "Zed", zed); (py "Alpha", alpha)]
        = [py "Alpha"; py "Zed"])
  /\ (forall zed walmart alpha costco : category_map,
        load_store_order insertion_order_runtime (Some (JScalar (py "None")))
          [(py "Zed", zed); (py "Walmart", walmart); (py "alpha", alpha);
           (py "Costco", costco)]
        = [py "Costco"; py "Walmart"; py "alpha"; py "Zed"]).
Proof.
  split; [vm_compute; reflexivity|].
  apply (@load_store_order_unusable_document insertion_order_runtime
           (Some (JScalar (py "None"))) DEFAULT_STORES).
  - exact I.
  - apply concrete_NoDup. vm_compute. reflexivity.
Defined.

(* ================================================================== *)
(** * Selection reconciliation *)
(* ================================================================== *)

Section Pruning.

Variable V : Type.
Implicit Types (d : dict V) (keep : pystr -> bool).

Lemma filter_twice (A : Type) (f g : A -> bool) (l : list A) :
  filter f (filter g l) = filter (fun x => g x && f x) l.
Proof.
  induction l as [|x l IH]; simpl; [reflexivity|].
  destruct (g x); simpl; [destruct (f x)|]; now rewrite IH.
Qed.

Lemma dict_mem_get_bool k d :
  dict_mem k d = match dict_get k d with Some _ => true | None => false end.
Proof.
  destruct (dict_get k d) eqn:E.
  - eapply dict_get_Some_mem; eauto.
  - now apply dict_get_None.
Qed.

Lemma dict_get_filter_keys keep k d :
  dict_get k (filter (fun kv => keep (fst kv)) d)
  = if keep k then dict_get k d else None.
Proof.
  induction d as [|[k0 v0] d IH]; simpl; [now destruct (keep k)|].
  destruct (keep k0) eqn:E0; simpl; rewrite IH;
    destruct (str_eqb k k0) eqn:E; try reflexivity;
    apply str_eqb_eq in E; subst k0; now rewrite E0.
Qed.

(** Deleting, key by key, the keys that [keep] rejects. *)
Lemma prune_fold keep (ks : list pystr) d :
  fold_left (fun acc k => if keep k then acc else dict_del k acc) ks d
  = filter (fun kv => negb (mem (fst kv) ks) || keep (fst kv)) d.
Proof.
  revert d. induction ks as [|k ks IH]; intros d; cbn [fold_left].
  - simpl. induction d as [|x d IHd]; simpl; [reflexivity|]. now f_equal.
  - rewrite IH. destruct (keep k) eqn:E.
    + apply filter_ext. intros [k0 v0]. simpl.
      destruct (str_eqb k0 k) eqn:F; [|reflexivity].
      apply str_eqb_eq in F. subst k0. rewrite E. simpl.
      now rewrite orb_true_r.
    + unfold dict_del. rewrite filter_twice.
      apply filter_ext. intros [k0 v0]. simpl.
      rewrite (str_eqb_sym k k0).
      destruct (str_eqb k0 k) eqn:F; simpl; [|reflexivity].
      apply str_eqb_eq in F. subst k0. now rewrite E.
Qed.

Lemma prune_keys keep d :
  fold_left (fun acc k => if keep k then acc else dict_del k acc)
            (dict_keys d) d
  = filter (fun kv => keep (fst kv)) d.
Proof.
  rewrite prune_fold. apply filter_ext_in. intros [k0 v0] Hin. simpl.
  assert (mem k0 (dict_keys d) = true) as ->; [|reflexivity].
  apply mem_In, in_map_iff. now exists (k0, v0).
Qed.

Lemma setdefault_fold (v0 : V) (ks : list pystr) k d :
  dict_get k (fold_left (fun acc c => dict_setdefault c v0 acc) ks d)
  = match dict_get k d with
    | Some v => Some v
    | None => if mem k ks then Some v0 else None
    end.
Proof.
  revert d. induction ks as [|c ks IH]; intros d; cbn [fold_left].
  - simpl. now destruct (dict_get k d).
  - rewrite IH. destruct (dict_get k d) as [v|] eqn:E.
    + now rewrite (dict_get_setdefault_present c k v0 d E).
    + simpl. destruct (str_eqb k c) eqn:F.
      * apply str_eqb_eq in F. subst c. unfold dict_setdefault.
        apply dict_get_None in E. rewrite E.
        now rewrite dict_get_set_same.
      * simpl. apply str_eqb_neq in F.
        rewrite dict_get_setdefault_other by exact F. now rewrite E.
Qed.

Lemma dict_get_or_setdefault (v0 : V) k d :
  dict_get_or k v0 (dict_setdefault k v0 d) = dict_get_or k v0 d.
Proof.
  unfold dict_setdefault, dict_get_or.
  destruct (dict_mem k d) eqn:F; [reflexivity|].
  rewrite dict_get_set_same. apply dict_get_None in F. now rewrite F.
Qed.

End Pruning.

Lemma drop_stale_stores_get (stores : catalog) (selected : selection)
    (s : pystr) :
  dict_get s (drop_stale_stores stores selected)
  = if dict_mem s stores then dict_get s selected else None.
Proof.
  unfold drop_stale_stores.
  rewrite (prune_keys (fun k => dict_mem k stores)).
  apply (dict_get_filter_keys (fun k => dict_mem k stores)).
Qed.

Lemma align_store_other (stores : catalog) (sel : selection)
    (store s : pystr) :
  s <> store -> dict_get s (align_store stores sel store) = dict_get s sel.
Proof.
  intros H. unfold align_store.
  rewrite dict_get_set_other by exact H.
  now apply dict_get_setdefault_other.
Qed.

Lemma align_store_mem (stores : catalog) (sel : selection) (store s : pystr) :
  dict_mem s (align_store stores sel store)
  = str_eqb s store || dict_mem s sel.
Proof.
  unfold align_store. rewrite dict_mem_set, dict_mem_setdefault.
  now destruct (str_eqb s store).
Qed.

Lemma align_store_same (stores : catalog) (sel : selection) (store : pystr) :
  exists inner,
    dict_get store (align_store stores sel store) = Some inner
    /\ forall c, dict_get c inner
                 = if dict_mem c (dict_get_or store [] stores)
                   then Some (chosen sel store c) else None.
Proof.
  unfold align_store. eexists. split; [apply dict_get_set_same|].
  intros c.
  rewrite (prune_keys (fun k => dict_mem k (dict_get_or store [] stores))).
  rewrite (dict_get_filter_keys
             (fun k => dict_mem k (dict_get_or store [] stores))).
  destruct (dict_mem c (dict_get_or store [] stores)) eqn:E; [|reflexivity].
  rewrite setdefault_fold. unfold dict_mem in E. rewrite E.
  rewrite dict_get_or_setdefault.
  unfold chosen. generalize (dict_get_or store [] sel). intros inner.
  unfold dict_get_or. now destruct (dict_get (V:=list pystr) c inner).
Qed.

(** Type abbreviations are unfolded before rewriting under a match. *)
Ltac unalias := unfold selection, catalog, category_map, pyset, dict in *.

Lemma chosen_ext (sel sel' : selection) (s c : pystr) :
  dict_get s sel = dict_get s sel' -> chosen sel s c = chosen sel' s c.
Proof. unfold chosen, dict_get_or. unalias. now intros ->. Qed.

Lemma chosen_get (sel : selection) (s c : pystr) (inner : dict pyset) :
  dict_get s sel = Some inner -> chosen sel s c = dict_get_or c [] inner.
Proof. unfold chosen. unfold dict_get_or at 2. unalias. now intros ->. Qed.

Lemma align_store_settles (stores : catalog) (selected sel : selection)
    (s : pystr) :
  pending selected s sel \/ settled stores selected s sel ->
  settled stores selected s (align_store stores sel s).
Proof.
  intros H. destruct (align_store_same stores sel s) as [inner [Hg Hc]].
  exists inner. split; [exact Hg|]. intros c. rewrite Hc.
  destruct (dict_mem c (dict_get_or s [] stores)) eqn:E; [|reflexivity].
  f_equal. destruct H as [H|[inner0 [Hg0 Hc0]]].
  - now apply chosen_ext.
  - rewrite (@chosen_get sel s c inner0 Hg0). unfold dict_get_or.
    unalias. now rewrite Hc0, E.
Qed.

Lemma align_store_keeps_settled (stores : catalog) (selected sel : selection)
    (s k : pystr) :
  settled stores selected s sel ->
  settled stores selected s (align_store stores sel k).
Proof.
  intros H. destruct (str_eq_dec k s) as [->|Hne].
  - apply align_store_settles. now right.
  - destruct H as [inner [Hg Hc]]. exists inner. split; [|exact Hc].
    rewrite align_store_other; [exact Hg | congruence].
Qed.

Lemma fold_align_keeps_settled (stores : catalog) (selected : selection)
    (s : pystr) (ks : list pystr) (sel : selection) :
  settled stores selected s sel ->
  settled stores selected s (fold_left (align_store stores) ks sel).
Proof.
  revert sel. induction ks as [|k ks IH]; intros sel H; cbn [fold_left];
    [exact H|].
  apply IH. now apply align_store_keeps_settled.
Qed.

Lemma fold_align_settles (stores : catalog) (selected : selection)
    (s : pystr) (ks : list pystr) (sel : selection) :
  pending selected s sel \/ settled stores selected s sel ->
  In s ks ->
  settled stores selected s (fold_left (align_store stores) ks sel).
Proof.
  revert sel. induction ks as [|k ks IH]; intros sel H Hin; [destruct Hin|].
  cbn [fold_left]. destruct (str_eq_dec k s) as [->|Hne].
  - apply fold_align_keeps_settled. now apply align_store_settles.
  - destruct Hin as [Hk|Hin]; [contradiction|].
    apply IH; [|exact Hin].
    destruct H as [H|H].
    + left. unfold pending in *. rewrite align_store_other; [exact H|].
      congruence.
    + right. now apply align_store_keeps_settled.
Qed.

Lemma fold_align_mem (stores : catalog) (s : pystr) (ks : list pystr)
    (sel : selection) :
  dict_mem s (fold_left (align_store stores) ks sel)
  = mem s ks || dict_mem s sel.
Proof.
  revert sel. induction ks as [|k ks IH]; intros sel; cbn [fold_left];
    [reflexivity|].
  rewrite IH, align_store_mem. simpl.
  destruct (str_eqb s k), (mem s ks); reflexivity.
Qed.

Lemma reconcile_stores (stores : catalog) (selected : selection) (s : pystr) :
  dict_mem s (reconcile stores selected) = dict_mem s stores.
Proof.
  unfold reconcile. rewrite fold_align_mem.
  rewrite (dict_mem_get_bool s (drop_stale_stores stores selected)).
  rewrite drop_stale_stores_get. unfold dict_mem at 1.
  fold (dict_mem s stores). now destruct (dict_mem s stores).
Qed.

Lemma reconcile_settled (stores : catalog) (selected : selection)
    (s : pystr) (cats : category_map) :
  dict_get s stores = Some cats ->
  settled stores selected s (reconcile stores selected).
Proof.
  intros Hg. pose proof (dict_get_Some_mem _ _ Hg) as Hm.
  unfold reconcile. apply fold_align_settles.
  - left. unfold pending. now rewrite drop_stale_stores_get, Hm.
  - now apply dict_mem_In.
Qed.

(** The reconciliation block on its own: afterwards the selection has
    exactly the stores of the catalog, and for each store exactly the
    categories the catalog gives it.  The set chosen under a store and a
    category of the catalog is the set chosen before the step (empty
    where the step adds the entry); item names are discarded by the
    handlers that remove them from the catalog. *)
Lemma reconcile_aligns_stores_and_categories
    (stores : catalog) (selected : selection) :
  (forall s, dict_mem s (reconcile stores selected) = dict_mem s stores) /\
  (forall s cats, dict_get s stores = Some cats ->
     exists inner,
       dict_get s (reconcile stores selected) = Some inner
       /\ (forall c, dict_mem c inner = dict_mem c cats)
       /\ (forall c, dict_mem c cats = true ->
             dict_get c inner = Some (chosen selected s c))) /\
  (forall s cats c, dict_get s stores = Some cats ->
     dict_mem c cats = true ->
     chosen (reconcile stores selected) s c = chosen selected s c).
Proof.
  assert (forall s cats, dict_get s stores = Some cats ->
            exists inner,
              dict_get s (reconcile stores selected) = Some inner
              /\ forall c, dict_get c inner
                           = if dict_mem c cats
                             then Some (chosen selected s c) else None)
    as Hsettled.
  { intros s cats Hg.
    destruct (@reconcile_settled stores selected s cats Hg)
      as [inner [Hi Hc]].
    assert (dict_get_or s [] stores = cats) as Hcats
      by (unfold dict_get_or; unalias; now rewrite Hg).
    rewrite Hcats in Hc. now exists inner. }
  split; [apply reconcile_stores|]. split.
  - intros s cats Hg. destruct (Hsettled s cats Hg) as [inner [Hi Hc]].
    exists inner. split; [exact Hi|]. split.
    + intros c. rewrite (dict_mem_get_bool c inner), Hc.
      now destruct (dict_mem c cats).
    + intros c Hm. now rewrite Hc, Hm.
  - intros s cats c Hg Hm. destruct (Hsettled s cats Hg) as [inner [Hi Hc]].
    rewrite (@chosen_get (reconcile stores selected) s c inner Hi).
    unfold dict_get_or. unalias. now rewrite Hc, Hm.
Qed.

(* ================================================================== *)
(** * The list formatter *)
(* ================================================================== *)

Lemma ordered_stores_spec (V : Type) (store_order : list pystr)
    (stores : dict V) :
  NoDup (ordered_stores store_order stores)
  /\ forall s, In s (ordered_stores store_order stores)
               <-> In s (dict_keys stores).
Proof.
  unfold ordered_stores.
  rewrite (fold_visit_guarded (fun s => dict_mem s stores)).
  set (listed := filter _ store_order).
  destruct (fold_visit_spec listed visit_inv_start) as [H1 Hin1].
  destruct (fold_visit_spec (sorted lower (dict_keys stores)) H1)
    as [[Hnd _] Hin2].
  split; [exact Hnd|].
  intros s. rewrite Hin2, Hin1, sorted_In. simpl.
  split; [|auto]. intros [[[]|H]|H]; [|exact H].
  apply filter_In in H. now apply dict_mem_In.
Qed.

Lemma fold_left_blocks (A : Type) (f : A -> list pystr) (l : list A)
    (init : list pystr) :
  fold_left (fun lines x => lines ++ f x) l init = init ++ flat_map f l.
Proof.
  revert init. induction l as [|x l IH]; intros init; simpl.
  - now rewrite app_nil_r.
  - now rewrite IH, app_assoc.
Qed.

Lemma format_lines_blocks (rt : runtime) (today : pystr) (selected : catalog)
    (store_order : list pystr) :
  format_lines rt today selected store_order
  = (py "Shopping List - " ++ today) :: []
      :: flat_map (store_block rt selected)
                  (ordered_stores store_order selected).
Proof. unfold format_lines. now rewrite fold_left_blocks. Qed.

Lemma store_block_shape (rt : runtime) (selected : catalog) (store : pystr) :
  (store_items rt (dict_get_or store [] selected) = []
   /\ store_block rt selected store = [])
  \/ (store_items rt (dict_get_or store [] selected) <> []
      /\ store_block rt selected store
         = header_line store :: underline_line store
             :: map bullet_line
                    (store_items rt (dict_get_or store [] selected))
             ++ [[]]).
Proof.
  unfold store_block.
  destruct (store_items rt (dict_get_or store [] selected)) as [|it its];
    [left; now split|].
  right. split; [discriminate | reflexivity].
Qed.

Lemma header_line_inj (a b : pystr) : header_line a = header_line b -> a = b.
Proof.
  unfold header_line. intros H. apply app_inv_head in H.
  now apply app_inv_tail in H.
Qed.

Lemma underline_line_head (store : pystr) :
  exists rest, underline_line store = 8218%N :: rest.
Proof.
  unfold underline_line.
  destruct (underline_length store) as [|n] eqn:E;
    [unfold underline_length in E; lia|].
  simpl. eexists. reflexivity.
Qed.

Lemma header_in_block (rt : runtime) (selected : catalog) (store st : pystr) :
  In (header_line store) (store_block rt selected st) ->
  st = store /\ store_items rt (dict_get_or store [] selected) <> [].
Proof.
  destruct (store_block_shape rt selected st) as [[_ ->]|[Hne ->]];
    [intros []|].
  intros [H|[H|H]].
  - apply header_line_inj in H. subst. now split.
  - destruct (underline_line_head st) as [rest Hr]. rewrite Hr in H.
    discriminate.
  - apply in_app_iff in H. destruct H as [H|[H|[]]].
    + apply in_map_iff in H. destruct H as [it [H _]]. discriminate.
    + discriminate.
Qed.

Lemma store_items_In (rt : runtime) (cats : category_map)
    (cat : pystr) (items : list pystr) (x : pystr) :
  dict_get cat cats = Some items -> In x items ->
  truthy (normalize_name x) = true ->
  In (normalize_name x) (store_items rt cats).
Proof.
  intros Hg Hx Ht. unfold store_items.
  rewrite sorted_In, set_iter_in. apply in_map, filter_In.
  split; [|exact Ht]. apply in_flat_map. exists cat. split.
  - apply dict_mem_In. eapply dict_get_Some_mem; eauto.
  - unfold dict_get_or. unalias. now rewrite Hg.
Qed.

(** ** From the lines to the text *)

Lemma split_ws_aux_words (cur s : pystr) :
  Forall (fun c => isspace c = false) cur ->
  Forall (fun w => w <> [] /\ Forall (fun c => isspace c = false) w)
         (split_ws_aux cur s).
Proof.
  revert cur. induction s as [|c s IH]; intros cur Hcur; simpl.
  - destruct cur as [|c0 cur]; simpl; [constructor|].
    constructor; [|constructor]. split.
    + intros H. apply (f_equal (@length N)) in H.
      rewrite length_app in H. simpl in H. lia.
    + apply Forall_rev in Hcur. exact Hcur.
  - destruct (isspace c) eqn:E.
    + destruct cur as [|c0 cur]; simpl; [apply IH; constructor|].
      constructor; [|apply IH; constructor]. split.
      * intros H. apply (f_equal (@length N)) in H.
        rewrite length_app in H. simpl in H. lia.
      * apply Forall_rev in Hcur. exact Hcur.
    + apply IH. now constructor.
Qed.

Lemma join_words_end (sep : pystr) (ws : list pystr) :
  ws <> [] ->
  Forall (fun w => w <> [] /\ Forall (fun c => isspace c = false) w) ws ->
  exists pre c, join sep ws = pre ++ [c] /\ isspace c = false.
Proof.
  induction ws as [|w ws IH]; [congruence|].
  intros _ Hall. inversion Hall as [|? ? [Hw Hcs] Hrest]; subst.
  destruct ws as [|w2 ws].
  - simpl. exists (removelast w), (last w 0%N). split.
    + now apply app_removelast_last.
    + rewrite Forall_forall in Hcs. apply Hcs.
      destruct w; [congruence|]. apply (@exists_last _ (n :: w)) in Hw.
      destruct Hw as [p [c Hw]]. rewrite Hw, last_last.
      apply in_or_app. right. now left.
  - destruct (IH ltac:(discriminate) Hrest) as [pre [c [Hj Hc]]].
    exists (w ++ sep ++ pre), c. split; [|exact Hc].
    change (join sep (w :: w2 :: ws)) with (w ++ sep ++ join sep (w2 :: ws)).
    rewrite Hj. now rewrite <- !app_assoc.
Qed.

(** A normalized name that is not empty ends with a code point that is
    not whitespace. *)
Lemma normalize_name_end (x : pystr) :
  truthy (normalize_name x) = true ->
  exists pre c, normalize_name x = pre ++ [c] /\ isspace c = false.
Proof.
  unfold normalize_name, split_ws. intros Ht.
  apply join_words_end.
  - intros H. rewrite H in Ht. discriminate.
  - apply split_ws_aux_words. constructor.
Qed.

Lemma lstrip_spaces (sp : pystr) (c : N) (r : pystr) :
  Forall (fun c => isspace c = true) sp -> isspace c = false ->
  lstrip (sp ++ c :: r) = c :: r.
Proof.
  intros Hsp Hc. induction Hsp as [|c0 sp H0 Hsp IH]; simpl.
  - now rewrite Hc.
  - now rewrite H0.
Qed.

Lemma strip_clean (t sp : pystr) (c1 c2 : N) (t1 p : pystr) :
  t = c1 :: t1 -> isspace c1 = false ->
  t = p ++ [c2] -> isspace c2 = false ->
  Forall (fun c => isspace c = true) sp ->
  strip (t ++ sp) = t.
Proof.
  intros H1 Hc1 H2 Hc2 Hsp. unfold strip, rstrip.
  assert (lstrip (t ++ sp) = t ++ sp) as ->
    by (rewrite H1; simpl; now rewrite Hc1).
  rewrite rev_app_distr. rewrite H2 at 1. rewrite rev_app_distr. simpl.
  rewrite lstrip_spaces; [|now apply Forall_rev | exact Hc2].
  simpl. rewrite rev_involutive. symmetry. exact H2.
Qed.

Lemma join_blank_last (sep : pystr) (l : list pystr) :
  l <> [] -> join sep (l ++ [[]]) = join sep l ++ sep.
Proof.
  induction l as [|x l IH]; [congruence|]. intros _.
  destruct l as [|y l].
  - simpl. now rewrite app_nil_r.
  - change (join sep ((x :: y :: l) ++ [[]]))
      with (x ++ sep ++ join sep ((y :: l) ++ [[]])).
    rewrite IH by discriminate.
    change (join sep (x :: y :: l)) with (x ++ sep ++ join sep (y :: l)).
    now rewrite <- !app_assoc.
Qed.

Lemma join_last (sep : pystr) (l : list pystr) (b : pystr) :
  exists p, join sep (l ++ [b]) = p ++ b.
Proof.
  induction l as [|x l [p IH]].
  - now exists [].
  - destruct l as [|y l].
    + exists (x ++ sep). simpl. now rewrite <- app_assoc.
    + exists (x ++ sep ++ p).
      change (join sep ((x :: y :: l) ++ [b]))
        with (x ++ sep ++ join sep ((y :: l) ++ [b])).
      rewrite IH. now rewrite <- !app_assoc.
Qed.

Lemma store_items_normalized (rt : runtime) (cats : category_map)
    (it : pystr) :
  In it (store_items rt cats) ->
  exists pre c, it = pre ++ [c] /\ isspace c = false.
Proof.
  unfold store_items. rewrite sorted_In, set_iter_in, in_map_iff.
  intros [y [<- Hy]]. apply filter_In in Hy.
  now apply normalize_name_end.
Qed.

(** The blocks, when there are any, end with a bullet line and a blank
    line. *)
Lemma blocks_end (rt : runtime) (selected : catalog) (sts : list pystr) :
  flat_map (store_block rt selected) sts <> [] ->
  exists front pre c,
    flat_map (store_block rt selected) sts
    = front ++ [CHECKBOX_BULLET ++ py " " ++ pre ++ [c]; []]
    /\ isspace c = false.
Proof.
  induction sts as [|st sts IH] using rev_ind; [simpl; congruence|].
  rewrite flat_map_app. cbn [flat_map]. rewrite app_nil_r.
  destruct (store_block_shape rt selected st) as [[_ ->]|[Hne ->]].
  - rewrite app_nil_r. exact IH.
  - intros _.
    destruct (exists_last Hne) as [its [it Hits]].
    destruct (@store_items_normalized rt (dict_get_or st [] selected) it)
      as [pre [c [Hit Hc]]]; [rewrite Hits; apply in_or_app; right; now left|].
    exists (flat_map (store_block rt selected) sts
              ++ header_line st :: underline_line st :: map bullet_line its),
           pre, c.
    split; [|exact Hc].
    rewrite Hits, map_app. simpl. unfold bullet_line at 2. rewrite Hit.
    rewrite <- !app_assoc. simpl. rewrite <- ?app_assoc. reflexivity.
Qed.

(** When a block is emitted, the text is the lines joined by line feeds,
    without the blank line that ends the last block. *)
Lemma format_text (rt : runtime) (today : pystr) (selected : catalog)
    (store_order : list pystr) :
  flat_map (store_block rt selected) (ordered_stores store_order selected)
    <> [] ->
  format_shopping_list_for_whatsapp rt today selected store_order
  = join nl (removelast (format_lines rt today selected store_order)).
Proof.
  intros Hne. unfold format_shopping_list_for_whatsapp.
  rewrite format_lines_blocks.
  destruct (blocks_end rt selected _ Hne) as [front [pre [c [-> Hc]]]].
  set (b := CHECKBOX_BULLET ++ py " " ++ pre ++ [c]).
  set (date := py "Shopping List - " ++ today).
  replace (date :: [] :: front ++ [b; []])
    with ((date :: [] :: front ++ [b]) ++ [[]])
    by (simpl; rewrite <- app_assoc; reflexivity).
  rewrite removelast_last, join_blank_last by discriminate.
  destruct (join_last nl (date :: [] :: front) b) as [p Hp].
  change ((date :: [] :: front) ++ [b]) with (date :: [] :: front ++ [b]) in Hp.
  eapply strip_clean with (c1 := 83%N) (c2 := c)
    (p := p ++ CHECKBOX_BULLET ++ py " " ++ pre).
  - change (join nl (date :: [] :: front ++ [b]))
      with (date ++ nl ++ join nl ([] :: front ++ [b])).
    subst date. reflexivity.
  - reflexivity.
  - rewrite Hp. subst b. now rewrite <- !app_assoc.
  - exact Hc.
  - repeat constructor.
Qed.

(** C7.  The lines of the formatter start with the date line and a
    blank line.  The header of a store whose flattened, normalized item
    list is empty is not among the lines.  When some store of the
    selection holds an item whose normalized name is not empty, the
    lines contain the block of that store: its header, its underline, a
    bullet line for each of its items, among them the item named, and a
    blank line; and the text returned is the lines joined by line
    feeds, without the blank line that ends the last block. *)
Theorem format_lists_stores_with_items (rt : runtime) (today : pystr)
    (selected : catalog) (store_order : list pystr) :
  let lines := format_lines rt today selected store_order in
  (exists rest, lines = (py "Shopping List - " ++ today) :: [] :: rest)
  /\ (forall store,
        store_items rt (dict_get_or store [] selected) = [] ->
        ~ In (header_line store) lines)
  /\ (forall store cats cat items x,
        dict_get store selected = Some cats ->
        dict_get cat cats = Some items ->
        In x items ->
        truthy (normalize_name x) = true ->
        exists before after bullets,
          lines = (py "Shopping List - " ++ today) :: [] :: before
                    ++ (header_line store :: underline_line store
                          :: bullets ++ [[]])
                    ++ after
          /\ In (bullet_line (normalize_name x)) bullets
          /\ format_shopping_list_for_whatsapp rt today selected store_order
             = join nl (removelast lines)).
Proof.
  intros lines. pose proof (@format_text rt today selected store_order) as Htext.
  subst lines. rewrite format_lines_blocks in *.
  split; [eexists; reflexivity|]. split.
  - intros store Hempty [H|[H|H]].
    + discriminate.
    + discriminate.
    + apply in_flat_map in H. destruct H as [st [_ H]].
      apply header_in_block in H. tauto.
  - intros store cats cat items x Hs Hc Hx Ht.
    assert (dict_get_or store [] selected = cats) as Hcats
      by (unfold dict_get_or; unalias; now rewrite Hs).
    pose proof (@store_items_In rt cats cat items x Hc Hx Ht) as Hin.
    assert (In store (ordered_stores store_order selected)) as Ho.
    { apply ordered_stores_spec, dict_mem_In.
      eapply dict_get_Some_mem; eauto. }
    apply in_split in Ho. destruct Ho as [l1 [l2 Ho]].
    rewrite Ho in *. rewrite flat_map_app in *. cbn [flat_map] in *.
    destruct (store_block_shape rt selected store) as [[He _]|[_ Hb]].
    + rewrite Hcats in He. rewrite He in Hin. destruct Hin.
    + rewrite Hb in *. rewrite Hcats in *.
      exists (flat_map (store_block rt selected) l1),
             (flat_map (store_block rt selected) l2),
             (map bullet_line (store_items rt cats)).
      split; [reflexivity|]. split; [now apply in_map|].
      apply Htext. intros H. apply app_eq_nil in H. destruct H as [_ H].
      discriminate.
Qed.

(** ** The scenario with one chosen item *)

Lemma set_iter_nil (rt : runtime) : set_iter rt [] = [].
Proof.
  destruct (set_iter rt []) as [|x l] eqn:E; [reflexivity|].
  exfalso. apply (set_iter_in rt [] x). rewrite E. now left.
Qed.

Lemma set_iter_one (rt : runtime) (x : pystr) : set_iter rt [x] = [x].
Proof.
  pose proof (set_iter_nodup rt [x]) as Hnd.
  pose proof (set_iter_in rt [x]) as Hin.
  destruct (set_iter rt [x]) as [|a [|b l]].
  - exfalso. apply (Hin x). now left.
  - f_equal. destruct (proj1 (Hin a) (or_introl eq_refl)) as [H|[]]. auto.
  - exfalso.
    destruct (proj1 (Hin a) (or_introl eq_refl)) as [<-|[]].
    destruct (proj1 (Hin b) (or_intror (or_introl eq_refl))) as [<-|[]].
    inversion Hnd as [|? ? Hn _]. apply Hn. now left.
Qed.

Ltac eval_set_argument :=
  match goal with
  | |- context [set_iter ?rt ?l] =>
      let v := eval vm_compute in l in change l with v
  end.

Lemma walmart_items (rt : runtime) :
  store_items rt (dict_get_or (py "Walmart") [] milk_selection) = [].
Proof.
  unfold store_items. eval_set_argument. now rewrite set_iter_nil.
Qed.

Lemma costco_items (rt : runtime) :
  store_items rt (dict_get_or (py "Costco") [] milk_selection) = [py "Milk"].
Proof.
  unfold store_items. eval_set_argument. now rewrite set_iter_one.
Qed.

Lemma milk_selection_lines (rt : runtime) (today : pystr) :
  format_lines rt today milk_selection [py "Walmart"; py "Costco"]
  = [py "Shopping List - " ++ today; [];
     header_line (py "Costco"); underline_line (py "Costco");
     bullet_line (py "Milk"); []].
Proof.
  rewrite format_lines_blocks.
  replace (ordered_stores [py "Walmart"; py "Costco"] milk_selection)
    with [py "Walmart"; py "Costco"] by (vm_compute; reflexivity).
  cbn [flat_map]. unfold store_block.
  now rewrite walmart_items, costco_items.
Qed.

(** C8.  For the selection with Milk under Costco/Dairy and nothing
    under Walmart/Produce, and the order Walmart, Costco, the formatter
    emits after the date line and the blank line one block, the one of
    Costco: the header [*Costco*], the separator constant repeated
    [max(6, min(22, len("Costco") + 2)) = 8] times, one bullet line made
    of the checkbox constant, a space and Milk, and a blank line.  The
    two constants hold three code points each (U+201A U+00C4 U+00EE and
    U+201A U+00F2 U+00EA: the em dash U+2014 and the ballot box U+2610
    read in the wrong encoding), so the underline line is 24 code points
    long, not 8, and the bullet line starts with three code points, not
    with one glyph. *)
Theorem format_milk_selection (rt : runtime) (today : pystr) :
  format_lines rt today milk_selection [py "Walmart"; py "Costco"]
  = [py "Shopping List - " ++ today; [];
     py "*Costco*";
     [8218; 196; 238; 8218; 196; 238; 8218; 196; 238; 8218; 196; 238;
      8218; 196; 238; 8218; 196; 238; 8218; 196; 238; 8218; 196; 238]%N;
     [8218; 242; 234]%N ++ py " Milk";
     []]
  /\ underline_length (py "Costco") = 8
  /\ length UNDERLINE_CHAR = 3
  /\ length CHECKBOX_BULLET = 3
  /\ length (underline_line (py "Costco")) = 24
  /\ length (bullet_line (py "Milk")) = 8
  /\ format_shopping_list_for_whatsapp rt today milk_selection
       [py "Walmart"; py "Costco"]
     = py "Shopping List - " ++ today ++ nl ++ nl
         ++ py "*Costco*" ++ nl
         ++ concat (repeat [8218; 196; 238]%N 8) ++ nl
         ++ [8218; 242; 234]%N ++ py " Milk".
Proof.
  split; [apply milk_selection_lines|]. do 5 (split; [reflexivity|]).
  rewrite format_text.
  - rewrite milk_selection_lines. cbn [removelast join].
    rewrite <- !app_assoc. reflexivity.
  - replace (ordered_stores [py "Walmart"; py "Costco"] milk_selection)
      with [py "Walmart"; py "Costco"] by (vm_compute; reflexivity).
    cbn [flat_map]. unfold store_block.
    rewrite walmart_items, costco_items. discriminate.
Qed.

(** The separator constant holds three code points, so an underline of
    [n] separators is [3 * n] code points long. *)
Lemma underline_line_length (store : pystr) :
  length (underline_line store) = 3 * underline_length store.
Proof.
  unfold underline_line. induction (underline_length store) as [|n IH];
    [reflexivity|].
  cbn [repeat concat]. rewrite length_app, IH. simpl. lia.
Qed.

(** ** Examples *)

(** A stale store and a stale category leave the selection, a missing
    store and a missing category enter it with nothing chosen. *)
Example reconcile_example :
  let stores : catalog :=
    [(py "S", [(py "C", [py "Milk"]); (py "D", [])]); (py "T", [(py "E", [])])] in
  let selected : selection :=
    [(py "S", [(py "C", [py "Milk"]); (py "X", [py "Tea"])]);
     (py "U", [(py "C", [])])] in
  reconcile stores selected
  = [(py "S", [(py "C", [py "Milk"]); (py "D", [])]); (py "T", [(py "E", [])])].
Proof. reflexivity. Qed.

(** Adding items to a category that does not exist yet, through a store
    name that needs normalizing. *)
Example add_items_example :
  add_items insertion_order_runtime one_store_catalog (py "  S ") (py "")
    (py "tea , Apples" ++ nl ++ nl ++ py " big   box ,")
  = [(py "S", [(py "Dairy", [py "Milk"]);
               (Uncategorized, [py "Apples"; py "big box"; py "tea"])])].
Proof. reflexivity. Qed.

(** Names with the same lower-cased key keep the order of the input. *)
Example sorted_example :
  sorted lower [py "milk"; py "Eggs"; py "Milk"; py "apple"; py "MILK"]
  = [py "apple"; py "Eggs"; py "milk"; py "Milk"; py "MILK"].
Proof. reflexivity. Qed.

Example splitlines_example :
  splitlines (py "a" ++ nl ++ nl ++ py "b" ++ [13%N; 10%N] ++ py "c" ++ nl)
  = [py "a"; []; py "b"; py "c"].
Proof. reflexivity. Qed.

Example normalize_name_example :
  normalize_name ([9%N] ++ py "  Indian " ++ nl ++ py "  Store ")
  = py "Indian Store".
Proof. reflexivity. Qed.

(** ** Names beyond ASCII *)

(** The French "Eclair" with a capital E acute; the Greek "ODOS SOFIAS"
    in capitals, where a capital sigma at the end of a word becomes the
    final sigma and the one at the start of a word the small sigma; the
    Turkish "Istanbul" with a capital I with dot above, which becomes
    two code points. *)
Example lower_example :
  lower [201; 99; 108; 97; 105; 114]%N = [233; 99; 108; 97; 105; 114]%N
  /\ lower [927; 916; 927; 931; 32; 931; 927; 934; 921; 913; 931]%N
     = [959; 948; 959; 962; 32; 963; 959; 966; 953; 945; 962]%N
  /\ lower [304; 115; 116; 97; 110; 98; 117; 108]%N
     = [105; 775; 115; 116; 97; 110; 98; 117; 108]%N.
Proof. vm_compute. repeat split. Qed.

(** "Eclair" with a capital E acute and "a la carte" with an a grave:
    the second comes first, since the key of the first starts with the
    small e acute, under either iteration order of the set. *)
Example sorted_unique_example :
  _sorted_unique insertion_order_runtime
    [[201; 99; 108; 97; 105; 114]%N;
     [224; 32; 108; 97; 32; 99; 97; 114; 116; 101]%N]
  = [[224; 32; 108; 97; 32; 99; 97; 114; 116; 101]%N;
     [201; 99; 108; 97; 105; 114]%N]
  /\ _sorted_unique reverse_order_runtime
       [[201; 99; 108; 97; 105; 114]%N;
        [224; 32; 108; 97; 32; 99; 97; 114; 116; 101]%N]
     = [[224; 32; 108; 97; 32; 99; 97; 114; 116; 101]%N;
        [201; 99; 108; 97; 105; 114]%N].
Proof. vm_compute. split; reflexivity. Qed.

(** Two stores with Cyrillic names, the first with a capital initial
    (U+042F) and the second in small letters (initial U+0433): sorted by
    lower-cased name the second comes first. *)
Example ordered_stores_example :
  let stores : catalog :=
    [([1071; 1073; 1083; 1086; 1082; 1086]%N, [(Uncategorized, [])]);
     ([1075; 1088; 1091; 1096; 1072]%N, [(Uncategorized, [])])] in
  ordered_stores [] stores
  = [[1075; 1088; 1091; 1096; 1072]%N;
     [1071; 1073; 1083; 1086; 1082; 1086]%N]
  /\ load_store_order insertion_order_runtime None stores
     = [[1075; 1088; 1091; 1096; 1072]%N;
        [1071; 1073; 1083; 1086; 1082; 1086]%N].
Proof. vm_compute. split; reflexivity. Qed.

(** The search text with a capital E acute shows "Eclair" (capital E
    acute) and "cafe" (small e acute), not "Bread". *)
Example visible_items_example :
  visible_items [32; 201; 32]%N
    [[201; 99; 108; 97; 105; 114]%N;
     [66; 114; 101; 97; 100]%N;
     [99; 97; 102; 233]%N]
  = [[201; 99; 108; 97; 105; 114]%N;
     [99; 97; 102; 233]%N].
Proof. vm_compute. reflexivity. Qed.

(* ================================================================== *)
(** * Names in the catalog are normalized *)
(* ================================================================== *)

Lemma split_ws_aux_word (w cur rest : pystr) :
  Forall (fun c => isspace c = false) w ->
  split_ws_aux cur (w ++ rest) = split_ws_aux (rev w ++ cur) rest.
Proof.
  revert cur. induction w as [|c w IH]; intros cur Hw; [reflexivity|].
  inversion Hw as [|? ? Hc Hw']; subst. simpl. rewrite Hc.
  rewrite IH by exact Hw'. now rewrite <- app_assoc.
Qed.

Lemma split_ws_join (ws : list pystr) :
  Forall (fun w => w <> [] /\ Forall (fun c => isspace c = false) w) ws ->
  split_ws (join (py " ") ws) = ws.
Proof.
  unfold split_ws.
  induction ws as [|w ws IH]; intros Hall; [reflexivity|].
  inversion Hall as [|? ? [Hne Hw] Hrest]; subst.
  assert (truthy (rev w) = true) as Ht.
  { destruct w; [congruence|]. simpl. now destruct (rev w). }
  destruct ws as [|w2 ws].
  - simpl. rewrite <- (app_nil_r w) at 1.
    rewrite split_ws_aux_word by exact Hw. simpl. rewrite app_nil_r.
    now rewrite Ht, rev_involutive.
  - change (join (py " ") (w :: w2 :: ws))
      with (w ++ 32%N :: join (py " ") (w2 :: ws)).
    rewrite split_ws_aux_word by exact Hw. rewrite app_nil_r.
    cbn [split_ws_aux]. change (isspace 32) with true. cbv iota.
    now rewrite Ht, rev_involutive, IH.
Qed.

Lemma strip_words (ws : list pystr) :
  Forall (fun w => w <> [] /\ Forall (fun c => isspace c = false) w) ws ->
  strip (join (py " ") ws) = join (py " ") ws.
Proof.
  intros Hall. destruct ws as [|w ws]; [reflexivity|].
  destruct (@join_words_end (py " ") (w :: ws)) as [pre [c [Hj Hc]]];
    [discriminate | exact Hall |].
  inversion Hall as [|? ? [Hne Hw] _]; subst.
  destruct w as [|c1 w]; [congruence|].
  inversion Hw as [|? ? Hc1 _]; subst.
  rewrite <- (app_nil_r (join (py " ") ((c1 :: w) :: ws))) at 1.
  eapply strip_clean with (c1 := c1) (c2 := c) (p := pre)
    (t1 := tl (join (py " ") ((c1 :: w) :: ws)));
    [|exact Hc1 | exact Hj | exact Hc | constructor].
  destruct ws; reflexivity.
Qed.

(** [normalize_name] is idempotent. *)
Lemma normalize_name_idem (x : pystr) : normalized (normalize_name x).
Proof.
  unfold normalized. unfold normalize_name at 1.
  pose proof (@split_ws_aux_words [] (strip x) (Forall_nil _)) as Hw.
  fold (split_ws (strip x)) in Hw.
  unfold normalize_name. rewrite strip_words by exact Hw.
  now rewrite split_ws_join.
Qed.

Lemma or_default_normalized (x : pystr) :
  normalized (or_default (normalize_name x) Uncategorized).
Proof.
  unfold or_default. destruct (truthy (normalize_name x)).
  - apply normalize_name_idem.
  - reflexivity.
Qed.

Section KeyFacts.

Variable V : Type.
Variable Q : pystr -> Prop.

Lemma dict_set_keys_Forall (k : pystr) (v : V) (d : dict V) :
  Q k -> Forall (fun e => Q (fst e)) d ->
  Forall (fun e => Q (fst e)) (dict_set k v d).
Proof.
  intros Hk. induction 1 as [|[k0 v0] d Hx Hd IH]; simpl.
  - repeat constructor. exact Hk.
  - destruct (str_eqb k k0); constructor; auto.
Qed.

Lemma dict_mem_keys_Forall (k : pystr) (d : dict V) :
  Forall (fun e => Q (fst e)) d -> dict_mem k d = true -> Q k.
Proof.
  intros H Hm. apply dict_mem_In in Hm. apply in_map_iff in Hm.
  destruct Hm as [e [<- He]]. rewrite Forall_forall in H. now apply H.
Qed.

End KeyFacts.

(** In a catalog with normalized names, a store that is present is
    found under the name as given. *)
Lemma named_store_resolves (stores : catalog) (store_name : pystr) :
  catalog_normalized stores -> dict_mem store_name stores = true ->
  normalize_name store_name = store_name.
Proof.
  intros H Hm.
  apply (@dict_mem_keys_Forall _ normalized store_name stores); [|exact Hm].
  eapply Forall_impl; [|exact H]. intros e [He _]. exact He.
Qed.

Lemma catalog_normalized_set (stores : catalog) (k : pystr)
    (cats : category_map) :
  catalog_normalized stores -> normalized k ->
  Forall (fun c => normalized (fst c)) cats ->
  catalog_normalized (dict_set k cats stores).
Proof.
  intros H Hk Hc. unfold catalog_normalized.
  induction H as [|[k0 v0] d Hx Hd IH]; simpl.
  - repeat constructor; assumption.
  - destruct (str_eqb k k0) eqn:E; constructor; auto.
    split; [apply Hx | exact Hc].
Qed.

Lemma catalog_normalized_get (stores : catalog) (k : pystr)
    (cats : category_map) :
  catalog_normalized stores -> dict_get k stores = Some cats ->
  normalized k /\ Forall (fun c => normalized (fst c)) cats.
Proof.
  intros H Hg. apply dict_get_In in Hg.
  unfold catalog_normalized in H. rewrite Forall_forall in H.
  exact (H _ Hg).
Qed.

Lemma convert_payload_normalized (rt : runtime) (payload : json) :
  Forall (fun c => normalized (fst c)) (convert_payload rt payload).
Proof.
  assert (normalized Uncategorized) as HU by reflexivity.
  destruct payload as [s|t|l|d]; simpl; try (repeat constructor; exact HU).
  match goal with |- context [fold_left ?f d []] =>
    assert (Forall (fun c : pystr * list pystr => normalized (fst c))
              (fold_left f d [])) as H;
    [|destruct (fold_left f d []);
      [repeat constructor; exact HU | exact H]]
  end.
  assert (Forall (fun c : pystr * list pystr => normalized (fst c)) [])
    as H0 by constructor.
  revert H0. generalize (@nil (pystr * list pystr)) as acc.
  induction d as [|[cat items] d IH]; intros acc Hacc; cbn [fold_left];
    [exact Hacc|].
  apply IH. cbn [fst snd].
  destruct items; try exact Hacc.
  apply (@dict_set_keys_Forall _ normalized); [|exact Hacc].
  apply or_default_normalized.
Qed.

Lemma load_stores_normalized (rt : runtime) (file : option json) :
  catalog_normalized (load_stores rt file).
Proof.
  assert (catalog_normalized DEFAULT_STORES) as HD.
  { unfold catalog_normalized, DEFAULT_STORES.
    repeat (apply Forall_cons; [split; [vm_compute; reflexivity|]|]);
      try apply Forall_nil;
      repeat (apply Forall_cons; [vm_compute; reflexivity|]);
      apply Forall_nil. }
  destruct file as [[s|t|l|raw]|]; simpl; try exact HD.
  assert (catalog_normalized (convert_legacy_shape rt raw)) as H.
  { unfold convert_legacy_shape.
    assert (catalog_normalized []) as H0 by constructor.
    revert H0. generalize (@nil (pystr * category_map)) as acc.
    induction raw as [|[store payload] raw IH]; intros acc Hacc;
      cbn [fold_left]; [exact Hacc|].
    apply IH. cbn [fst snd].
    destruct (truthy (normalize_name store)); [|exact Hacc].
    apply catalog_normalized_set;
      [exact Hacc | apply normalize_name_idem
       | apply convert_payload_normalized]. }
  destruct (convert_legacy_shape rt raw); [exact HD | exact H].
Qed.

(** Every catalog a session can hold has normalized names. *)
Lemma reachable_normalized (rt : runtime) (stores : catalog) :
  reachable rt stores -> catalog_normalized stores.
Proof.
  induction 1 as [file
                 | stores name Hr IH
                 | stores store category Hr IH
                 | stores store category text Hr IH
                 | stores store category item Hr IH
                 | stores store category Hr IH
                 | stores store Hr IH].
  - apply load_stores_normalized.
  - unfold add_store. destruct (truthy _ && negb _); [|exact IH].
    apply catalog_normalized_set;
      [exact IH | apply normalize_name_idem | repeat constructor].
  - unfold add_category.
    destruct (dict_get _ stores) as [cats|] eqn:E; [|exact IH].
    destruct (dict_mem _ cats); [exact IH|].
    destruct (@catalog_normalized_get _ _ _ IH E) as [Hk Hc].
    apply catalog_normalized_set; [exact IH | exact Hk |].
    apply (@dict_set_keys_Forall _ normalized); [|exact Hc].
    apply or_default_normalized.
  - unfold add_items.
    destruct (dict_get _ stores) as [cats|] eqn:E; [|exact IH].
    destruct (@catalog_normalized_get _ _ _ IH E) as [Hk Hc].
    apply catalog_normalized_set; [exact IH | exact Hk |].
    apply (@dict_set_keys_Forall _ normalized);
      [apply or_default_normalized|].
    destruct (dict_mem _ cats); [exact Hc|].
    apply (@dict_set_keys_Forall _ normalized); [|exact Hc].
    apply or_default_normalized.
  - unfold remove_item.
    destruct (dict_get store stores) as [cats|] eqn:E; [|exact IH].
    destruct (dict_get category cats) as [items|] eqn:F; [|exact IH].
    destruct (@catalog_normalized_get _ _ _ IH E) as [Hk Hc].
    apply catalog_normalized_set; [exact IH | exact Hk |].
    apply (@dict_set_keys_Forall _ normalized); [|exact Hc].
    apply (@dict_mem_keys_Forall _ normalized category cats Hc).
    eapply dict_get_Some_mem; eauto.
  - unfold remove_category.
    destruct (dict_get store stores) as [cats|] eqn:E; [|exact IH].
    destruct (dict_mem category cats); [|exact IH].
    destruct (@catalog_normalized_get _ _ _ IH E) as [Hk Hc].
    destruct (1 <? length cats); apply catalog_normalized_set;
      try assumption.
    + apply Forall_forall. intros e He. apply filter_In in He.
      rewrite Forall_forall in Hc. now apply Hc.
    + repeat constructor.
  - unfold remove_store. destruct (dict_mem store stores); [|exact IH].
    apply Forall_forall. intros e He. apply filter_In in He.
    unfold catalog_normalized in IH. rewrite Forall_forall in IH.
    now apply IH.
Qed.

(* ================================================================== *)
(** * Name normalization *)
(* ================================================================== *)

Lemma lstrip_decompose (x : pystr) :
  exists sp, x = sp ++ lstrip x /\ Forall (fun c => isspace c = true) sp.
Proof.
  induction x as [|c x [sp [Hx Hsp]]]; [now exists []|].
  simpl. destruct (isspace c) eqn:E.
  - exists (c :: sp). split; [simpl; now f_equal | now constructor].
  - now exists [].
Qed.

Lemma rstrip_decompose (x : pystr) :
  exists sp, x = rstrip x ++ sp /\ Forall (fun c => isspace c = true) sp.
Proof.
  unfold rstrip. destruct (lstrip_decompose (rev x)) as [sp [Hx Hsp]].
  exists (rev sp). split; [|now apply Forall_rev].
  rewrite <- rev_app_distr, <- Hx. now rewrite rev_involutive.
Qed.

Lemma split_ws_aux_spaces (cur sp : pystr) :
  Forall (fun c => isspace c = true) sp ->
  split_ws_aux cur sp = if truthy cur then [rev cur] else [].
Proof.
  intros Hsp. revert cur. induction Hsp as [|c sp Hc Hsp IH]; intros cur;
    [reflexivity|].
  simpl. rewrite Hc, IH. simpl. now destruct (truthy cur).
Qed.

Lemma split_ws_aux_trailing (cur r sp : pystr) :
  Forall (fun c => isspace c = true) sp ->
  split_ws_aux cur (r ++ sp) = split_ws_aux cur r.
Proof.
  intros Hsp. revert cur. induction r as [|c r IH]; intros cur; simpl.
  - now apply split_ws_aux_spaces.
  - now rewrite !IH.
Qed.

Lemma split_ws_leading (sp r : pystr) :
  Forall (fun c => isspace c = true) sp ->
  split_ws (sp ++ r) = split_ws r.
Proof.
  unfold split_ws. induction 1 as [|c sp Hc Hsp IH]; [reflexivity|].
  simpl. now rewrite Hc.
Qed.

(** The words of a string are those of the stripped string. *)
Lemma split_ws_strip (x : pystr) : split_ws (strip x) = split_ws x.
Proof.
  unfold strip.
  destruct (lstrip_decompose x) as [sp [Hx Hsp]].
  destruct (rstrip_decompose (lstrip x)) as [sp' [Hx' Hsp']].
  rewrite Hx at 2. rewrite split_ws_leading by exact Hsp.
  rewrite Hx' at 2. unfold split_ws.
  now rewrite split_ws_aux_trailing.
Qed.

Lemma split_ws_aux_nil (cur s : pystr) :
  split_ws_aux cur s = [] ->
  cur = [] /\ Forall (fun c => isspace c = true) s.
Proof.
  revert cur. induction s as [|c s IH]; intros cur; simpl.
  - destruct cur; [auto | discriminate].
  - destruct (isspace c) eqn:E.
    + destruct cur; simpl; [|discriminate].
      intros H. destruct (IH _ H) as [_ Hs]. split; auto.
    + intros H. destruct (IH _ H) as [Hc _]. discriminate.
Qed.

Lemma join_nil_inv (sep : pystr) (ws : list pystr) :
  Forall (fun w => w <> [] /\ Forall (fun c => isspace c = false) w) ws ->
  join sep ws = [] -> ws = [].
Proof.
  intros Hall Hj. destruct ws as [|w ws]; [reflexivity|].
  destruct (@join_words_end sep (w :: ws)) as [pre [c [He _]]];
    [discriminate | exact Hall |].
  rewrite He in Hj. now destruct pre.
Qed.

(** X1.  [normalize_name] is idempotent: a normalized name is left as it
    is. *)
Theorem normalize_name_idempotent (x : pystr) :
  normalize_name (normalize_name x) = normalize_name x.
Proof. apply normalize_name_idem. Qed.

(** X2.  [normalize_name] returns the empty string exactly for the
    strings made of whitespace only (the empty string among them). *)
Theorem normalize_name_empty_iff (x : pystr) :
  normalize_name x = [] <-> Forall (fun c => isspace c = true) x.
Proof.
  unfold normalize_name. rewrite split_ws_strip. split.
  - intros H. apply join_nil_inv in H.
    + now apply split_ws_aux_nil in H.
    + apply split_ws_aux_words. constructor.
  - intros H. unfold split_ws. now rewrite split_ws_aux_spaces.
Qed.

Lemma join_space_chars (ws : list pystr) :
  Forall (fun w => w <> [] /\ Forall (fun c => isspace c = false) w) ws ->
  Forall (fun c => isspace c = true -> c = 32%N) (join (py " ") ws).
Proof.
  induction 1 as [|w ws [_ Hw] Hws IH]; [constructor|].
  assert (Forall (fun c => isspace c = true -> c = 32%N) w) as Hw'.
  { eapply Forall_impl; [|exact Hw]. intros c Hc Hs. congruence. }
  destruct ws as [|w2 ws]; [exact Hw'|].
  change (join (py " ") (w :: w2 :: ws))
    with (w ++ 32%N :: join (py " ") (w2 :: ws)).
  apply Forall_app. split; [exact Hw'|]. constructor; auto.
Qed.

(** X3.  In a normalized name the only whitespace is the single space:
    tabs, line breaks and the other whitespace code points do not occur,
    and the name neither starts nor ends with whitespace. *)
Theorem normalize_name_whitespace (x : pystr) :
  Forall (fun c => isspace c = true -> c = 32%N) (normalize_name x)
  /\ (normalize_name x <> [] ->
      exists first last middle rest,
        normalize_name x = first :: rest
        /\ normalize_name x = middle ++ [last]
        /\ isspace first = false /\ isspace last = false).
Proof.
  pose proof (@split_ws_aux_words [] (strip x) (Forall_nil _)) as Hw.
  fold (split_ws (strip x)) in Hw. split.
  - now apply join_space_chars.
  - intros Hne. unfold normalize_name in *.
    destruct (split_ws (strip x)) as [|w ws];
      [exfalso; apply Hne; reflexivity|].
    destruct (@join_words_end (py " ") (w :: ws)) as [pre [c [He Hc]]];
      [discriminate | exact Hw |].
    inversion Hw as [|? ? [Hwne Hwc] _]; subst.
    destruct w as [|c1 w]; [congruence|].
    inversion Hwc as [|? ? Hc1 _]; subst.
    exists c1, c, pre, (tl (join (py " ") ((c1 :: w) :: ws))).
    repeat split; try assumption. destruct ws; reflexivity.
Qed.

(** X4.  [_sorted_unique] returns a list in ascending order of
    lower-cased names, without duplicates, whose members are exactly the
    non-empty normalized forms of the given items; every member is
    itself normalized. *)
Theorem sorted_unique_spec (rt : runtime) (items : list pystr) :
  StronglySorted (key_le lower) (_sorted_unique rt items)
  /\ NoDup (_sorted_unique rt items)
  /\ (forall x, In x (_sorted_unique rt items)
                <-> x <> [] /\ exists y, In y items /\ normalize_name y = x)
  /\ Forall normalized (_sorted_unique rt items).
Proof.
  assert (forall x, In x (_sorted_unique rt items)
                <-> x <> [] /\ exists y, In y items /\ normalize_name y = x)
    as Hin.
  { intros x. unfold _sorted_unique.
    rewrite sorted_In, set_iter_in, in_map_iff. split.
    - intros [y [<- Hy]]. apply filter_In in Hy. destruct Hy as [Hy Ht].
      split; [|now exists y]. intros H. rewrite H in Ht. discriminate.
    - intros [Hne [y [Hy <-]]]. exists y. split; [reflexivity|].
      apply filter_In. split; [exact Hy|].
      now destruct (normalize_name y). }
  split; [apply sorted_sorted|].
  split; [apply sorted_NoDup, set_iter_nodup|].
  split; [exact Hin|].
  apply Forall_forall. intros x Hx. apply Hin in Hx.
  destruct Hx as [_ [y [_ <-]]]. apply normalize_name_idem.
Qed.

(* ================================================================== *)
(** * The catalog operations, one by one *)
(* ================================================================== *)

Section DictEquations.

Variable V : Type.
Implicit Types (d : dict V) (k : pystr) (v : V).

Lemma dict_set_absent k v d :
  dict_mem k d = false -> dict_set k v d = d ++ [(k, v)].
Proof.
  unfold dict_mem. induction d as [|[k0 v0] d IH]; simpl; [reflexivity|].
  destruct (str_eqb k k0); simpl; [discriminate|].
  intros H. now rewrite IH.
Qed.

Lemma dict_set_same_value k v d :
  dict_get k d = Some v -> dict_set k v d = d.
Proof.
  induction d as [|[k0 v0] d IH]; simpl; [discriminate|].
  destruct (str_eqb k k0); [now intros [= ->]|].
  intros H. now rewrite IH.
Qed.

Lemma dict_del_absent k d : dict_mem k d = false -> dict_del k d = d.
Proof.
  unfold dict_mem, dict_del.
  induction d as [|[k0 v0] d IH]; simpl; [reflexivity|].
  destruct (str_eqb k k0); simpl; [discriminate|].
  intros H. now rewrite IH.
Qed.

Lemma dict_del_set_absent k v d :
  dict_mem k d = false -> dict_del k (dict_set k v d) = d.
Proof.
  intros H. rewrite dict_set_absent by exact H.
  unfold dict_del. rewrite filter_app. simpl. rewrite str_eqb_refl. simpl.
  rewrite app_nil_r. now apply dict_del_absent.
Qed.

Lemma dict_get_del_same k d : dict_get k (dict_del k d) = None.
Proof.
  apply dict_get_None. rewrite dict_mem_del, str_eqb_refl. reflexivity.
Qed.

End DictEquations.

(** X5.  [add_store] leaves the catalog as it is when the name
    normalizes to the empty string or names a store that exists (whose
    categories are kept); otherwise it appends the store, after all the
    others, with the single empty category "Uncategorized".  Calling it
    again with the same name changes nothing. *)
Theorem add_store_spec (stores : catalog) (name : pystr) :
  let n := normalize_name name in
  (n = [] \/ dict_mem n stores = true -> add_store stores name = stores)
  /\ (n <> [] -> dict_mem n stores = false ->
      add_store stores name = stores ++ [(n, [(Uncategorized, [])])])
  /\ add_store (add_store stores name) name = add_store stores name.
Proof.
  intros n.
  assert (n = [] \/ dict_mem n stores = true -> add_store stores name = stores)
    as Hnoop.
  { unfold add_store. fold n. intros [-> | ->]; [reflexivity|].
    now rewrite andb_false_r. }
  assert (n <> [] -> dict_mem n stores = false ->
          add_store stores name = stores ++ [(n, [(Uncategorized, [])])])
    as Hnew.
  { intros Hn Hm. unfold add_store. fold n. rewrite Hm.
    destruct n; [congruence|]. simpl. now apply dict_set_absent. }
  split; [exact Hnoop|]. split; [exact Hnew|].
  destruct (str_eq_dec n []) as [Hn|Hn];
    [now rewrite !(Hnoop (or_introl Hn))|].
  destruct (Bool.bool_dec (dict_mem n stores) true) as [Em|Em];
    [now rewrite !(Hnoop (or_intror Em))|].
  apply not_true_is_false in Em.
  rewrite (Hnew Hn Em). unfold add_store. fold n.
  replace (dict_mem n (stores ++ [(n, [(Uncategorized, [])])])) with true;
    [now rewrite andb_false_r|].
  symmetry. apply dict_mem_In. unfold dict_keys. rewrite map_app.
  apply in_or_app. right. now left.
Qed.

(** X6.  [add_category] leaves the catalog as it is when the store is
    unknown or the category exists (its items are kept); otherwise the
    store gets the category, empty, after its other categories, and the
    stores keep their order.  Calling it again with the same names
    changes nothing. *)
Theorem add_category_spec (stores : catalog) (store_name category_name : pystr) :
  let s := normalize_name store_name in
  let c := or_default (normalize_name category_name) Uncategorized in
  let stores' := add_category stores store_name category_name in
  (dict_get s stores = None -> stores' = stores)
  /\ (forall cats, dict_get s stores = Some cats ->
        dict_mem c cats = true -> stores' = stores)
  /\ (forall cats, dict_get s stores = Some cats ->
        dict_mem c cats = false ->
        dict_get s stores' = Some (cats ++ [(c, [])])
        /\ dict_keys stores' = dict_keys stores)
  /\ add_category stores' store_name category_name = stores'.
Proof.
  intros s c stores'. subst stores'. unfold add_category. fold s. fold c.
  repeat split.
  - now intros ->.
  - intros cats -> Hm. unalias. now rewrite Hm.
  - rewrite H. unalias. rewrite H0. rewrite dict_get_set_same.
    now rewrite dict_set_absent.
  - rewrite H. unalias. rewrite H0.
    apply dict_keys_set_present. eapply dict_get_Some_mem; eauto.
  - destruct (dict_get s stores) as [cats|] eqn:E.
    + destruct (dict_mem c cats) eqn:Em.
      * unalias. now rewrite E, Em.
      * rewrite dict_get_set_same.
        replace (dict_mem c (dict_set c [] cats)) with true; [reflexivity|].
        symmetry. rewrite dict_mem_set. now rewrite str_eqb_refl.
    + unalias. now rewrite E.
Qed.

(** X7.  [remove_item] on a known store and category replaces the item
    list by the same list without the occurrences of the item: the item
    is gone and the other items keep their order.  Other categories and
    other stores keep what they had, and when the store, the category or
    the item is not there the catalog is left as it is. *)
Theorem remove_item_spec (stores : catalog) (store_name category_name item : pystr) :
  let stores' := remove_item stores store_name category_name item in
  (forall cats items,
      dict_get store_name stores = Some cats ->
      dict_get category_name cats = Some items ->
      category_items stores' store_name category_name
      = Some (filter (fun x => negb (str_eqb x item)) items)
      /\ (forall c', c' <> category_name ->
            category_items stores' store_name c' = dict_get c' cats)
      /\ (~ In item items -> stores' = stores))
  /\ (forall s', s' <> store_name -> dict_get s' stores' = dict_get s' stores)
  /\ (category_items stores store_name category_name = None ->
      stores' = stores)
  /\ (forall items,
        category_items stores' store_name category_name = Some items ->
        ~ In item items).
Proof.
  intros stores'. subst stores'. unfold remove_item, category_items.
  split; [|split; [|split]].
  - intros cats items Hs Hc. unalias. rewrite Hs, Hc.
    rewrite dict_get_set_same. split; [apply dict_get_set_same|]. split.
    + intros c' Hne. now apply dict_get_set_other.
    + intros Hnin.
      assert (filter (fun x => negb (str_eqb x item)) items = items) as ->.
      { clear Hc. induction items as [|x items IH]; [reflexivity|].
        simpl in *. destruct (str_eqb x item) eqn:E.
        - apply str_eqb_eq in E. tauto.
        - simpl. f_equal. apply IH. tauto. }
      rewrite (dict_set_same_value _ _ Hc).
      now apply dict_set_same_value.
  - intros s' Hne. destruct (dict_get store_name stores) as [cats|];
      [|reflexivity].
    destruct (dict_get category_name cats); [|reflexivity].
    now apply dict_get_set_other.
  - destruct (dict_get store_name stores) as [cats|]; [|reflexivity].
    unalias. now intros ->.
  - intros items.
    destruct (dict_get store_name stores) as [cats|] eqn:Hs.
    + destruct (dict_get category_name cats) as [old|] eqn:Hc.
      * rewrite dict_get_set_same, dict_get_set_same. intros [= <-].
        intros Hin. apply filter_In in Hin. destruct Hin as [_ Hin].
        now rewrite str_eqb_refl in Hin.
      * unalias. rewrite Hs. unalias. rewrite Hc. discriminate.
    + unalias. rewrite Hs. discriminate.
Qed.

(** X8.  [remove_category] on a store with more than one category
    deletes the named category and nothing else: the store has one
    category fewer, the named one is gone, and each other category
    keeps its items.  Other stores keep what they had, and when the
    store or the category is not there the catalog is left as it is. *)
Theorem remove_category_spec (stores : catalog) (store_name category_name : pystr) :
  let stores' := remove_category stores store_name category_name in
  (forall cats,
      dict_get store_name stores = Some cats ->
      dict_wf cats -> 1 < length cats ->
      dict_mem category_name cats = true ->
      exists cats',
        dict_get store_name stores' = Some cats'
        /\ S (length cats') = length cats
        /\ dict_get category_name cats' = None
        /\ forall c', c' <> category_name ->
             dict_get c' cats' = dict_get c' cats)
  /\ (forall s', s' <> store_name -> dict_get s' stores' = dict_get s' stores)
  /\ (category_items stores store_name category_name = None ->
      stores' = stores).
Proof.
  intros stores'. subst stores'. unfold remove_category, category_items.
  split; [|split].
  - intros cats Hs Hwf Hlen Hm. unalias. rewrite Hs, Hm.
    apply Nat.ltb_lt in Hlen. rewrite Hlen.
    eexists. split; [apply dict_get_set_same|]. split; [|split].
    + now apply dict_del_length.
    + apply dict_get_del_same.
    + intros c' Hne. now apply dict_get_del_other.
  - intros s' Hne. destruct (dict_get store_name stores) as [cats|];
      [|reflexivity].
    destruct (dict_mem category_name cats); [|reflexivity].
    destruct (1 <? length cats); now apply dict_get_set_other.
  - destruct (dict_get store_name stores) as [cats|]; [|reflexivity].
    intros H. apply dict_get_None in H. unalias. now rewrite H.
Qed.

(** X9.  After [remove_store] the store is not in the catalog and every
    other store keeps its categories; removing a store that is not there
    leaves the catalog as it is, and removing a store right after
    [add_store] added it gives back the catalog from before. *)
Theorem remove_store_spec (stores : catalog) (store_name : pystr) :
  dict_get store_name (remove_store stores store_name) = None
  /\ (forall s', s' <> store_name ->
        dict_get s' (remove_store stores store_name) = dict_get s' stores)
  /\ (dict_mem store_name stores = false ->
      remove_store stores store_name = stores)
  /\ (forall name,
        normalize_name name = store_name -> store_name <> [] ->
        dict_mem store_name stores = false ->
        remove_store (add_store stores name) store_name = stores).
Proof.
  unfold remove_store. repeat split.
  - destruct (dict_mem store_name stores) eqn:E;
      [apply dict_get_del_same | now apply dict_get_None].
  - intros s' Hne. destruct (dict_mem store_name stores);
      [now apply dict_get_del_other | reflexivity].
  - now intros ->.
  - intros name Hn Hne Hm. unfold add_store. rewrite Hn, Hm.
    destruct store_name as [|c n]; [congruence|]. simpl.
    rewrite dict_mem_set, str_eqb_refl. simpl.
    now apply dict_del_set_absent.
Qed.

(* ================================================================== *)
(** * Loading and saving the catalog *)
(* ================================================================== *)

Lemma sorted_unique_In (rt : runtime) (items : list pystr) (x : pystr) :
  In x (_sorted_unique rt items)
  <-> x <> [] /\ exists y, In y items /\ normalize_name y = x.
Proof.
  unfold _sorted_unique.
  rewrite sorted_In, set_iter_in, in_map_iff. split.
  - intros [y [<- Hy]]. apply filter_In in Hy. destruct Hy as [Hy Ht].
    split; [|now exists y]. intros H. rewrite H in Ht. discriminate.
  - intros [Hne [y [Hy <-]]]. exists y. split; [reflexivity|].
    apply filter_In. split; [exact Hy|].
    now destruct (normalize_name y).
Qed.

Lemma sorted_unique_clean (rt : runtime) (items : list pystr) :
  Forall clean_name (_sorted_unique rt items).
Proof.
  apply Forall_forall. intros x Hx. apply sorted_unique_In in Hx.
  destruct Hx as [Hne [y [_ <-]]]. split; [exact Hne|].
  apply normalize_name_idem.
Qed.


Lemma or_default_clean (x : pystr) :
  clean_name (or_default (normalize_name x) Uncategorized).
Proof.
  split; [|apply or_default_normalized].
  unfold or_default. destruct (normalize_name x); discriminate.
Qed.

Section EntryFacts.

Variable V : Type.
Variable Q : pystr * V -> Prop.

Lemma dict_set_entries_Forall (k : pystr) (v : V) (d : dict V) :
  Q (k, v) -> Forall Q d -> Forall Q (dict_set k v d).
Proof.
  intros Hk. induction 1 as [|[k0 v0] d Hx Hd IH]; simpl.
  - repeat constructor. exact Hk.
  - destruct (str_eqb k k0) eqn:E; constructor; auto.
    apply str_eqb_eq in E. now subst.
Qed.

Lemma dict_get_entries_Forall (k : pystr) (v : V) (d : dict V) :
  Forall Q d -> dict_get k d = Some v -> Q (k, v).
Proof.
  intros H Hg. apply dict_get_In in Hg. rewrite Forall_forall in H.
  now apply H.
Qed.

Lemma dict_del_entries_Forall (k : pystr) (d : dict V) :
  Forall Q d -> Forall Q (dict_del k d).
Proof.
  intros H. apply Forall_forall. intros e He. apply filter_In in He.
  rewrite Forall_forall in H. now apply H.
Qed.

End EntryFacts.

Lemma convert_payload_clean (rt : runtime) (payload : json) :
  Forall (fun c => clean_name (fst c) /\ Forall clean_name (snd c))
         (convert_payload rt payload).
Proof.
  assert (clean_name Uncategorized) as HU by (split; [discriminate|reflexivity]).
  assert (forall items, Forall
            (fun c : pystr * list pystr =>
               clean_name (fst c) /\ Forall clean_name (snd c))
            [(Uncategorized, _sorted_unique rt items)]) as H1.
  { intros items. repeat constructor; try apply HU.
    apply sorted_unique_clean. }
  assert (Forall
            (fun c : pystr * list pystr =>
               clean_name (fst c) /\ Forall clean_name (snd c))
            [(Uncategorized, [])]) as H2 by (repeat constructor; apply HU).
  destruct payload as [s|t|l|d]; simpl; try exact H2; try apply H1.
  match goal with |- context [fold_left ?f d []] =>
    assert (Forall (fun c : pystr * list pystr =>
                      clean_name (fst c) /\ Forall clean_name (snd c))
              (fold_left f d [])) as H;
    [|destruct (fold_left f d []); [exact H2 | exact H]]
  end.
  assert (Forall (fun c : pystr * list pystr =>
                    clean_name (fst c) /\ Forall clean_name (snd c)) [])
    as H0 by constructor.
  revert H0. generalize (@nil (pystr * list pystr)) as acc.
  induction d as [|[cat items] d IH]; intros acc Hacc; cbn [fold_left];
    [exact Hacc|].
  apply IH. cbn [fst snd].
  destruct items; try exact Hacc.
  apply dict_set_entries_Forall; [|exact Hacc].
  split; [apply or_default_clean | apply sorted_unique_clean].
Qed.

Lemma catalog_clean_set (stores : catalog) (k : pystr) (cats : category_map) :
  catalog_clean stores -> clean_name k ->
  Forall (fun c => clean_name (fst c) /\ Forall clean_name (snd c)) cats ->
  catalog_clean (dict_set k cats stores).
Proof.
  intros H Hk Hc. apply dict_set_entries_Forall; [|exact H]. now split.
Qed.

Lemma normalize_name_clean (x : pystr) :
  truthy (normalize_name x) = true -> clean_name (normalize_name x).
Proof.
  intros Ht. split; [|apply normalize_name_idem].
  intros H. rewrite H in Ht. discriminate.
Qed.

Lemma convert_legacy_shape_clean (rt : runtime) (data : dict json) :
  catalog_clean (convert_legacy_shape rt data).
Proof.
  unfold convert_legacy_shape.
  assert (catalog_clean []) as H0 by constructor.
  revert H0. generalize (@nil (pystr * category_map)) as acc.
  induction data as [|[store payload] data IH]; intros acc Hacc;
    cbn [fold_left]; [exact Hacc|].
  apply IH. cbn [fst snd].
  destruct (truthy (normalize_name store)) eqn:Et; [|exact Hacc].
  apply catalog_clean_set;
    [exact Hacc | now apply normalize_name_clean
     | apply convert_payload_clean].
Qed.

Lemma DEFAULT_STORES_clean : catalog_clean DEFAULT_STORES.
Proof.
  unfold catalog_clean, DEFAULT_STORES, clean_name, normalized.
  repeat (apply Forall_cons || apply Forall_nil || split);
    (discriminate || (vm_compute; reflexivity)).
Qed.

Lemma load_stores_clean (rt : runtime) (file : option json) :
  catalog_clean (load_stores rt file).
Proof.
  destruct file as [[s|t|l|raw]|]; simpl; try apply DEFAULT_STORES_clean.
  pose proof (convert_legacy_shape_clean rt raw) as H.
  destruct (convert_legacy_shape rt raw);
    [apply DEFAULT_STORES_clean | exact H].
Qed.

Lemma catalog_clean_get (stores : catalog) (k : pystr) (cats : category_map) :
  catalog_clean stores -> dict_get k stores = Some cats ->
  clean_name k
  /\ Forall (fun c => clean_name (fst c) /\ Forall clean_name (snd c)) cats.
Proof.
  intros H Hg.
  exact (@dict_get_entries_Forall _ _ k cats stores H Hg).
Qed.

Lemma new_items_clean (items_text : pystr) :
  Forall clean_name (new_items items_text).
Proof.
  apply Forall_forall. intros x Hx. apply new_items_In in Hx.
  destruct Hx as [Hne [p [_ <-]]]. split; [exact Hne|].
  apply normalize_name_idem.
Qed.

Lemma uncategorized_only_clean :
  Forall (fun c : pystr * list pystr =>
            clean_name (fst c) /\ Forall clean_name (snd c))
         [(Uncategorized, [])].
Proof.
  constructor; [|constructor].
  split; [split; [discriminate | reflexivity] | constructor].
Qed.

Lemma reachable_clean (rt : runtime) (stores : catalog) :
  reachable rt stores -> catalog_clean stores.
Proof.
  induction 1 as [file
                 | stores name Hr IH
                 | stores store category Hr IH
                 | stores store category text Hr IH
                 | stores store category item Hr IH
                 | stores store category Hr IH
                 | stores store Hr IH].
  - apply load_stores_clean.
  - unfold add_store.
    destruct (truthy (normalize_name name)) eqn:Et; [|exact IH].
    destruct (negb _); [|exact IH]. simpl.
    apply catalog_clean_set; [exact IH | now apply normalize_name_clean|].
    apply uncategorized_only_clean.
  - unfold add_category.
    destruct (dict_get _ stores) as [cats|] eqn:E; [|exact IH].
    destruct (dict_mem _ cats); [exact IH|].
    destruct (@catalog_clean_get _ _ _ IH E) as [Hk Hc].
    apply catalog_clean_set; [exact IH | exact Hk |].
    apply dict_set_entries_Forall; [|exact Hc].
    split; [apply or_default_clean | constructor].
  - unfold add_items.
    destruct (dict_get _ stores) as [cats|] eqn:E; [|exact IH].
    destruct (@catalog_clean_get _ _ _ IH E) as [Hk Hc].
    set (c := or_default (normalize_name category) Uncategorized).
    assert (Forall (fun c => clean_name (fst c) /\ Forall clean_name (snd c))
              (if dict_mem c cats then cats else dict_set c [] cats)) as Hc'.
    { destruct (dict_mem c cats); [exact Hc|].
      apply dict_set_entries_Forall; [|exact Hc].
      split; [apply or_default_clean | constructor]. }
    apply catalog_clean_set; [exact IH | exact Hk |].
    apply dict_set_entries_Forall; [|exact Hc'].
    split; [apply or_default_clean|]. cbn [snd].
    apply Forall_forall. intros x Hx.
    rewrite sorted_In, set_iter_in, in_app_iff in Hx.
    destruct Hx as [Hx|Hx].
    + unfold dict_get_or in Hx.
      match type of Hx with
      | In _ (match ?g with _ => _ end) => destruct g as [old|] eqn:Eo
      end; [|destruct Hx].
      destruct (@dict_get_entries_Forall _ _ c old _ Hc' Eo) as [_ Hold].
      rewrite Forall_forall in Hold. now apply Hold.
    + pose proof (new_items_clean text) as Hn.
      rewrite Forall_forall in Hn. now apply Hn.
  - unfold remove_item.
    destruct (dict_get store stores) as [cats|] eqn:E; [|exact IH].
    destruct (dict_get category cats) as [items|] eqn:F; [|exact IH].
    destruct (@catalog_clean_get _ _ _ IH E) as [Hk Hc].
    destruct (@dict_get_entries_Forall _ _ category items _ Hc F)
      as [Hcat Hitems].
    apply catalog_clean_set; [exact IH | exact Hk |].
    apply dict_set_entries_Forall; [|exact Hc].
    split; [exact Hcat|]. cbn [snd]. apply Forall_forall. intros x Hx.
    apply filter_In in Hx. rewrite Forall_forall in Hitems.
    now apply Hitems.
  - unfold remove_category.
    destruct (dict_get store stores) as [cats|] eqn:E; [|exact IH].
    destruct (dict_mem category cats); [|exact IH].
    destruct (@catalog_clean_get _ _ _ IH E) as [Hk Hc].
    destruct (1 <? length cats); apply catalog_clean_set;
      try assumption.
    + now apply dict_del_entries_Forall.
    + apply uncategorized_only_clean.
  - unfold remove_store. destruct (dict_mem store stores); [|exact IH].
    now apply dict_del_entries_Forall.
Qed.

(** X10.  Empty names are never stored: in every catalog a session can
    hold, whatever document was loaded and whatever texts were entered,
    each store name, category name and item name is non-empty and
    normalized. *)
Theorem reachable_names_clean (rt : runtime) (stores : catalog) :
  reachable rt stores -> catalog_clean stores.
Proof. apply reachable_clean. Qed.

Lemma reachable_names_clean_witness :
  catalog_clean
    (add_items insertion_order_runtime
       (add_store (load_stores insertion_order_runtime (Some dairy_document))
          (py "  Corner   shop "))
       (py "Corner shop") (py "   ") (py " ,tea,, green  tea" ++ nl)).
Proof.
  apply (@reachable_names_clean insertion_order_runtime).
  apply reach_add_items, reach_add_store, reach_load.
Defined.

Lemma convert_legacy_shape_nil_iff (rt : runtime) (raw : dict json) :
  convert_legacy_shape rt raw = []
  <-> Forall (fun e => normalize_name (fst e) = []) raw.
Proof.
  unfold convert_legacy_shape.
  assert (forall acc : catalog,
            fold_left
              (fun (converted : catalog) (entry : pystr * json) =>
                 let store_name := normalize_name (fst entry) in
                 if truthy store_name
                 then dict_set store_name (convert_payload rt (snd entry))
                                converted
                 else converted) raw acc = []
            <-> acc = []
                /\ Forall (fun e => normalize_name (fst e) = []) raw) as H.
  { induction raw as [|[store payload] raw IH]; intros acc; cbn [fold_left].
    - split; [intros ->; split; constructor | tauto].
    - rewrite IH. cbn [fst snd].
      destruct (normalize_name store) as [|c n] eqn:E; simpl.
      + split; intros [Ha Hr]; (split; [exact Ha|]).
        * now constructor.
        * now inversion Hr.
      + split; intros [Ha Hr].
        * now apply dict_set_not_nil in Ha.
        * inversion Hr as [|? ? Hh _]. simpl in Hh. congruence. }
  rewrite H. tauto.
Qed.

(** X11.  [load_stores] never returns an empty catalog.  It returns the
    default catalog when the file is absent or unreadable, when the
    document is not an object, and when no key of the document
    normalizes to a non-empty store name (the empty object among them);
    in every other case it returns the converted document. *)
Theorem load_stores_fallback (rt : runtime) (file : option json) :
  load_stores rt file <> []
  /\ (match file with Some (JObject _) => False | _ => True end ->
      load_stores rt file = DEFAULT_STORES)
  /\ (forall raw, file = Some (JObject raw) ->
        Forall (fun e => normalize_name (fst e) = []) raw ->
        load_stores rt file = DEFAULT_STORES)
  /\ (forall raw, file = Some (JObject raw) ->
        Exists (fun e => normalize_name (fst e) <> []) raw ->
        load_stores rt file = convert_legacy_shape rt raw).
Proof.
  split; [|split; [|split]].
  - destruct file as [[s|t|l|raw]|]; simpl; try discriminate.
    destruct (convert_legacy_shape rt raw); discriminate.
  - destruct file as [[s|t|l|raw]|]; simpl; tauto.
  - intros raw -> H. apply convert_legacy_shape_nil_iff with (rt := rt) in H.
    simpl. now rewrite H.
  - intros raw -> H. simpl.
    destruct (convert_legacy_shape rt raw) eqn:E; [|reflexivity].
    exfalso. apply convert_legacy_shape_nil_iff in E.
    apply Exists_exists in H. destruct H as [e [He Hne]].
    rewrite Forall_forall in E. now apply Hne, E.
Qed.

(** ** Saving, then loading *)








(* ================================================================== *)
(** * The visit order, continued *)
(* ================================================================== *)

Lemma filter_implied (A : Type) (p q : A -> bool) (l : list A) :
  (forall x, In x l -> p x = true -> q x = true) ->
  filter p (filter q l) = filter p l.
Proof.
  intros H. induction l as [|x l IH]; [reflexivity|]. simpl.
  assert (forall y, In y l -> p y = true -> q y = true) as Hl
    by (intros y Hy; apply H; now right).
  destruct (q x) eqn:Eq; simpl.
  - destruct (p x); now rewrite IH.
  - destruct (p x) eqn:Ep; [|now apply IH].
    rewrite (H x (or_introl eq_refl) Ep) in Eq. discriminate.
Qed.

Lemma filter_swap (A : Type) (p q : A -> bool) (l : list A) :
  filter p (filter q l) = filter q (filter p l).
Proof.
  rewrite !filter_twice. apply filter_ext. intros x. apply andb_comm.
Qed.

Lemma first_occurrences_filter (p : pystr -> bool) (l : list pystr) :
  first_occurrences (filter p l) = filter p (first_occurrences l).
Proof.
  induction l as [|x l IH]; [reflexivity|]. simpl.
  destruct (p x) eqn:Ep; simpl; rewrite ?Ep, IH.
  - now rewrite filter_swap.
  - symmetry. apply filter_implied. intros y _ Hy.
    destruct (str_eqb x y) eqn:E; [|reflexivity].
    apply str_eqb_eq in E. congruence.
Qed.

Lemma first_occurrences_NoDup (l : list pystr) :
  NoDup l -> first_occurrences l = l.
Proof.
  induction 1 as [|x l Hx Hl IH]; [reflexivity|]. simpl. rewrite IH.
  f_equal. clear IH Hl. induction l as [|y l IH]; [reflexivity|].
  simpl in *. destruct (str_eqb x y) eqn:E.
  - apply str_eqb_eq in E. subst y. exfalso. apply Hx. now left.
  - simpl. f_equal. apply IH. tauto.
Qed.

Lemma first_occurrences_In (l : list pystr) (x : pystr) :
  In x (first_occurrences l) <-> In x l.
Proof.
  induction l as [|y l IH]; [reflexivity|]. simpl.
  rewrite filter_In, IH. split.
  - intros [H|[H _]]; auto.
  - intros [H|H]; [now left|].
    destruct (str_eqb y x) eqn:E; [left; now apply str_eqb_eq|].
    right. now split.
Qed.

(** What a de-duplicating loop appends: the first occurrences of the
    members not yet seen. *)
Lemma fold_visit_closed (l : list pystr) (st : list pystr * list pystr) :
  fst (fold_left visit l st)
  = fst st
      ++ first_occurrences (filter (fun x => negb (mem x (snd st))) l).
Proof.
  revert st. induction l as [|x l IH]; intros st; cbn [fold_left].
  - simpl. now rewrite app_nil_r.
  - rewrite IH. unfold visit. destruct (mem x (snd st)) eqn:E; simpl;
      rewrite E; simpl; [reflexivity|].
    rewrite <- app_assoc. simpl. do 2 f_equal.
    rewrite <- first_occurrences_filter, filter_twice.
    f_equal. apply filter_ext. intros y.
    rewrite (str_eqb_sym y x).
    destruct (str_eqb x y), (mem y (snd st)); reflexivity.
Qed.

Lemma fold_visit_seen (l : list pystr) (st : list pystr * list pystr)
    (x : pystr) :
  In x (snd (fold_left visit l st)) <-> In x (snd st) \/ In x l.
Proof.
  revert st. induction l as [|y l IH]; intros st; cbn [fold_left].
  - simpl. tauto.
  - rewrite IH. unfold visit. destruct (mem y (snd st)) eqn:E; simpl.
    + apply mem_In in E. split; [tauto|].
      intros [H|[<-|H]]; auto.
    + tauto.
Qed.

Lemma two_loops_closed (listed ks : list pystr) :
  NoDup ks ->
  fst (fold_left visit ks (fold_left visit listed ([], [])))
  = first_occurrences listed
      ++ filter (fun s => negb (mem s listed)) ks.
Proof.
  intros Hnd. rewrite fold_visit_closed, fold_visit_closed. simpl.
  f_equal.
  - f_equal. induction listed as [|x l IH]; [reflexivity|].
    simpl. now f_equal.
  - rewrite first_occurrences_NoDup.
    + apply filter_ext. intros s. f_equal.
      destruct (mem s listed) eqn:E.
      * apply mem_In. apply fold_visit_seen. right. now apply mem_In.
      * apply mem_not_In. intros H. apply fold_visit_seen in H.
        apply mem_not_In in E. simpl in H. tauto.
    + now apply NoDup_filter.
Qed.

Lemma append_missing_In (ks order : list pystr) (x : pystr) :
  In x (fold_left (fun order s => if mem s order then order else order ++ [s])
                  ks order)
  <-> In x order \/ In x ks.
Proof.
  revert order. induction ks as [|k ks IH]; intros order; cbn [fold_left].
  - simpl. tauto.
  - rewrite IH. destruct (mem k order) eqn:E.
    + apply mem_In in E. simpl. split; [tauto|].
      intros [H|[<-|H]]; auto.
    + rewrite in_app_iff. simpl. tauto.
Qed.

(** X13.  Whatever the order document holds, [load_store_order] returns
    a list whose members are exactly the stores of the catalog: no
    unknown name is kept and no store is missing. *)
Theorem load_store_order_members (rt : runtime) (file : option json)
    (stores : catalog) (x : pystr) :
  In x (load_store_order rt file stores) <-> In x (dict_keys stores).
Proof.
  unfold load_store_order. rewrite append_missing_In, sorted_In, filter_In.
  rewrite dict_mem_In. tauto.
Qed.



Lemma filter_all (A : Type) (p : A -> bool) (l : list A) :
  (forall x, In x l -> p x = true) -> filter p l = l.
Proof.
  induction l as [|x l IH]; intros H; [reflexivity|]. simpl.
  rewrite (H x (or_introl eq_refl)). f_equal. apply IH.
  intros y Hy. apply H. now right.
Qed.

Lemma filter_none (A : Type) (p : A -> bool) (l : list A) :
  (forall x, In x l -> p x = false) -> filter p l = [].
Proof.
  induction l as [|x l IH]; intros H; [reflexivity|]. simpl.
  rewrite (H x (or_introl eq_refl)). apply IH.
  intros y Hy. apply H. now right.
Qed.



(** X15.  [ordered_stores] returns first the stores named in the visit
    order, each at its first occurrence and unknown names skipped, then
    the stores the visit order does not name, sorted by lower-cased
    name. *)
Theorem ordered_stores_closed (V : Type) (store_order : list pystr)
    (stores : dict V) :
  dict_wf stores ->
  ordered_stores store_order stores
  = first_occurrences (filter (fun s => dict_mem s stores) store_order)
      ++ filter (fun s => negb (mem s store_order))
                (sorted lower (dict_keys stores)).
Proof.
  intros Hwf. unfold ordered_stores.
  rewrite (fold_visit_guarded (fun s => dict_mem s stores)).
  rewrite two_loops_closed by (apply sorted_NoDup, Hwf).
  f_equal. apply filter_ext_in. intros s Hs. f_equal.
  apply sorted_In, dict_mem_In in Hs.
  destruct (mem s store_order) eqn:E.
  - apply mem_In, filter_In. split; [now apply mem_In | exact Hs].
  - apply mem_not_In. intros H. apply filter_In in H.
    apply mem_not_In in E. tauto.
Qed.

Lemma ordered_stores_closed_witness :
  ordered_stores [py "Walmart"; py "Target"; py "Costco"; py "Walmart"]
                 DEFAULT_STORES
  = first_occurrences
      (filter (fun s => dict_mem s DEFAULT_STORES)
              [py "Walmart"; py "Target"; py "Costco"; py "Walmart"])
      ++ filter (fun s => negb (mem s [py "Walmart"; py "Target"; py "Costco";
                                       py "Walmart"]))
                (sorted lower (dict_keys DEFAULT_STORES)).
Proof.
  apply (@ordered_stores_closed _
           [py "Walmart"; py "Target"; py "Costco"; py "Walmart"]
           DEFAULT_STORES).
  apply concrete_NoDup. vm_compute. reflexivity.
Defined.

Lemma listed_exactly (listed ks : list pystr) :
  NoDup listed -> (forall s, In s ks -> In s listed) ->
  fst (fold_left visit ks (fold_left visit listed ([], []))) = listed.
Proof.
  intros Hnd Hall. rewrite fold_visit_closed, fold_visit_closed. simpl.
  rewrite (filter_all _ listed) by reflexivity.
  rewrite first_occurrences_NoDup by exact Hnd.
  rewrite filter_none; [now rewrite app_nil_r|].
  intros s Hs. apply negb_false_iff, mem_In, fold_visit_seen.
  right. now apply Hall.
Qed.

(** X16.  When the visit order lists exactly the stores, each once,
    [ordered_stores] returns the visit order itself. *)
Theorem ordered_stores_follows_order (V : Type) (store_order : list pystr)
    (stores : dict V) :
  NoDup store_order ->
  (forall x, In x store_order <-> In x (dict_keys stores)) ->
  ordered_stores store_order stores = store_order.
Proof.
  intros Hnd Hsame. unfold ordered_stores.
  rewrite (fold_visit_guarded (fun s => dict_mem s stores)).
  rewrite filter_all by (intros s Hs; now apply dict_mem_In, Hsame).
  apply listed_exactly; [exact Hnd|].
  intros s Hs. apply sorted_In in Hs. now apply Hsame.
Qed.

Lemma ordered_stores_follows_order_witness :
  ordered_stores [py "Marianos"; py "Costco"; py "Indian Store"; py "Walmart"]
                 DEFAULT_STORES
  = [py "Marianos"; py "Costco"; py "Indian Store"; py "Walmart"].
Proof.
  apply (@ordered_stores_follows_order _
           [py "Marianos"; py "Costco"; py "Indian Store"; py "Walmart"]
           DEFAULT_STORES).
  - apply concrete_NoDup. vm_compute. reflexivity.
  - intros x. simpl. intuition.
Defined.

(** X17.  [parse_store_order_text] returns first the lines that name a
    store, normalized, each at its first occurrence, then the stores no
    such line names, sorted by lower-cased name. *)
Theorem parse_store_order_text_closed (V : Type) (text : pystr)
    (stores : dict V) :
  dict_wf stores ->
  let lines := filter (fun x => truthy x && dict_mem x stores)
                      (map normalize_name (splitlines text)) in
  parse_store_order_text text stores
  = first_occurrences lines
      ++ filter (fun s => negb (mem s lines)) (sorted lower (dict_keys stores)).
Proof.
  intros Hwf lines. unfold parse_store_order_text. fold lines.
  apply two_loops_closed, sorted_NoDup, Hwf.
Qed.

Lemma parse_store_order_text_closed_witness :
  let text := py "Walmart" ++ nl ++ py "Target" ++ nl ++ nl
              ++ py "  Costco " ++ nl ++ py "Walmart" in
  let lines := filter (fun x => truthy x && dict_mem x DEFAULT_STORES)
                      (map normalize_name (splitlines text)) in
  parse_store_order_text text DEFAULT_STORES
  = first_occurrences lines
      ++ filter (fun s => negb (mem s lines))
                (sorted lower (dict_keys DEFAULT_STORES)).
Proof.
  intros text.
  apply (@parse_store_order_text_closed _ text DEFAULT_STORES).
  apply concrete_NoDup. vm_compute. reflexivity.
Defined.

Lemma is_linebreak_isspace (c : N) :
  is_linebreak c = true -> isspace c = true /\ c <> 32%N.
Proof.
  unfold is_linebreak, isspace.
  rewrite !orb_true_iff, !andb_true_iff, !N.leb_le, !N.eqb_eq. lia.
Qed.

Lemma clean_name_no_linebreak (k : pystr) :
  clean_name k -> Forall (fun c => is_linebreak c = false) k.
Proof.
  intros [_ Hn]. unfold normalized in Hn. rewrite <- Hn.
  pose proof (@split_ws_aux_words [] (strip k) (Forall_nil _)) as Hw.
  fold (split_ws (strip k)) in Hw. apply join_space_chars in Hw.
  fold (normalize_name k) in Hw.
  eapply Forall_impl; [|exact Hw]. intros c Hc.
  destruct (is_linebreak c) eqn:E; [|reflexivity].
  apply is_linebreak_isspace in E. destruct E as [Hs Hne].
  now apply Hc in Hs.
Qed.

Lemma splitlines_aux_word (w cur rest : pystr) :
  Forall (fun c => is_linebreak c = false) w ->
  splitlines_aux false cur (w ++ rest)
  = splitlines_aux false (rev w ++ cur) rest.
Proof.
  revert cur. induction w as [|c w IH]; intros cur Hw; [reflexivity|].
  inversion Hw as [|? ? Hc Hw']; subst. simpl. rewrite Hc.
  rewrite IH by exact Hw'. now rewrite <- app_assoc.
Qed.

(** Non-empty lines without line breaks, joined by line feeds, split
    back into the same lines. *)
Lemma splitlines_join (ws : list pystr) :
  Forall (fun w => w <> [] /\ Forall (fun c => is_linebreak c = false) w) ws ->
  splitlines (join nl ws) = ws.
Proof.
  unfold splitlines.
  induction ws as [|w ws IH]; intros Hall; [reflexivity|].
  inversion Hall as [|? ? [Hne Hw] Hrest]; subst.
  assert (truthy (rev w) = true) as Ht.
  { destruct w; [congruence|]. simpl. now destruct (rev w). }
  destruct ws as [|w2 ws].
  - simpl. rewrite <- (app_nil_r w) at 1.
    rewrite splitlines_aux_word by exact Hw. simpl. rewrite app_nil_r.
    now rewrite Ht, rev_involutive.
  - change (join nl (w :: w2 :: ws)) with (w ++ 10%N :: join nl (w2 :: ws)).
    rewrite splitlines_aux_word by exact Hw. rewrite app_nil_r.
    cbn [splitlines_aux andb]. change (is_linebreak 10) with true.
    cbv iota. change (10 =? 13)%N with false.
    now rewrite rev_involutive, IH.
Qed.

(** X18.  The text the order box shows, the visit order with one store
    per line, parses back to the visit order: when the order lists
    exactly the stores, each once and by its clean name,
    [parse_store_order_text] of the names joined by line feeds is the
    order itself. *)
Theorem parse_joined_order (V : Type) (order : list pystr) (stores : dict V) :
  Forall clean_name order -> NoDup order ->
  (forall x, In x order <-> In x (dict_keys stores)) ->
  parse_store_order_text (join nl order) stores = order.
Proof.
  intros Hclean Hnd Hsame. unfold parse_store_order_text.
  rewrite splitlines_join.
  - assert (map normalize_name order = order) as ->.
    { clear Hnd Hsame. induction Hclean as [|k order [_ Hk] _ IH];
        [reflexivity|]. simpl. now rewrite Hk, IH. }
    rewrite filter_all.
    + apply listed_exactly; [exact Hnd|].
      intros s Hs. apply sorted_In in Hs. now apply Hsame.
    + intros s Hs. apply andb_true_iff. split.
      * rewrite Forall_forall in Hclean. destruct (Hclean s Hs) as [Hne _].
        now destruct s.
      * now apply dict_mem_In, Hsame.
  - eapply Forall_impl; [|exact Hclean]. intros k Hk. split; [apply Hk|].
    now apply clean_name_no_linebreak.
Qed.

Lemma parse_joined_order_witness :
  parse_store_order_text
    (join nl [py "Marianos"; py "Costco"; py "Indian Store"; py "Walmart"])
    DEFAULT_STORES
  = [py "Marianos"; py "Costco"; py "Indian Store"; py "Walmart"].
Proof.
  apply (@parse_joined_order _
           [py "Marianos"; py "Costco"; py "Indian Store"; py "Walmart"]
           DEFAULT_STORES).
  - repeat constructor; (discriminate || (vm_compute; reflexivity)).
  - apply concrete_NoDup. vm_compute. reflexivity.
  - intros x. simpl. intuition.
Defined.

(* ================================================================== *)
(** * The helpers of the user interface *)
(* ================================================================== *)

Lemma firstn_add (A : Type) (a b : nat) (l : list A) :
  firstn (a + b) l = firstn a l ++ firstn b (skipn a l).
Proof.
  revert l. induction a as [|a IH]; intros l; [reflexivity|].
  destruct l as [|x l]; simpl; [now rewrite firstn_nil | now rewrite IH].
Qed.

Lemma concat_chunks (A : Type) (items : list A) (step m : nat) :
  concat (map (fun k => firstn step (skipn (k * step) items)) (seq 0 m))
  = firstn (m * step) items.
Proof.
  induction m as [|m IH]; [reflexivity|].
  rewrite seq_S, map_app, concat_app, IH. simpl. rewrite app_nil_r.
  rewrite (Nat.add_comm step), firstn_add. reflexivity.
Qed.

Lemma range_length_covers (stop step : nat) :
  0 < step -> stop <= range_length stop step * step.
Proof.
  intros H. unfold range_length.
  pose proof (Nat.div_mod_eq (stop + step - 1) step) as E.
  pose proof (Nat.mod_upper_bound (stop + step - 1) step) as B. nia.
Qed.

Lemma range_length_tight (stop step k : nat) :
  0 < step -> k < range_length stop step -> k * step < stop.
Proof.
  intros H Hk. unfold range_length in Hk.
  pose proof (Nat.div_mod_eq (stop + step - 1) step) as E. nia.
Qed.

(** X19.  [chunk_list] with a positive size cuts the list into
    consecutive pieces that give the list back when concatenated; no
    piece is empty or longer than the size, and every piece but the last
    has exactly the size.  A size of zero is an error, and a negative
    size gives no piece at all. *)
Theorem chunk_list_spec (A : Type) (items : list A) (n : Z) :
  chunk_list items 0 = None
  /\ ((n < 0)%Z -> chunk_list items n = Some [])
  /\ ((0 < n)%Z ->
      exists chunks,
        chunk_list items n = Some chunks
        /\ concat chunks = items
        /\ Forall (fun c => c <> [] /\ length c <= Z.to_nat n) chunks
        /\ forall k c, nth_error chunks k = Some c ->
                       k + 1 < length chunks -> length c = Z.to_nat n).
Proof.
  split; [reflexivity|]. split.
  - intros H. unfold chunk_list.
    destruct (n =? 0)%Z eqn:E0; [apply Z.eqb_eq in E0; lia|].
    destruct (n <? 0)%Z eqn:E1; [reflexivity | apply Z.ltb_ge in E1; lia].
  - intros H. unfold chunk_list.
    destruct (n =? 0)%Z eqn:E0; [apply Z.eqb_eq in E0; lia|].
    destruct (n <? 0)%Z eqn:E1; [apply Z.ltb_lt in E1; lia|].
    set (step := Z.to_nat n). assert (0 < step) as Hstep by (subst step; lia).
    set (m := range_length (length items) step).
    eexists. split; [reflexivity|]. split; [|split].
    + rewrite concat_chunks. apply firstn_all2.
      now apply range_length_covers.
    + apply Forall_forall. intros c Hc. apply in_map_iff in Hc.
      destruct Hc as [k [<- Hk]]. apply in_seq in Hk.
      assert (k * step < length items) as Hlt
        by (apply range_length_tight; [exact Hstep | lia]).
      split.
      * intros Hnil. apply (f_equal (@length A)) in Hnil.
        rewrite length_firstn, length_skipn in Hnil. simpl in Hnil. lia.
      * rewrite length_firstn. lia.
    + intros k c Hc Hk. rewrite length_map, length_seq in Hk.
      rewrite nth_error_map, nth_error_seq in Hc.
      destruct (k <? m) eqn:Ekm; [|discriminate]. simpl in Hc.
      injection Hc as <-.
      assert ((k + 1) * step < length items) as Hlt
        by (apply range_length_tight; [exact Hstep | exact Hk]).
      rewrite length_firstn, length_skipn. lia.
Qed.

(** Lowering a string lowers its parts in place: what comes before a
    part is lowered on its own terms. *)
Lemma lower_from_app (a s ctx : pystr) :
  exists pre, lower_from ctx (a ++ s) = pre ++ lower_from (rev a ++ ctx) s.
Proof.
  revert ctx. induction a as [|c a IH]; intros ctx.
  - now exists [].
  - destruct (IH (c :: ctx)) as [pre Hpre]. cbn [app lower_from rev].
    rewrite Hpre, <- app_assoc. cbn [app]. rewrite app_assoc. now eexists.
Qed.

(** Only the image of a capital sigma depends on the code points
    around it. *)
Lemma lower_from_plain (w s ctx : pystr) :
  ~ In 931%N w ->
  lower_from ctx (w ++ s)
  = concat (map to_lower_full w) ++ lower_from (rev w ++ ctx) s.
Proof.
  revert ctx. induction w as [|c w IH]; intros ctx Hw; [reflexivity|].
  cbn [app lower_from map concat rev].
  destruct (N.eqb_spec c 931) as [-> | Hc]; [exfalso; apply Hw; now left|].
  rewrite IH by (intros H; apply Hw; now right).
  now rewrite <- !app_assoc.
Qed.

Lemma lower_from_sigma (w ctx : pystr) :
  In 931%N w -> In 962%N (lower_from ctx w) \/ In 963%N (lower_from ctx w).
Proof.
  revert ctx. induction w as [|c w IH]; intros ctx Hw; [destruct Hw|].
  cbn [lower_from]. destruct (N.eqb_spec c 931) as [-> | Hc].
  - unfold handle_capital_sigma. cbv zeta.
    match goal with
    | |- context [if ?b then 962%N else 963%N] => destruct b
    end; [left | right]; now left.
  - destruct Hw as [Hw | Hw]; [congruence|].
    destruct (IH (c :: ctx) Hw) as [H | H]; [left | right];
      apply in_or_app; now right.
Qed.

(** A word whose lower-cased form holds no sigma is lowered to that form
    wherever it stands. *)
Lemma lower_inside (before word after target : pystr) :
  lower word = target -> ~ In 962%N target -> ~ In 963%N target ->
  exists pre post, lower (before ++ word ++ after) = pre ++ target ++ post.
Proof.
  intros H H2 H3.
  assert (~ In 931%N word) as Hw.
  { intros Hin. destruct (@lower_from_sigma word [] Hin) as [G | G];
      unfold lower in H; rewrite H in G; contradiction. }
  assert (concat (map to_lower_full word) = target) as Ht.
  { rewrite <- H. unfold lower. rewrite <- (app_nil_r word) at 2.
    rewrite lower_from_plain by exact Hw. cbn [lower_from].
    now rewrite app_nil_r. }
  unfold lower. destruct (lower_from_app before (word ++ after) []) as [pre ->].
  rewrite lower_from_plain by exact Hw. rewrite Ht. now eexists _, _.
Qed.

Lemma starts_with_app (needle rest : pystr) :
  starts_with needle (needle ++ rest) = true.
Proof.
  induction needle as [|c needle IH]; [reflexivity|].
  simpl. now rewrite N.eqb_refl.
Qed.

Lemma contains_app (needle before after : pystr) :
  contains needle (before ++ needle ++ after) = true.
Proof.
  induction before as [|c before IH].
  - pose proof (starts_with_app needle after) as H. cbn [app].
    destruct (needle ++ after); cbn [contains]; now rewrite H.
  - cbn [app contains]. rewrite IH. apply orb_true_r.
Qed.

(** X20.  A store whose name holds the word costco, in any mix of upper
    and lower case and whatever stands around it, gets the colour
    [#D62828]. *)
Theorem store_color_costco (before word after : pystr) :
  lower word = py "costco" ->
  store_color (before ++ word ++ after) = py "#D62828".
Proof.
  intros H.
  destruct (@lower_inside before word after (py "costco") H)
    as [pre [post E]].
  - cbn. intuition discriminate.
  - cbn. intuition discriminate.
  - unfold store_color. cbv zeta. rewrite E. now rewrite contains_app.
Qed.

Lemma store_color_costco_witness :
  store_color (py "My " ++ py "CostCo" ++ py " Wholesale (Walmart side)")
  = py "#D62828".
Proof.
  apply (@store_color_costco (py "My ") (py "CostCo")
           (py " Wholesale (Walmart side)")).
  reflexivity.
Defined.

(* ================================================================== *)
(** * The list formatter, continued *)
(* ================================================================== *)

Lemma lstrip_stops (a b : pystr) (c : N) :
  isspace c = false -> exists a', lstrip (a ++ c :: b) = a' ++ c :: b.
Proof.
  intros Hc. induction a as [|d a [a' IH]].
  - exists []. simpl. now rewrite Hc.
  - simpl. destruct (isspace d); [now exists a'|].
    now exists (d :: a).
Qed.

(** Stripping leaves a prefix alone that starts and ends with code
    points that are not whitespace. *)
Lemma strip_keeps_prefix (p rest : pystr) (c1 c2 : N) (p1 p2 : pystr) :
  p = c1 :: p1 -> isspace c1 = false ->
  p = p2 ++ [c2] -> isspace c2 = false ->
  exists rest', strip (p ++ rest) = p ++ rest'.
Proof.
  intros H1 Hc1 H2 Hc2. unfold strip, rstrip.
  assert (lstrip (p ++ rest) = p ++ rest) as ->
    by (rewrite H1; simpl; now rewrite Hc1).
  assert (rev p = c2 :: rev p2) as Hrev
    by (rewrite H2, rev_app_distr; reflexivity).
  destruct (@lstrip_stops (rev rest) (rev p2) c2 Hc2) as [a' Ha].
  exists (rev a'). rewrite rev_app_distr, Hrev, Ha, <- Hrev.
  now rewrite rev_app_distr, rev_involutive.
Qed.

(** X21.  Whatever is selected, the text of the formatter starts with
    [Shopping List -]; in particular it is never empty, also when
    nothing is selected. *)
Theorem format_text_starts_with_title (rt : runtime) (today : pystr)
    (selected : catalog) (store_order : list pystr) :
  exists rest,
    format_shopping_list_for_whatsapp rt today selected store_order
    = py "Shopping List -" ++ rest.
Proof.
  unfold format_shopping_list_for_whatsapp. rewrite format_lines_blocks.
  set (blocks := flat_map _ _).
  change (join nl ((py "Shopping List - " ++ today) :: [] :: blocks))
    with (py "Shopping List -"
            ++ (32%N :: today ++ nl ++ join nl ([] :: blocks))).
  eapply strip_keeps_prefix with (c1 := 83%N) (c2 := 45%N)
    (p2 := py "Shopping List "); reflexivity.
Qed.

Lemma flat_map_nil (A B : Type) (f : A -> list B) (l : list A) :
  (forall x, In x l -> f x = []) -> flat_map f l = [].
Proof.
  induction l as [|x l IH]; intros H; [reflexivity|]. simpl.
  rewrite (H x (or_introl eq_refl)). apply IH.
  intros y Hy. apply H. now right.
Qed.

(** X22.  When no store of the selection holds an item with a non-empty
    normalized name, the formatter emits the date line and a blank line
    only, and for a date text that ends with a code point that is not
    whitespace the text returned is the date line alone. *)
Theorem format_empty_selection (rt : runtime) (today : pystr)
    (selected : catalog) (store_order : list pystr) :
  (forall store cats cat items x,
      dict_get store selected = Some cats ->
      dict_get cat cats = Some items ->
      In x items -> normalize_name x = []) ->
  format_lines rt today selected store_order
  = [py "Shopping List - " ++ today; []]
  /\ (forall pre c, today = pre ++ [c] -> isspace c = false ->
        format_shopping_list_for_whatsapp rt today selected store_order
        = py "Shopping List - " ++ today).
Proof.
  intros Hnone.
  assert (format_lines rt today selected store_order
          = [py "Shopping List - " ++ today; []]) as Hlines.
  { rewrite format_lines_blocks. do 2 f_equal. apply flat_map_nil.
    intros store Hs. apply ordered_stores_spec, dict_mem_In in Hs.
    apply dict_mem_get in Hs. destruct Hs as [cats Hs].
    unfold store_block, dict_get_or. unalias. rewrite Hs.
    assert (store_items rt cats = []) as ->; [|reflexivity].
    unfold store_items. rewrite filter_none;
      [cbn [map]; now rewrite set_iter_nil|].
    intros x Hx. apply in_flat_map in Hx. destruct Hx as [cat [Hcat Hx]].
    apply dict_mem_In, dict_mem_get in Hcat. destruct Hcat as [items Hc].
    unfold dict_get_or in Hx. unalias. rewrite Hc in Hx.
    now rewrite (Hnone store cats cat items x Hs Hc Hx). }
  split; [exact Hlines|].
  intros pre c Ht Hc. unfold format_shopping_list_for_whatsapp.
  rewrite Hlines. cbn [join]. rewrite app_nil_r.
  eapply strip_clean with (c1 := 83%N) (c2 := c)
    (p := py "Shopping List - " ++ pre);
    [reflexivity | reflexivity | | exact Hc | repeat constructor].
  rewrite Ht. now rewrite <- app_assoc.
Qed.

Lemma format_empty_selection_witness :
  format_lines insertion_order_runtime (py "Feb 21, 2026")
    [(py "Walmart", [(py "Produce", []); (py "Dairy", [py "   "])])]
    [py "Costco"; py "Walmart"]
  = [py "Shopping List - " ++ py "Feb 21, 2026"; []]
  /\ (forall pre c, py "Feb 21, 2026" = pre ++ [c] -> isspace c = false ->
        format_shopping_list_for_whatsapp insertion_order_runtime
          (py "Feb 21, 2026")
          [(py "Walmart", [(py "Produce", []); (py "Dairy", [py "   "])])]
          [py "Costco"; py "Walmart"]
        = py "Shopping List - " ++ py "Feb 21, 2026").
Proof.
  apply (@format_empty_selection insertion_order_runtime (py "Feb 21, 2026")
           [(py "Walmart", [(py "Produce", []); (py "Dairy", [py "   "])])]
           [py "Costco"; py "Walmart"]).
  intros store cats cat items x Hs Hc Hx.
  cbn [dict_get] in Hs.
  destruct (str_eqb store (py "Walmart")); [|discriminate].
  injection Hs as <-. cbn [dict_get] in Hc.
  destruct (str_eqb cat (py "Produce")); [injection Hc as <-; destruct Hx|].
  destruct (str_eqb cat (py "Dairy")); [|discriminate].
  injection Hc as <-. destruct Hx as [<-|[]]. reflexivity.
Defined.

(** X23.  The items the formatter lists for a store are sorted by
    lower-cased name and free of duplicates, and they are exactly the
    non-empty normalized names of the items of the store's categories:
    an item chosen under two categories of one store is listed once. *)
Theorem store_items_spec (rt : runtime) (cat_map : category_map) :
  StronglySorted (key_le lower) (store_items rt cat_map)
  /\ NoDup (store_items rt cat_map)
  /\ forall x,
       In x (store_items rt cat_map)
       <-> x <> []
           /\ exists cat items y,
                dict_get cat cat_map = Some items
                /\ In y items /\ normalize_name y = x.
Proof.
  unfold store_items.
  split; [apply sorted_sorted|].
  split; [apply sorted_NoDup, set_iter_nodup|].
  intros x. rewrite sorted_In, set_iter_in, in_map_iff. split.
  - intros [y [<- Hy]]. apply filter_In in Hy. destruct Hy as [Hy Ht].
    split; [intros H; rewrite H in Ht; discriminate|].
    apply in_flat_map in Hy. destruct Hy as [cat [Hcat Hy]].
    apply dict_mem_In, dict_mem_get in Hcat. destruct Hcat as [items Hc].
    unfold dict_get_or in Hy. rewrite Hc in Hy. now exists cat, items, y.
  - intros [Hne [cat [items [y [Hc [Hy <-]]]]]]. exists y.
    split; [reflexivity|]. apply filter_In. split.
    + apply in_flat_map. exists cat. split.
      * apply dict_mem_In. eapply dict_get_Some_mem; eauto.
      * unfold dict_get_or. now rewrite Hc.
    + now destruct (normalize_name y).
Qed.

Lemma block_headers (rt : runtime) (selected : catalog) (store : pystr) :
  filter starts_with_star (store_block rt selected store)
  = if has_items rt selected store then [header_line store] else [].
Proof.
  unfold has_items.
  destruct (store_block_shape rt selected store) as [[He ->]|[Hne ->]].
  - now rewrite He.
  - destruct (store_items rt (dict_get_or store [] selected)) as [|it its];
      [congruence|].
    cbn [filter]. change (starts_with_star (header_line store))
      with true. cbv iota.
    destruct (underline_line_head store) as [rest ->].
    cbn [starts_with_star]. change (8218 =? 42)%N with false. cbv iota.
    f_equal. rewrite filter_app. cbn [filter starts_with_star app].
    rewrite app_nil_r. apply filter_none.
    intros l Hl. apply in_map_iff in Hl. destruct Hl as [i [<- _]].
    reflexivity.
Qed.

(** X24.  Each store of the selection that has an item to list gets one
    header line, and the header lines come in the display order of
    [ordered_stores]: among the lines of the formatter, those that start
    with an asterisk are the headers of these stores, in that order. *)
Theorem format_headers_in_order (rt : runtime) (today : pystr)
    (selected : catalog) (store_order : list pystr) :
  filter starts_with_star (format_lines rt today selected store_order)
  = map header_line
        (filter (has_items rt selected)
                (ordered_stores store_order selected)).
Proof.
  rewrite format_lines_blocks. cbn [filter].
  change (starts_with_star (py "Shopping List - " ++ today)) with false.
  change (starts_with_star []) with false. cbv iota.
  induction (ordered_stores store_order selected) as [|st sts IH];
    [reflexivity|].
  cbn [flat_map filter]. rewrite filter_app, IH, block_headers.
  now destruct (has_items rt selected st).
Qed.

(* ================================================================== *)
(** * Selection reconciliation, continued *)
(* ================================================================== *)

Lemma setdefault_fold_id (V : Type) (v0 : V) (ks : list pystr) (d : dict V) :
  (forall c, In c ks -> dict_mem c d = true) ->
  fold_left (fun acc c => dict_setdefault c v0 acc) ks d = d.
Proof.
  induction ks as [|k ks IH]; intros H; [reflexivity|].
  cbn [fold_left]. unfold dict_setdefault at 2.
  rewrite (H k (or_introl eq_refl)). apply IH.
  intros c Hc. apply H. now right.
Qed.

Lemma dict_setdefault_present (V : Type) (k : pystr) (v v0 : V) (d : dict V) :
  dict_get k d = Some v -> dict_setdefault k v0 d = d.
Proof.
  intros H. unfold dict_setdefault. now rewrite (dict_get_Some_mem _ _ H).
Qed.

Lemma dict_get_or_present (V : Type) (k : pystr) (v v0 : V) (d : dict V) :
  dict_get k d = Some v -> dict_get_or k v0 d = v.
Proof. intros H. unfold dict_get_or. now rewrite H. Qed.

Lemma align_store_fixed (stores : catalog) (sel : selection) (s : pystr) :
  In s (dict_keys stores) -> aligned stores sel ->
  align_store stores sel s = sel.
Proof.
  intros Hs [_ Hal]. destruct (Hal s Hs) as [inner [Hg [Hin Hkeys]]].
  pose proof (@dict_setdefault_present _ s inner [] sel Hg) as E1.
  pose proof (@dict_get_or_present _ s inner [] sel Hg) as E2.
  pose proof (@setdefault_fold_id _ []
                (dict_keys (dict_get_or s [] stores)) inner Hkeys) as E3.
  pose proof (prune_keys (fun k => dict_mem k (dict_get_or s [] stores))
                         inner) as E4.
  cbv beta in E4.
  pose proof (dict_set_same_value _ _ Hg) as E5.
  unfold align_store. unalias.
  rewrite filter_all in E4 by exact Hin.
  rewrite E1, E2, E3, E4. exact E5.
Qed.

Lemma reconcile_fixed (stores : catalog) (sel : selection) :
  aligned stores sel -> reconcile stores sel = sel.
Proof.
  intros Hal. unfold reconcile.
  assert (drop_stale_stores stores sel = sel) as ->.
  { unfold drop_stale_stores.
    rewrite (prune_keys (fun k => dict_mem k stores)).
    apply filter_all. apply Hal. }
  assert (forall ks, (forall s, In s ks -> In s (dict_keys stores)) ->
                     fold_left (align_store stores) ks sel = sel) as H.
  { induction ks as [|k ks IH]; intros Hks; [reflexivity|].
    cbn [fold_left]. rewrite align_store_fixed;
      [|apply Hks; now left | exact Hal].
    apply IH. intros s Hs. apply Hks. now right. }
  now apply H.
Qed.

Lemma reconcile_aligned (stores : catalog) (selected : selection) :
  aligned stores (reconcile stores selected).
Proof.
  split.
  - intros e He. rewrite <- (reconcile_stores stores selected).
    apply dict_mem_In, in_map_iff. now exists e.
  - intros s Hs. apply dict_mem_In, dict_mem_get in Hs.
    destruct Hs as [cats Hs].
    destruct (@reconcile_settled stores selected s cats Hs)
      as [inner [Hi Hc]].
    exists inner. split; [exact Hi|]. split.
    + intros c Hin.
      assert (dict_mem (fst c) inner = true) as Hm
        by (apply dict_mem_In, in_map_iff; now exists c).
      rewrite (dict_mem_get_bool (fst c) inner), Hc in Hm.
      now destruct (dict_mem (fst c) (dict_get_or s [] stores)).
    + intros c Hin. apply dict_mem_In in Hin.
      rewrite (dict_mem_get_bool c inner), Hc. unalias. now rewrite Hin.
Qed.

(** X25.  The reconciliation block is idempotent: running it a second
    time on its own result changes nothing. *)
Theorem reconcile_idempotent (stores : catalog) (selected : selection) :
  reconcile stores (reconcile stores selected) = reconcile stores selected.
Proof. apply reconcile_fixed, reconcile_aligned. Qed.

(* ================================================================== *)
(** * The session *)
(* ================================================================== *)

(** ** How the chosen sets read after an update *)

Lemma chosen_unfold (sel : selection) (s c : pystr) :
  chosen sel s c
  = match dict_get s sel with
    | Some inner => match dict_get c inner with
                    | Some v => v
                    | None => []
                    end
    | None => []
    end.
Proof. unfold chosen, dict_get_or. unalias. now destruct (dict_get s sel). Qed.

Lemma chosen_set (sel : selection) (s : pystr) (inner : dict pyset)
    (s' c' : pystr) :
  chosen (dict_set s inner sel) s' c'
  = if str_eqb s' s then dict_get_or c' [] inner else chosen sel s' c'.
Proof.
  rewrite !chosen_unfold. destruct (str_eqb s' s) eqn:E.
  - apply str_eqb_eq in E. subst s'. now rewrite dict_get_set_same.
  - apply str_eqb_neq in E. now rewrite dict_get_set_other.
Qed.

Lemma chosen_absent (sel : selection) (s c : pystr) :
  dict_get s sel = None -> chosen sel s c = [].
Proof. intros H. rewrite chosen_unfold. unalias. now rewrite H. Qed.

Lemma chosen_present (sel : selection) (s c : pystr) (inner : dict pyset) :
  dict_get s sel = Some inner -> chosen sel s c = dict_get_or c [] inner.
Proof.
  intros H. rewrite chosen_unfold. unfold dict_get_or. unalias.
  now rewrite H.
Qed.

Section ChosenSets.

Implicit Types (inner : dict pyset) (c : pystr).

Lemma get_or_set inner c (v : pyset) c' :
  dict_get_or c' [] (dict_set c v inner)
  = if str_eqb c' c then v else dict_get_or c' [] inner.
Proof.
  unfold dict_get_or. destruct (str_eqb c' c) eqn:E.
  - apply str_eqb_eq in E. subst c'. now rewrite dict_get_set_same.
  - apply str_eqb_neq in E. now rewrite dict_get_set_other.
Qed.

Lemma get_or_del inner c c' :
  dict_get_or c' [] (dict_del c inner)
  = if str_eqb c' c then [] else dict_get_or c' [] inner.
Proof.
  unfold dict_get_or. destruct (str_eqb c' c) eqn:E.
  - apply str_eqb_eq in E. subst c'. now rewrite dict_get_del_same.
  - apply str_eqb_neq in E. now rewrite dict_get_del_other.
Qed.

Lemma get_or_setdefault inner c c' :
  dict_get_or c' [] (dict_setdefault c [] inner) = dict_get_or c' [] inner.
Proof.
  unfold dict_setdefault. unalias.
  destruct (dict_mem c inner) eqn:E; [reflexivity|].
  pose proof (get_or_set inner c [] c') as G. unalias. rewrite G.
  destruct (str_eqb c' c) eqn:F; [|reflexivity].
  apply str_eqb_eq in F. subst c'. apply dict_get_None in E.
  unfold dict_get_or. now rewrite E.
Qed.

End ChosenSets.

Lemma chosen_del (sel : selection) (s s' c' : pystr) :
  chosen (dict_del s sel) s' c'
  = if str_eqb s' s then [] else chosen sel s' c'.
Proof.
  rewrite !chosen_unfold. destruct (str_eqb s' s) eqn:E.
  - apply str_eqb_eq in E. subst s'. now rewrite dict_get_del_same.
  - apply str_eqb_neq in E. now rewrite dict_get_del_other.
Qed.

Lemma chosen_reconcile (stores : catalog) (sel : selection) (s c : pystr) :
  chosen (reconcile stores sel) s c
  = match dict_get s stores with
    | Some cats => if dict_mem c cats then chosen sel s c else []
    | None => []
    end.
Proof.
  destruct (dict_get s stores) as [cats|] eqn:Hs.
  - destruct (@reconcile_settled stores sel s cats Hs) as [inner [Hi Hc]].
    rewrite (@chosen_present _ s c inner Hi). unfold dict_get_or at 1.
    rewrite Hc.
    assert (dict_get_or s [] stores = cats) as ->
      by (unfold dict_get_or; unalias; now rewrite Hs).
    now destruct (dict_mem c cats).
  - apply chosen_absent. apply dict_get_None.
    rewrite reconcile_stores. now apply dict_get_None.
Qed.

Lemma category_items_Some (stores : catalog) (s c : pystr)
    (items : list pystr) :
  category_items stores s c = Some items <->
  exists cats, dict_get s stores = Some cats /\ dict_get c cats = Some items.
Proof.
  unfold category_items. destruct (dict_get s stores) as [cats|].
  - split; [intros H; now exists cats | now intros [? [[= <-] H]]].
  - split; [discriminate | now intros [? [? ?]]].
Qed.

(** What remains to show after an action: the chosen items lie within
    the item lists of the new catalog.  The next run's reconciliation
    does the rest. *)
Lemma next_run_ok (stores : catalog) (sel : selection) :
  (forall s c x items,
      category_items stores s c = Some items ->
      In x (chosen sel s c) -> In x items) ->
  session_ok stores (reconcile stores sel).
Proof.
  intros H. split; [apply reconcile_aligned|].
  intros s c x Hx. rewrite chosen_reconcile in Hx.
  destruct (dict_get s stores) as [cats|] eqn:Hs; [|destruct Hx].
  destruct (dict_mem c cats) eqn:Hm; [|destruct Hx].
  apply dict_mem_get in Hm. destruct Hm as [items Hc].
  assert (category_items stores s c = Some items) as Hci
    by (apply category_items_Some; now exists cats).
  exists items. split; [exact Hci|]. now apply (H s c x items).
Qed.

Lemma session_ok_within (stores : catalog) (sel : selection)
    (s c x : pystr) (items : list pystr) :
  session_ok stores sel ->
  category_items stores s c = Some items ->
  In x (chosen sel s c) -> In x items.
Proof.
  intros [_ Hw] Hci Hx. destruct (Hw s c x Hx) as [items' [Hci' Hin]].
  congruence.
Qed.

(** In an aligned selection nothing is chosen outside the catalog. *)
Lemma aligned_outside (stores : catalog) (sel : selection) (s c : pystr) :
  aligned stores sel -> category_items stores s c = None ->
  chosen sel s c = [].
Proof.
  intros [Hin Hal] Hnone. rewrite chosen_unfold.
  destruct (dict_get s sel) as [inner|] eqn:Hsel; [|reflexivity].
  destruct (dict_get c inner) as [v|] eqn:Hc; [|reflexivity].
  exfalso. unfold category_items in Hnone.
  destruct (dict_get s stores) as [cats|] eqn:Hs.
  - assert (In s (dict_keys stores)) as Hk
      by (apply dict_mem_In; eapply dict_get_Some_mem; eauto).
    destruct (Hal s Hk) as [inner' [Hg [Hsub _]]].
    assert (inner' = inner) by congruence. subst inner'.
    apply dict_get_In in Hc. apply Hsub in Hc. cbn [fst] in Hc.
    assert (dict_get_or s [] stores = cats) as E
      by (unfold dict_get_or; unalias; now rewrite Hs).
    rewrite E in Hc. apply dict_get_None in Hnone. congruence.
  - apply dict_get_In in Hsel. apply Hin in Hsel. cbn [fst] in Hsel.
    apply dict_get_None in Hs. congruence.
Qed.

(** ** How the catalog reads after an action *)

Lemma category_items_set (stores : catalog) (s0 : pystr)
    (cats : category_map) (s c : pystr) :
  category_items (dict_set s0 cats stores) s c
  = if str_eqb s s0 then dict_get c cats else category_items stores s c.
Proof.
  unfold category_items. destruct (str_eqb s s0) eqn:E.
  - apply str_eqb_eq in E. subst s. unalias.
    now rewrite dict_get_set_same.
  - apply str_eqb_neq in E. unalias. now rewrite dict_get_set_other.
Qed.

Lemma category_items_del (stores : catalog) (s0 s c : pystr) :
  category_items (dict_del s0 stores) s c
  = if str_eqb s s0 then None else category_items stores s c.
Proof.
  unfold category_items. destruct (str_eqb s s0) eqn:E.
  - apply str_eqb_eq in E. subst s. unalias.
    now rewrite dict_get_del_same.
  - apply str_eqb_neq in E. unalias. now rewrite dict_get_del_other.
Qed.

(** Adding a store, a category or products leaves every item list of
    the catalog in place or longer; the new lists belong to categories
    that were not there. *)
Lemma add_store_grows (stores : catalog) (n s c : pystr)
    (items' : list pystr) :
  category_items (add_store stores n) s c = Some items' ->
  category_items stores s c = None
  \/ exists items, category_items stores s c = Some items
                   /\ incl items items'.
Proof.
  unfold add_store.
  destruct (truthy (normalize_name n)
            && negb (dict_mem (normalize_name n) stores)) eqn:E.
  - apply andb_true_iff in E. destruct E as [_ E].
    apply negb_true_iff in E. rewrite category_items_set.
    destruct (str_eqb s (normalize_name n)) eqn:F.
    + apply str_eqb_eq in F. subst s. intros _. left.
      unfold category_items. apply dict_get_None in E. unalias.
      now rewrite E.
    + intros H. right. exists items'. split; [exact H | apply incl_refl].
  - intros H. right. exists items'. split; [exact H | apply incl_refl].
Qed.

Lemma add_category_grows (stores : catalog) (n cn s c : pystr)
    (items' : list pystr) :
  category_items (add_category stores n cn) s c = Some items' ->
  category_items stores s c = None
  \/ exists items, category_items stores s c = Some items
                   /\ incl items items'.
Proof.
  unfold add_category.
  set (sn := normalize_name n).
  set (k := or_default (normalize_name cn) Uncategorized).
  destruct (dict_get sn stores) as [cats|] eqn:Hs;
    [|intros H; right; exists items'; split; [exact H | apply incl_refl]].
  destruct (dict_mem k cats) eqn:Hk;
    [intros H; right; exists items'; split; [exact H | apply incl_refl]|].
  rewrite category_items_set. destruct (str_eqb s sn) eqn:F;
    [|intros H; right; exists items'; split; [exact H | apply incl_refl]].
  apply str_eqb_eq in F. subst s.
  assert (category_items stores sn c = dict_get c cats) as Hci
    by (unfold category_items; unalias; now rewrite Hs).
  rewrite Hci. destruct (str_eqb c k) eqn:G.
  - apply str_eqb_eq in G. subst c. intros _. left.
    now apply dict_get_None.
  - apply str_eqb_neq in G. unalias. rewrite dict_get_set_other by exact G.
    intros H. right. exists items'. split; [exact H | apply incl_refl].
Qed.

Lemma add_items_grows (rt : runtime) (stores : catalog)
    (n cn text s c : pystr) (items' : list pystr) :
  category_items (add_items rt stores n cn text) s c = Some items' ->
  category_items stores s c = None
  \/ exists items, category_items stores s c = Some items
                   /\ incl items items'.
Proof.
  unfold add_items.
  set (sn := normalize_name n).
  set (k := or_default (normalize_name cn) Uncategorized).
  destruct (dict_get sn stores) as [cats|] eqn:Hs;
    [|intros H; right; exists items'; split; [exact H | apply incl_refl]].
  cbv zeta. rewrite category_items_set. destruct (str_eqb s sn) eqn:F;
    [|intros H; right; exists items'; split; [exact H | apply incl_refl]].
  apply str_eqb_eq in F. subst s.
  assert (category_items stores sn c = dict_get c cats) as Hci
    by (unfold category_items; unalias; now rewrite Hs).
  rewrite Hci. destruct (str_eqb c k) eqn:G.
  - apply str_eqb_eq in G. subst c. unalias. rewrite dict_get_set_same.
    intros [= <-]. destruct (dict_mem k cats) eqn:Hk.
    + apply dict_mem_get in Hk. destruct Hk as [items Hi]. right.
      exists items. split; [exact Hi|]. intros x Hx.
      apply sorted_In, set_iter_in, in_or_app. left.
      unfold dict_get_or. unalias. now rewrite Hi.
    + left. now apply dict_get_None.
  - apply str_eqb_neq in G. unalias. rewrite dict_get_set_other by exact G.
    destruct (dict_mem k cats) eqn:Hk.
    + intros H. right. exists items'. split; [exact H | apply incl_refl].
    + rewrite dict_get_set_other by exact G.
      intros H. right. exists items'. split; [exact H | apply incl_refl].
Qed.

(** After such an action a selection that chooses nothing new is still
    within the item lists. *)
Lemma grown_within (stores stores' : catalog) (sel sel' : selection) :
  session_ok stores sel ->
  (forall s c items',
      category_items stores' s c = Some items' ->
      category_items stores s c = None
      \/ exists items, category_items stores s c = Some items
                       /\ incl items items') ->
  (forall s c x, In x (chosen sel' s c) -> In x (chosen sel s c)) ->
  forall s c x items,
    category_items stores' s c = Some items ->
    In x (chosen sel' s c) -> In x items.
Proof.
  intros Hok Hg Hsub s c x items' Hci Hx. apply Hsub in Hx.
  destruct (Hg s c items' Hci) as [Hnone | [items [Hi Hincl]]].
  - rewrite (@aligned_outside stores sel s c (proj1 Hok) Hnone) in Hx.
    destruct Hx.
  - apply Hincl. exact (@session_ok_within stores sel s c x items Hok Hi Hx).
Qed.

(** ** How the selection reads after an action *)

Lemma chosen_update_chosen (sel sel' : selection) (s0 c0 : pystr)
    (f : pyset -> pyset) (s c : pystr) :
  update_chosen sel s0 c0 f = Some sel' ->
  chosen sel' s c
  = if str_eqb s s0 && str_eqb c c0 then f (chosen sel s0 c0)
    else chosen sel s c.
Proof.
  unfold update_chosen.
  destruct (dict_get s0 sel) as [inner|] eqn:Hs; [|discriminate].
  destruct (dict_get c0 inner) as [v|] eqn:Hc; [|discriminate].
  intros [= <-]. rewrite chosen_set.
  assert (chosen sel s0 c0 = v) as Hv.
  { rewrite (@chosen_present sel s0 c0 inner Hs). unfold dict_get_or.
    unalias. now rewrite Hc. }
  destruct (str_eqb s s0) eqn:E; [|reflexivity].
  apply str_eqb_eq in E. subst s. cbn [andb].
  pose proof (get_or_set inner c0 (f v) c) as G. unalias. rewrite G, Hv.
  destruct (str_eqb c c0); [reflexivity|].
  now rewrite (@chosen_present sel s0 c inner Hs).
Qed.

Lemma chosen_update_store (sel sel' : selection) (s0 : pystr)
    (f : dict pyset -> dict pyset) (s c : pystr) :
  update_store sel s0 f = Some sel' ->
  exists inner,
    dict_get s0 sel = Some inner
    /\ chosen sel' s c
       = if str_eqb s s0 then dict_get_or c [] (f inner)
         else chosen sel s c.
Proof.
  unfold update_store.
  destruct (dict_get s0 sel) as [inner|] eqn:Hs; [|discriminate].
  intros [= <-]. exists inner. split; [reflexivity|]. apply chosen_set.
Qed.

Lemma chosen_new_category (sel sel' : selection) (s0 k s c : pystr) :
  update_store sel s0 (dict_setdefault k []) = Some sel' ->
  chosen sel' s c = chosen sel s c.
Proof.
  intros H.
  destruct (@chosen_update_store sel sel' s0 _ s c H) as [inner [Hs ->]].
  destruct (str_eqb s s0) eqn:E; [|reflexivity].
  apply str_eqb_eq in E. subst s.
  rewrite (@chosen_present sel s0 c inner Hs). apply get_or_setdefault.
Qed.

Lemma chosen_new_store (sel : selection) (n s c : pystr) :
  chosen (dict_setdefault n [(Uncategorized, [])] sel) s c = chosen sel s c.
Proof.
  unfold dict_setdefault. unalias.
  destruct (dict_mem n sel) eqn:E; [reflexivity|].
  pose proof (chosen_set sel n [(Uncategorized, [])] s c) as G.
  unalias. rewrite G. destruct (str_eqb s n) eqn:F; [|reflexivity].
  apply str_eqb_eq in F. subst s. apply dict_get_None in E.
  rewrite (@chosen_absent sel n c E). unfold dict_get_or, dict_get.
  cbn [find fst snd option_map]. now destruct (str_eqb c Uncategorized).
Qed.

(** ** The removals *)

Lemma remove_item_within (stores : catalog) (sel sel' : selection)
    (s0 c0 x0 : pystr) :
  session_ok stores sel ->
  update_chosen sel s0 c0 (set_discard x0) = Some sel' ->
  forall s c x items,
    category_items (remove_item stores s0 c0 x0) s c = Some items ->
    In x (chosen sel' s c) -> In x items.
Proof.
  intros Hok Hu s c x items' Hci Hx.
  rewrite (@chosen_update_chosen sel sel' s0 c0 _ s c Hu) in Hx.
  unfold remove_item in Hci.
  destruct (dict_get s0 stores) as [cats|] eqn:Hs.
  - destruct (dict_get c0 cats) as [items|] eqn:Hc.
    + rewrite category_items_set in Hci.
      destruct (str_eqb s s0) eqn:E.
      * apply str_eqb_eq in E. subst s. cbn [andb] in Hx.
        assert (category_items stores s0 c = dict_get c cats) as Hold
          by (unfold category_items; unalias; now rewrite Hs).
        destruct (str_eqb c c0) eqn:F.
        -- apply str_eqb_eq in F. subst c. unalias.
           rewrite dict_get_set_same in Hci. injection Hci as <-.
           unfold set_discard in Hx. apply filter_In in Hx.
           destruct Hx as [Hx Hne]. apply filter_In. split; [|exact Hne].
           apply (@session_ok_within stores sel s0 c0 x items Hok);
             [congruence | exact Hx].
        -- apply str_eqb_neq in F. unalias.
           rewrite dict_get_set_other in Hci by exact F.
           apply (@session_ok_within stores sel s0 c x items' Hok);
             [congruence | exact Hx].
      * cbn [andb] in Hx.
        exact (@session_ok_within stores sel s c x items' Hok Hci Hx).
    + apply (@session_ok_within stores sel s c x items' Hok Hci).
      destruct (str_eqb s s0 && str_eqb c c0) eqn:E; [|exact Hx].
      apply andb_true_iff in E. destruct E as [E F].
      apply str_eqb_eq in E. apply str_eqb_eq in F. subst s c.
      unfold set_discard in Hx. now apply filter_In in Hx.
  - apply (@session_ok_within stores sel s c x items' Hok Hci).
    destruct (str_eqb s s0 && str_eqb c c0) eqn:E; [|exact Hx].
    apply andb_true_iff in E. destruct E as [E F].
    apply str_eqb_eq in E. apply str_eqb_eq in F. subst s c.
    unfold set_discard in Hx. now apply filter_In in Hx.
Qed.

Lemma only_category (cats : category_map) (c0 c : pystr) :
  (1 <? length cats) = false -> dict_mem c0 cats = true -> c <> c0 ->
  dict_get c cats = None.
Proof.
  intros Hlen Hm Hne. apply Nat.ltb_ge in Hlen.
  destruct cats as [|[k v] [|e cats]]; cbn [length] in Hlen;
    [discriminate | | lia].
  apply dict_mem_In in Hm. cbn in Hm. destruct Hm as [-> | []].
  apply dict_get_None. unfold dict_mem. cbn.
  apply str_eqb_neq in Hne. now rewrite Hne.
Qed.

Lemma remove_category_within (stores : catalog) (sel sel' : selection)
    (s0 c0 : pystr) :
  session_ok stores sel ->
  update_store sel s0
    (fun inner => if dict_mem c0 inner then dict_del c0 inner else inner)
  = Some sel' ->
  forall s c x items,
    category_items (remove_category stores s0 c0) s c = Some items ->
    In x (chosen sel' s c) -> In x items.
Proof.
  intros Hok Hu s c x items' Hci Hx.
  destruct (@chosen_update_store sel sel' s0 _ s c Hu) as [inner [Hsel E]].
  cbv beta in E.
  assert (chosen sel' s c
          = if str_eqb s s0 && str_eqb c c0 then [] else chosen sel s c)
    as Hch.
  { rewrite E. destruct (str_eqb s s0) eqn:F; [|reflexivity].
    apply str_eqb_eq in F. subst s. cbn [andb].
    rewrite (@chosen_present sel s0 c inner Hsel). unalias.
    destruct (dict_mem c0 inner) eqn:G.
    - pose proof (get_or_del inner c0 c) as D. unalias. exact D.
    - destruct (str_eqb c c0) eqn:H; [|reflexivity].
      apply str_eqb_eq in H. subst c. apply dict_get_None in G.
      unfold dict_get_or. now rewrite G. }
  rewrite Hch in Hx. clear E Hch.
  assert (In x (chosen sel s c)) as Hx0
    by (destruct (str_eqb s s0 && str_eqb c c0); [destruct Hx | exact Hx]).
  unfold remove_category in Hci.
  destruct (dict_get s0 stores) as [cats|] eqn:Hs;
    [|exact (@session_ok_within stores sel s c x items' Hok Hci Hx0)].
  destruct (dict_mem c0 cats) eqn:Hm;
    [|exact (@session_ok_within stores sel s c x items' Hok Hci Hx0)].
  assert (forall c1, category_items stores s0 c1 = dict_get c1 cats) as Hold
    by (intros c1; unfold category_items; unalias; now rewrite Hs).
  destruct (1 <? length cats) eqn:Hlen.
  - rewrite category_items_set in Hci.
    destruct (str_eqb s s0) eqn:F;
      [|exact (@session_ok_within stores sel s c x items' Hok Hci Hx0)].
    apply str_eqb_eq in F. subst s. cbn [andb] in Hx.
    destruct (str_eqb c c0) eqn:G; [destruct Hx|].
    apply str_eqb_neq in G. unalias.
    rewrite dict_get_del_other in Hci by exact G.
    apply (@session_ok_within stores sel s0 c x items' Hok);
      [now rewrite Hold | exact Hx0].
  - rewrite category_items_set in Hci.
    destruct (str_eqb s s0) eqn:F;
      [|exact (@session_ok_within stores sel s c x items' Hok Hci Hx0)].
    apply str_eqb_eq in F. subst s. cbn [andb] in Hx.
    destruct (str_eqb c c0) eqn:G; [destruct Hx|].
    apply str_eqb_neq in G. exfalso.
    assert (category_items stores s0 c = None) as Hnone
      by (rewrite Hold; now apply (@only_category cats c0 c)).
    rewrite (@aligned_outside stores sel s0 c (proj1 Hok) Hnone) in Hx0.
    destruct Hx0.
Qed.

Lemma remove_store_within (stores : catalog) (sel : selection)
    (s0 : pystr) :
  session_ok stores sel ->
  forall s c x items,
    category_items (remove_store stores s0) s c = Some items ->
    In x (chosen (if dict_mem s0 sel then dict_del s0 sel else sel) s c) ->
    In x items.
Proof.
  intros Hok s c x items' Hci Hx.
  assert (In x (chosen sel s c)) as Hx0.
  { unalias. destruct (dict_mem s0 sel); [|exact Hx].
    rewrite chosen_del in Hx. now destruct (str_eqb s s0). }
  unfold remove_store in Hci. unalias.
  destruct (dict_mem s0 stores) eqn:Hm;
    [|exact (@session_ok_within stores sel s c x items' Hok Hci Hx0)].
  pose proof (category_items_del stores s0 s c) as D. unalias.
  rewrite D in Hci. destruct (str_eqb s s0); [discriminate|].
  exact (@session_ok_within stores sel s c x items' Hok Hci Hx0).
Qed.

(** ** Clearing and starting over *)

Section FoldSet.

Variable V : Type.

(** Writing the keys [ks] in turn, each with its value [g k]. *)
Lemma fold_set_get (g : pystr -> V) (ks : list pystr) (d : dict V)
    (k : pystr) :
  dict_get k (fold_left (fun d k => dict_set k (g k) d) ks d)
  = if mem k ks then Some (g k) else dict_get k d.
Proof.
  revert d. induction ks as [|k0 ks IH]; intros d; [reflexivity|].
  cbn [fold_left mem]. rewrite IH.
  destruct (mem k ks); [now rewrite orb_true_r|]. rewrite orb_false_r.
  destruct (str_eqb k k0) eqn:E.
  - apply str_eqb_eq in E. subst k0. apply dict_get_set_same.
  - apply str_eqb_neq in E. now apply dict_get_set_other.
Qed.

Lemma mem_keys_get (d : dict V) (k : pystr) :
  mem k (dict_keys d) = false -> dict_get k d = None.
Proof.
  intros H. apply dict_get_None.
  destruct (dict_mem k d) eqn:E; [|reflexivity].
  apply dict_mem_In, mem_In in E. congruence.
Qed.

End FoldSet.

Lemma emptied_sets (ks : list pystr) (inner : dict pyset) (c : pystr) :
  dict_get_or c []
    (fold_left (fun inner c => dict_set c [] inner) ks inner)
  = if mem c ks then [] else dict_get_or c [] inner.
Proof.
  unfold dict_get_or.
  rewrite (fold_set_get (fun _ => []) ks inner c).
  now destruct (mem c ks).
Qed.

Lemma emptied_category_map (inner : dict pyset) (c : pystr) :
  dict_get_or c []
    (fold_left (fun inner c => dict_set c [] inner) (dict_keys inner) inner)
  = [].
Proof.
  rewrite emptied_sets. destruct (mem c (dict_keys inner)) eqn:E;
    [reflexivity|].
  pose proof (mem_keys_get inner c E) as G.
  unfold dict_get_or. unalias. now rewrite G.
Qed.

Lemma cleared_stores (ks : list pystr) (sel : selection) (s c : pystr) :
  chosen
    (fold_left
       (fun sel s =>
          let inner := dict_get_or s [] sel in
          dict_set s
            (fold_left (fun inner c => dict_set c [] inner)
                       (dict_keys inner) inner)
            sel)
       ks sel) s c
  = if mem s ks then [] else chosen sel s c.
Proof.
  revert sel. induction ks as [|k ks IH]; intros sel; [reflexivity|].
  cbn [fold_left mem]. rewrite IH. cbv zeta.
  destruct (mem s ks); [now rewrite orb_true_r|]. rewrite orb_false_r.
  rewrite chosen_set. destruct (str_eqb s k); [|reflexivity].
  apply emptied_category_map.
Qed.

Lemma cleared_selection (rt : runtime) (stores : catalog) (sel : selection) :
  exists sel',
    handle rt ClearSelections stores sel = Some (stores, sel')
    /\ forall s c, chosen sel' s c = [].
Proof.
  eexists. split; [reflexivity|]. intros s c. rewrite cleared_stores.
  destruct (mem s (dict_keys sel)) eqn:E; [reflexivity|].
  apply chosen_absent. unalias. exact (mem_keys_get sel s E).
Qed.

Lemma initial_selection_get (stores : catalog) (s : pystr) :
  dict_get s (initial_selection stores)
  = if dict_mem s stores
    then Some (fold_left (fun inner c => dict_set c [] inner)
                         (dict_keys (dict_get_or s [] stores)) [])
    else None.
Proof.
  pose proof (@fold_set_get (dict pyset)
                (fun s => fold_left
                            (fun (inner : dict pyset) c =>
                               dict_set c ([] : pyset) inner)
                            (dict_keys (dict_get_or s [] stores)) [])
                (dict_keys stores) [] s) as G.
  unfold initial_selection. unalias. rewrite G. clear G.
  destruct (mem s (dict_keys stores)) eqn:E.
  - apply mem_In, dict_mem_In in E. unalias. now rewrite E.
  - destruct (dict_mem s stores) eqn:F; [|reflexivity].
    apply dict_mem_In, mem_In in F. unalias. congruence.
Qed.

Lemma initial_selection_empty (stores : catalog) (s c : pystr) :
  chosen (initial_selection stores) s c = [].
Proof.
  rewrite chosen_unfold, initial_selection_get. unalias.
  destruct (dict_mem s stores); [|reflexivity].
  pose proof (emptied_sets (dict_keys (dict_get_or s [] stores)) [] c) as E.
  unfold dict_get_or at 1 in E. unalias. 
  destruct (dict_get c _) as [v|]; [|reflexivity].
  rewrite E. now destruct (mem c _).
Qed.

Lemma emptied_get (ks : list pystr) (inner : dict pyset) (c : pystr) :
  dict_get c
    (fold_left (fun (inner : dict pyset) c => dict_set c ([] : pyset) inner)
               ks inner)
  = if mem c ks then Some [] else dict_get c inner.
Proof. exact (@fold_set_get pyset (fun _ => []) ks inner c). Qed.

Lemma initial_selection_aligned (stores : catalog) :
  aligned stores (initial_selection stores).
Proof.
  split.
  - intros e He.
    assert (dict_mem (fst e) (initial_selection stores) = true) as Hm
      by (apply dict_mem_In, in_map_iff; now exists e).
    apply dict_mem_get in Hm. destruct Hm as [v Hv].
    rewrite initial_selection_get in Hv. unalias.
    now destruct (dict_mem (fst e) stores).
  - intros s Hs. apply dict_mem_In in Hs.
    eexists. split; [rewrite initial_selection_get; unalias; now rewrite Hs|].
    split.
    + intros e He.
      match type of He with In _ ?d =>
        assert (dict_mem (fst e) d = true) as Hm
          by (apply dict_mem_In, in_map_iff; now exists e)
      end.
      apply dict_mem_get in Hm. destruct Hm as [v Hv].
      pose proof (emptied_get (dict_keys (dict_get_or s [] stores)) []
                              (fst e)) as G.
      unalias. rewrite G in Hv.
      destruct (mem (fst e) _) eqn:E; [|discriminate].
      now apply mem_In, dict_mem_In in E.
    + intros c Hc. eapply dict_get_Some_mem.
      pose proof (emptied_get (dict_keys (dict_get_or s [] stores)) [] c)
        as G.
      unalias. rewrite G.
      apply mem_In in Hc. unalias. now rewrite Hc.
Qed.

(** ** Reading the check boxes *)

Lemma set_add_In (x0 : pystr) (v : pyset) (x : pystr) :
  In x (set_add x0 v) <-> x = x0 \/ In x v.
Proof.
  unfold set_add. destruct (mem x0 v) eqn:E.
  - apply mem_In in E. split; [now right | intros [-> | H]; assumption].
  - rewrite in_app_iff. cbn. split.
    + intros [H | [H | []]]; [now right | now left].
    + intros [H | H]; [right; now left | now left].
Qed.

Lemma set_discard_In (x0 : pystr) (v : pyset) (x : pystr) :
  In x (set_discard x0 v) <-> In x v /\ x <> x0.
Proof.
  unfold set_discard. rewrite filter_In, negb_true_iff, str_eqb_neq.
  reflexivity.
Qed.

Lemma visible_items_In (search : pystr) (items : list pystr) (x : pystr) :
  In x (visible_items search items) -> In x items.
Proof.
  unfold visible_items.
  destruct (truthy (lower (normalize_name search))); [|trivial].
  intros H. now apply filter_In in H.
Qed.

Lemma tile_rows_concat (stores : catalog) :
  concat (tile_rows stores) = sorted lower (dict_keys stores).
Proof.
  unfold tile_rows, chunk_list. cbn [Z.eqb Z.ltb Z.compare]. cbv zeta.
  rewrite concat_chunks. apply firstn_all2.
  apply range_length_covers. cbn. lia.
Qed.

Lemma flat_map_rows (A B : Type) (f : A -> list B) (rows : list (list A)) :
  flat_map (fun row => flat_map f row) rows = flat_map f (concat rows).
Proof.
  induction rows as [|row rows IH]; [reflexivity|].
  cbn [flat_map concat]. now rewrite flat_map_app, IH.
Qed.

(** The boxes are those of the tiles of the stores in sorted order: the
    rows only lay the tiles out. *)
Lemma drawn_boxes_flat (search : pystr) (stores : catalog) :
  drawn_boxes search stores
  = flat_map (tile_boxes search stores) (sorted lower (dict_keys stores)).
Proof.
  unfold drawn_boxes. now rewrite flat_map_rows, tile_rows_concat.
Qed.

Lemma drawn_boxes_In (search : pystr) (stores : catalog) (s c x : pystr) :
  In (s, c, x) (drawn_boxes search stores) <->
  In s (dict_keys stores)
  /\ In c (dict_keys (dict_get_or s [] stores))
  /\ In x (visible_items search
             (dict_get_or c [] (dict_get_or s [] stores))).
Proof.
  rewrite drawn_boxes_flat, in_flat_map. unfold tile_boxes. split.
  - intros [s' [Hs H]]. apply sorted_In in Hs. cbv zeta in H.
    apply in_flat_map in H. destruct H as [c' [Hc H]].
    apply sorted_In in Hc. apply in_map_iff in H.
    destruct H as [x' [[= -> -> ->] Hx]]. now repeat split.
  - intros [Hs [Hc Hx]]. exists s. split; [now apply sorted_In|].
    cbv zeta. apply in_flat_map. exists c. split; [now apply sorted_In|].
    apply in_map_iff. now exists x.
Qed.

Lemma drawn_box_in_catalog (search : pystr) (stores : catalog)
    (s c x : pystr) :
  In (s, c, x) (drawn_boxes search stores) ->
  exists items, category_items stores s c = Some items /\ In x items.
Proof.
  intros H. apply drawn_boxes_In in H. destruct H as [Hs [Hc Hx]].
  apply dict_mem_In, dict_mem_get in Hs. destruct Hs as [cats Hs].
  assert (dict_get_or s [] stores = cats) as E
    by (unfold dict_get_or; unalias; now rewrite Hs).
  rewrite E in Hc, Hx.
  apply dict_mem_In, dict_mem_get in Hc. destruct Hc as [items Hc].
  assert (dict_get_or c [] cats = items) as F
    by (unfold dict_get_or; unalias; now rewrite Hc).
  rewrite F in Hx. exists items. split.
  - unfold category_items. unalias. now rewrite Hs.
  - eapply visible_items_In; eauto.
Qed.

Lemma drawn_box_has_entry (search : pystr) (stores : catalog)
    (sel : selection) (s c x : pystr) :
  aligned stores sel ->
  In (s, c, x) (drawn_boxes search stores) -> has_entry sel s c.
Proof.
  intros [_ Hal] H. apply drawn_boxes_In in H. destruct H as [Hs [Hc _]].
  destruct (Hal s Hs) as [inner [Hg [_ Hall]]].
  exists inner. split; [exact Hg | now apply Hall].
Qed.

Lemma update_chosen_Some (sel : selection) (s c : pystr)
    (f : pyset -> pyset) :
  has_entry sel s c -> exists sel', update_chosen sel s c f = Some sel'.
Proof.
  intros [inner [Hs Hc]]. apply dict_mem_get in Hc. destruct Hc as [v Hc].
  unfold update_chosen. unalias. rewrite Hs. unalias. rewrite Hc.
  now eexists.
Qed.

Lemma update_chosen_entry (sel sel' : selection) (s0 c0 : pystr)
    (f : pyset -> pyset) (s c : pystr) :
  update_chosen sel s0 c0 f = Some sel' ->
  has_entry sel s c -> has_entry sel' s c.
Proof.
  unfold update_chosen.
  destruct (dict_get s0 sel) as [inner0|] eqn:Hs0; [|discriminate].
  destruct (dict_get c0 inner0) as [v|] eqn:Hc0; [|discriminate].
  intros [= <-] [inner [Hs Hc]]. unfold has_entry.
  destruct (str_eq_dec s s0) as [-> | Hne].
  - exists (dict_set c0 (f v) inner0). unalias.
    rewrite dict_get_set_same. split; [reflexivity|].
    rewrite dict_mem_set. assert (inner = inner0) by congruence. subst.
    unalias. rewrite Hc. apply orb_true_r.
  - exists inner. unalias. rewrite dict_get_set_other by exact Hne.
    now split.
Qed.

Lemma read_box_None (checked : pystr -> pystr -> pystr -> bool -> bool)
    (boxes : list (pystr * pystr * pystr)) :
  fold_left (read_box checked) boxes None = None.
Proof. induction boxes as [|b boxes IH]; [reflexivity | exact IH]. Qed.

Lemma read_box_Some (checked : pystr -> pystr -> pystr -> bool -> bool)
    (sel sel' : selection) (s0 c0 x0 : pystr) :
  read_box checked (Some sel) (s0, c0, x0) = Some sel' ->
  update_chosen sel s0 c0
    (if checked s0 c0 x0 (mem x0 (chosen sel s0 c0))
     then set_add x0 else set_discard x0) = Some sel'.
Proof.
  cbn [read_box].
  destruct (update_chosen sel s0 c0 (fun s => s)); [|discriminate].
  now destruct (checked s0 c0 x0 (mem x0 (chosen sel s0 c0))).
Qed.

Lemma read_box_entry (checked : pystr -> pystr -> pystr -> bool -> bool)
    (sel : selection) (s0 c0 x0 : pystr) :
  has_entry sel s0 c0 ->
  exists sel', read_box checked (Some sel) (s0, c0, x0) = Some sel'.
Proof.
  intros H. cbn [read_box].
  destruct (@update_chosen_Some sel s0 c0 (fun s => s) H) as [sel0 ->].
  destruct (checked s0 c0 x0 (mem x0 (chosen sel s0 c0)));
    now apply update_chosen_Some.
Qed.

(** A box changes the membership of its own item only, and makes it
    the state of the box. *)
Lemma read_box_other (checked : pystr -> pystr -> pystr -> bool -> bool)
    (sel sel' : selection) (s0 c0 x0 s c x : pystr) :
  read_box checked (Some sel) (s0, c0, x0) = Some sel' ->
  (s, c, x) <> (s0, c0, x0) ->
  (In x (chosen sel' s c) <-> In x (chosen sel s c)).
Proof.
  intros H Hne. apply read_box_Some in H.
  rewrite (@chosen_update_chosen sel sel' s0 c0 _ s c H).
  destruct (str_eqb s s0 && str_eqb c c0) eqn:E; [|reflexivity].
  apply andb_true_iff in E. destruct E as [E F].
  apply str_eqb_eq in E. apply str_eqb_eq in F. subst s c.
  assert (x <> x0) as Hx by congruence.
  destruct (checked s0 c0 x0 (mem x0 (chosen sel s0 c0))).
  - rewrite set_add_In. tauto.
  - rewrite set_discard_In. tauto.
Qed.

Lemma read_box_same (checked : pystr -> pystr -> pystr -> bool -> bool)
    (sel sel' : selection) (s0 c0 x0 : pystr) :
  read_box checked (Some sel) (s0, c0, x0) = Some sel' ->
  (In x0 (chosen sel' s0 c0)
   <-> checked s0 c0 x0 (mem x0 (chosen sel s0 c0)) = true).
Proof.
  intros H. apply read_box_Some in H.
  rewrite (@chosen_update_chosen sel sel' s0 c0 _ s0 c0 H).
  rewrite !str_eqb_refl. cbn [andb].
  destruct (checked s0 c0 x0 (mem x0 (chosen sel s0 c0))).
  - rewrite set_add_In. intuition.
  - rewrite set_discard_In. intuition discriminate.
Qed.

Lemma mem_iff (x : pystr) (l1 l2 : list pystr) :
  (In x l1 <-> In x l2) -> mem x l1 = mem x l2.
Proof.
  intros H. destruct (mem x l2) eqn:E.
  - apply mem_In. apply H. now apply mem_In.
  - apply mem_not_In. intros G. apply H in G. apply mem_In in G. congruence.
Qed.

Lemma read_boxes (checked : pystr -> pystr -> pystr -> bool -> bool)
    (boxes : list (pystr * pystr * pystr)) (sel : selection) :
  NoDup boxes ->
  (forall s c x, In (s, c, x) boxes -> has_entry sel s c) ->
  exists sel',
    fold_left (read_box checked) boxes (Some sel) = Some sel'
    /\ (forall s c x, In (s, c, x) boxes ->
          (In x (chosen sel' s c)
           <-> checked s c x (mem x (chosen sel s c)) = true))
    /\ (forall s c x, ~ In (s, c, x) boxes ->
          (In x (chosen sel' s c) <-> In x (chosen sel s c)))
    /\ (forall s c, has_entry sel s c -> has_entry sel' s c).
Proof.
  revert sel. induction boxes as [|[[s0 c0] x0] boxes IH]; intros sel Hnd He.
  - exists sel. cbn. repeat split; tauto.
  - inversion Hnd as [|b bs Hnotin Hnd']. subst b bs.
    assert (has_entry sel s0 c0) as H0 by (apply (He s0 c0 x0); now left).
    destruct (@read_box_entry checked sel s0 c0 x0 H0) as [sel1 H1].
    pose proof (read_box_Some _ _ _ _ _ H1) as Hu.
    assert (forall s c, has_entry sel s c -> has_entry sel1 s c) as Hkeep
      by (intros s c; exact (@update_chosen_entry sel sel1 s0 c0 _ s c Hu)).
    destruct (IH sel1 Hnd') as [sel' [Hf [Hin [Hout Hent]]]].
    { intros s c x Hx. apply Hkeep. apply (He s c x). now right. }
    exists sel'. cbn [fold_left]. rewrite H1. split; [exact Hf|].
    split; [|split].
    + intros s c x [Heq | Hx].
      * injection Heq as <- <- <-. rewrite (Hout s0 c0 x0 Hnotin).
        exact (@read_box_same checked sel sel1 s0 c0 x0 H1).
      * rewrite (Hin s c x Hx).
        assert ((s, c, x) <> (s0, c0, x0)) as Hne
          by (intros E; rewrite E in Hx; contradiction).
        now rewrite (mem_iff _ _ _
                       (@read_box_other checked sel sel1 s0 c0 x0 s c x
                          H1 Hne)).
    + intros s c x Hnot.
      rewrite (Hout s c x) by (intros G; apply Hnot; now right).
      apply (@read_box_other checked sel sel1 s0 c0 x0 s c x H1).
      intros E. apply Hnot. left. now symmetry.
    + intros s c H. apply Hent, Hkeep, H.
Qed.

(** Without the assumption that the boxes differ: whatever is chosen
    after the pass was chosen before it or is the item of a box. *)
Lemma read_boxes_within (checked : pystr -> pystr -> pystr -> bool -> bool)
    (boxes : list (pystr * pystr * pystr)) (sel sel' : selection) :
  fold_left (read_box checked) boxes (Some sel) = Some sel' ->
  forall s c x,
    In x (chosen sel' s c) -> In x (chosen sel s c) \/ In (s, c, x) boxes.
Proof.
  revert sel. induction boxes as [|[[s0 c0] x0] boxes IH]; intros sel H.
  - injection H as <-. now left.
  - cbn [fold_left] in H.
    destruct (read_box checked (Some sel) (s0, c0, x0)) as [sel1|] eqn:H1;
      [|now rewrite read_box_None in H].
    intros s c x Hx. destruct (IH sel1 H s c x Hx) as [Hx1 | Hb];
      [|right; now right].
    destruct (list_eq_dec N.eq_dec s s0) as [-> | Hs];
    [destruct (list_eq_dec N.eq_dec c c0) as [-> | Hc];
     [destruct (list_eq_dec N.eq_dec x x0) as [-> | Hxx]|]|].
    + right. now left.
    + left. apply (@read_box_other checked sel sel1 s0 c0 x0 s0 c0 x H1);
        [congruence | exact Hx1].
    + left. apply (@read_box_other checked sel sel1 s0 c0 x0 s0 c x H1);
        [congruence | exact Hx1].
    + left. apply (@read_box_other checked sel sel1 s0 c0 x0 s c x H1);
        [congruence | exact Hx1].
Qed.

(** ** The selection across the runs of the script *)

Lemma handle_within (rt : runtime) (ev : event) (stores stores' : catalog)
    (sel sel' : selection) :
  session_ok stores sel ->
  handle rt ev stores sel = Some (stores', sel') ->
  forall s c x items,
    category_items stores' s c = Some items ->
    In x (chosen sel' s c) -> In x items.
Proof.
  intros Hok H.
  destruct ev as [| | n | n k | n k text | s0 c0 x0 | s0 c0 | s0
                 | search checked]; cbn [handle] in H.
  - injection H as <- <-. intros s c x items _ Hx.
    rewrite cleared_stores in Hx.
    destruct (mem s (dict_keys sel)) eqn:E; [destruct Hx|].
    pose proof (mem_keys_get sel s E) as G.
    rewrite (@chosen_absent sel s c G) in Hx. destruct Hx.
  - injection H as <- <-. intros s c x items _ Hx.
    rewrite initial_selection_empty in Hx. destruct Hx.
  - cbv zeta in H.
    destruct (negb (truthy (normalize_name n)));
      [injection H as <- <-; intros s c x items;
       apply (@session_ok_within stores sel s c x items Hok)|].
    destruct (dict_mem (normalize_name n) stores);
      [injection H as <- <-; intros s c x items;
       apply (@session_ok_within stores sel s c x items Hok)|].
    injection H as <- <-.
    apply (@grown_within stores _ sel _ Hok).
    + intros s c items'. apply add_store_grows.
    + intros s c x. now rewrite chosen_new_store.
  - cbv zeta in H.
    destruct (update_store sel n _) as [sel1|] eqn:Hu; [|discriminate].
    injection H as <- <-.
    apply (@grown_within stores _ sel _ Hok).
    + intros s c items'. apply add_category_grows.
    + intros s c x.
      now rewrite (@chosen_new_category sel sel1 n _ s c Hu).
  - cbv zeta in H.
    destruct (negb (truthy (strip text)));
      [injection H as <- <-; intros s c x items;
       apply (@session_ok_within stores sel s c x items Hok)|].
    destruct (update_store sel n _) as [sel1|] eqn:Hu; [|discriminate].
    injection H as <- <-.
    apply (@grown_within stores _ sel _ Hok).
    + intros s c items'. apply add_items_grows.
    + intros s c x.
      now rewrite (@chosen_new_category sel sel1 n _ s c Hu).
  - cbv zeta in H.
    destruct (update_chosen sel s0 c0 _) as [sel1|] eqn:Hu; [|discriminate].
    injection H as <- <-.
    exact (@remove_item_within stores sel sel1 s0 c0 x0 Hok Hu).
  - cbv zeta in H.
    destruct (update_store sel s0 _) as [sel1|] eqn:Hu; [|discriminate].
    injection H as <- <-.
    exact (@remove_category_within stores sel sel1 s0 c0 Hok Hu).
  - injection H as <- <-. exact (@remove_store_within stores sel s0 Hok).
  - destruct (fold_left _ _ _) as [sel1|] eqn:Hf; [|discriminate].
    injection H as <- <-. intros s c x items Hci Hx.
    destruct (@read_boxes_within checked _ sel sel1 Hf s c x Hx) as [H0 | Hb].
    + exact (@session_ok_within stores sel s c x items Hok Hci H0).
    + apply drawn_box_in_catalog in Hb. destruct Hb as [items0 [Hc0 Hin]].
      congruence.
Qed.

(** X26.  The selection stays within the catalog from run to run: when
    it has the stores and categories of the catalog and chooses catalog
    items only, then after any action (a button of the page, or the
    reading of the check boxes) followed by the reconciliation block at
    the start of the next run it does so again, for the new catalog. *)
Theorem handle_keeps_session (rt : runtime) (ev : event)
    (stores stores' : catalog) (selected selected' : selection) :
  session_ok stores selected ->
  handle rt ev stores selected = Some (stores', selected') ->
  session_ok stores' (reconcile stores' selected').
Proof.
  intros Hok H. apply next_run_ok.
  exact (@handle_within rt ev stores stores' selected selected' Hok H).
Qed.

Lemma initial_session_ok (stores : catalog) :
  session_ok stores (initial_selection stores).
Proof.
  split; [apply initial_selection_aligned|].
  intros s c x Hx. rewrite initial_selection_empty in Hx. destruct Hx.
Qed.

Lemma handle_keeps_session_witness :
  session_ok one_store_catalog
    (reconcile one_store_catalog [(py "S", [(py "Dairy", [py "Milk"])])]).
Proof.
  apply (@handle_keeps_session insertion_order_runtime
           (Tick [] (fun _ _ _ _ => true))
           one_store_catalog one_store_catalog
           (initial_selection one_store_catalog)
           [(py "S", [(py "Dairy", [py "Milk"])])]).
  - apply initial_session_ok.
  - vm_compute. reflexivity.
Defined.

(** ** Every state of a session *)

Lemma session_session_ok (rt : runtime) (stores : catalog)
    (selected : selection) :
  session rt stores selected -> session_ok stores selected.
Proof.
  induction 1 as [file | stores selected ev stores' selected' _ IH Hev].
  - apply next_run_ok. intros s c x items _ Hx.
    rewrite initial_selection_empty in Hx. destruct Hx.
  - apply next_run_ok.
    exact (@handle_within rt ev stores stores' selected selected' IH Hev).
Qed.

(** C3.  In every state of a session, that is, after the reconciliation
    block of every run, whatever catalog mutations and other actions the
    runs before performed, the selection is a subset of the catalog at
    every level: a store of the selection is a store of the catalog, a
    category under it is a category of that store, and an item chosen
    under it is in the item list of that category.  The selection also
    has an entry for every store and every category of the catalog. *)
Theorem session_selection_within_catalog (rt : runtime) (stores : catalog)
    (selected : selection) :
  session rt stores selected ->
  (forall s inner,
      dict_get s selected = Some inner ->
      exists cats,
        dict_get s stores = Some cats
        /\ forall c chosen_items,
             dict_get c inner = Some chosen_items ->
             exists items,
               dict_get c cats = Some items
               /\ forall x, In x chosen_items -> In x items)
  /\ (forall s cats,
        dict_get s stores = Some cats ->
        exists inner,
          dict_get s selected = Some inner
          /\ forall c, dict_mem c cats = true -> dict_mem c inner = true).
Proof.
  intros Hs. apply session_session_ok in Hs.
  destruct Hs as [[Hin Hal] Hw]. split.
  - intros s inner Hg.
    pose proof (Hin _ (dict_get_In _ _ Hg)) as Hm. cbn [fst] in Hm.
    destruct (dict_mem_get _ _ Hm) as [cats Hcats]. exists cats.
    split; [exact Hcats|]. intros c chosen_items Hc.
    destruct (Hal s (proj1 (dict_mem_In _ _) Hm)) as [inner' [Hg' [Hsub _]]].
    assert (inner' = inner) by congruence. subst inner'.
    assert (dict_get_or s [] stores = cats) as E
      by (unfold dict_get_or; unalias; now rewrite Hcats).
    pose proof (Hsub _ (dict_get_In _ _ Hc)) as Hmc. cbn [fst] in Hmc.
    rewrite E in Hmc. destruct (dict_mem_get _ _ Hmc) as [items Hitems].
    exists items. split; [exact Hitems|]. intros x Hx.
    assert (chosen selected s c = chosen_items) as Hch.
    { rewrite (@chosen_present selected s c inner Hg).
      unfold dict_get_or. unalias. now rewrite Hc. }
    rewrite <- Hch in Hx. destruct (Hw s c x Hx) as [items' [Hci Hin']].
    unfold category_items in Hci. unalias. rewrite Hcats in Hci.
    congruence.
  - intros s cats Hcats.
    assert (In s (dict_keys stores)) as Hk
      by (apply dict_mem_In; eapply dict_get_Some_mem; eauto).
    destruct (Hal s Hk) as [inner [Hg [_ Hall]]]. exists inner.
    split; [exact Hg|]. intros c Hc. apply Hall.
    assert (dict_get_or s [] stores = cats) as E
      by (unfold dict_get_or; unalias; now rewrite Hcats).
    rewrite E. now apply dict_mem_In.
Qed.

Lemma session_selection_within_catalog_witness :
  let stores : catalog :=
    [(py "Costco", [(py "Dairy", [py "Eggs"; py "milk"])])] in
  let selected : selection :=
    [(py "Costco", [(py "Dairy", [py "Eggs"; py "milk"])])] in
  (forall s inner,
      dict_get s selected = Some inner ->
      exists cats,
        dict_get s stores = Some cats
        /\ forall c chosen_items,
             dict_get c inner = Some chosen_items ->
             exists items,
               dict_get c cats = Some items
               /\ forall x, In x chosen_items -> In x items)
  /\ (forall s cats,
        dict_get s stores = Some cats ->
        exists inner,
          dict_get s selected = Some inner
          /\ forall c, dict_mem c cats = true -> dict_mem c inner = true).
Proof.
  apply (@session_selection_within_catalog insertion_order_runtime).
  (* the document is loaded, every box is ticked, and Milk is removed *)
  apply (@session_step insertion_order_runtime
           [(py "Costco", [(py "Dairy", [py "Eggs"; py "Milk"; py "milk"])])]
           [(py "Costco", [(py "Dairy", [py "Eggs"; py "Milk"; py "milk"])])]
           (RemoveProduct (py "Costco") (py "Dairy") (py "Milk"))
           [(py "Costco", [(py "Dairy", [py "Eggs"; py "milk"])])]
           [(py "Costco", [(py "Dairy", [py "Eggs"; py "milk"])])]);
    [|vm_compute; reflexivity].
  apply (@session_step insertion_order_runtime
           (load_stores insertion_order_runtime (Some dairy_document))
           (reconcile
              (load_stores insertion_order_runtime (Some dairy_document))
              (initial_selection
                 (load_stores insertion_order_runtime (Some dairy_document))))
           (Tick [] (fun _ _ _ _ => true))
           [(py "Costco", [(py "Dairy", [py "Eggs"; py "Milk"; py "milk"])])]
           [(py "Costco", [(py "Dairy", [py "Eggs"; py "Milk"; py "milk"])])]);
    [|vm_compute; reflexivity].
  apply session_start.
Defined.

Section Entries.

Variable V : Type.

Lemma In_entry_mem (d : dict V) (e : pystr * V) :
  In e d -> dict_mem (fst e) d = true.
Proof. intros H. apply dict_mem_In, in_map_iff. now exists e. Qed.

Lemma mem_entry (d : dict V) (k : pystr) :
  dict_mem k d = true -> exists v, In (k, v) d.
Proof.
  intros H. apply dict_mem_get in H. destruct H as [v H].
  exists v. now apply dict_get_In.
Qed.

End Entries.

Lemma update_chosen_aligned (stores : catalog) (sel sel' : selection)
    (s0 c0 : pystr) (f : pyset -> pyset) :
  update_chosen sel s0 c0 f = Some sel' ->
  aligned stores sel -> aligned stores sel'.
Proof.
  unfold update_chosen.
  destruct (dict_get s0 sel) as [inner0|] eqn:Hs0; [|discriminate].
  destruct (dict_get c0 inner0) as [v|] eqn:Hc0; [|discriminate].
  intros [= <-] [H1 H2]. split.
  - intros e He. apply In_entry_mem in He. unalias.
    rewrite dict_mem_set in He.
    assert (dict_mem (fst e) sel = true) as Hm.
    { destruct (str_eqb (fst e) s0) eqn:E; [|exact He].
      apply str_eqb_eq in E. rewrite E.
      eapply dict_get_Some_mem; eauto. }
    apply mem_entry in Hm. destruct Hm as [w Hw].
    exact (H1 _ Hw).
  - intros s Hs. destruct (H2 s Hs) as [inner [Hg [Ha Hb]]].
    destruct (str_eq_dec s s0) as [-> | Hne].
    + assert (inner = inner0) by congruence. subst inner.
      exists (dict_set c0 (f v) inner0). unalias.
      rewrite dict_get_set_same. split; [reflexivity|].
      assert (forall c, dict_mem c (dict_set c0 (f v) inner0)
                        = dict_mem c inner0) as Hsame.
      { intros c. rewrite dict_mem_set.
        destruct (str_eqb c c0) eqn:E; [|reflexivity].
        apply str_eqb_eq in E. subst c. cbn [orb]. symmetry.
        eapply dict_get_Some_mem; eauto. }
      split.
      * intros c Hc. apply In_entry_mem in Hc. rewrite Hsame in Hc.
        apply mem_entry in Hc. destruct Hc as [w Hw].
        exact (Ha _ Hw).
      * intros c Hc. rewrite Hsame. now apply Hb.
    + exists inner. unalias. rewrite dict_get_set_other by exact Hne.
      now repeat split.
Qed.

Lemma read_boxes_aligned (checked : pystr -> pystr -> pystr -> bool -> bool)
    (stores : catalog) (boxes : list (pystr * pystr * pystr))
    (sel sel' : selection) :
  fold_left (read_box checked) boxes (Some sel) = Some sel' ->
  aligned stores sel -> aligned stores sel'.
Proof.
  revert sel. induction boxes as [|[[s0 c0] x0] boxes IH]; intros sel H Hal.
  - now injection H as <-.
  - cbn [fold_left] in H.
    destruct (read_box checked (Some sel) (s0, c0, x0)) as [sel1|] eqn:H1;
      [|now rewrite read_box_None in H].
    apply (IH sel1 H). apply read_box_Some in H1.
    exact (@update_chosen_aligned stores sel sel1 s0 c0 _ H1 Hal).
Qed.

Lemma read_boxes_Some (checked : pystr -> pystr -> pystr -> bool -> bool)
    (boxes : list (pystr * pystr * pystr)) (sel : selection) :
  (forall s c x, In (s, c, x) boxes -> has_entry sel s c) ->
  exists sel', fold_left (read_box checked) boxes (Some sel) = Some sel'.
Proof.
  revert sel. induction boxes as [|[[s0 c0] x0] boxes IH]; intros sel He.
  - now exists sel.
  - assert (has_entry sel s0 c0) as H0 by (apply (He s0 c0 x0); now left).
    destruct (@read_box_entry checked sel s0 c0 x0 H0) as [sel1 H1].
    cbn [fold_left]. rewrite H1. apply IH. intros s c x Hx.
    apply read_box_Some in H1.
    apply (@update_chosen_entry sel sel1 s0 c0 _ s c H1).
    apply (He s c x). now right.
Qed.

Lemma aligned_store_entry (stores : catalog) (sel : selection) (s : pystr) :
  aligned stores sel -> In s (dict_keys stores) ->
  exists inner, dict_get s sel = Some inner.
Proof.
  intros [_ H] Hs. destruct (H s Hs) as [inner [Hg _]]. now exists inner.
Qed.

Lemma aligned_has_entry (stores : catalog) (sel : selection)
    (s c : pystr) (items : list pystr) :
  aligned stores sel -> category_items stores s c = Some items ->
  has_entry sel s c.
Proof.
  intros [_ H] Hci. apply category_items_Some in Hci.
  destruct Hci as [cats [Hs Hc]].
  assert (In s (dict_keys stores)) as Hk
    by (apply dict_mem_In; eapply dict_get_Some_mem; eauto).
  destruct (H s Hk) as [inner [Hg [_ Hall]]]. exists inner.
  split; [exact Hg|]. apply Hall.
  assert (dict_get_or s [] stores = cats) as E
    by (unfold dict_get_or; unalias; now rewrite Hs).
  rewrite E. apply dict_mem_In. eapply dict_get_Some_mem; eauto.
Qed.

(** X27.  No action raises a [KeyError] on a selection that has the
    stores and categories of the catalog, when the names the action gets
    from the select boxes are names of the catalog. *)
Theorem handle_no_key_error (rt : runtime) (ev : event) (stores : catalog)
    (selected : selection) :
  aligned stores selected -> offered stores ev ->
  exists stores' selected',
    handle rt ev stores selected = Some (stores', selected').
Proof.
  intros Hal Hoff.
  destruct ev as [| | n | n k | n k text | s0 c0 x0 | s0 c0 | s0
                 | search checked]; cbn [handle offered] in *.
  - now eexists _, _.
  - now eexists _, _.
  - cbv zeta. destruct (negb (truthy (normalize_name n)));
      [now eexists _, _|].
    destruct (dict_mem (normalize_name n) stores); now eexists _, _.
  - destruct (@aligned_store_entry stores selected n Hal Hoff) as [inner Hg].
    cbv zeta. unfold update_store. unalias. rewrite Hg.
    now eexists _, _.
  - destruct (@aligned_store_entry stores selected n Hal Hoff) as [inner Hg].
    cbv zeta. destruct (negb (truthy (strip text))); [now eexists _, _|].
    unfold update_store. unalias. rewrite Hg. now eexists _, _.
  - destruct Hoff as [items [Hci _]].
    pose proof (@aligned_has_entry stores selected s0 c0 items Hal Hci) as He.
    destruct (@update_chosen_Some selected s0 c0 (set_discard x0) He)
      as [sel' Hu].
    cbv zeta. rewrite Hu. now eexists _, _.
  - destruct Hoff as [items Hci].
    destruct (@aligned_has_entry stores selected s0 c0 items Hal Hci)
      as [inner [Hg _]].
    cbv zeta. unfold update_store. unalias. rewrite Hg. now eexists _, _.
  - now eexists _, _.
  - destruct (@read_boxes_Some checked (drawn_boxes search stores) selected)
      as [sel' Hf].
    { intros s c x Hb.
      exact (@drawn_box_has_entry search stores selected s c x Hal Hb). }
    rewrite Hf. now eexists _, _.
Qed.

Lemma handle_no_key_error_witness :
  exists stores' selected',
    handle insertion_order_runtime
      (RemoveProduct (py "S") (py "Dairy") (py "Milk"))
      one_store_catalog (initial_selection one_store_catalog)
    = Some (stores', selected').
Proof.
  apply (@handle_no_key_error insertion_order_runtime
           (RemoveProduct (py "S") (py "Dairy") (py "Milk"))
           one_store_catalog (initial_selection one_store_catalog)).
  - apply initial_selection_aligned.
  - exists [py "Milk"]. split; [reflexivity | now left].
Defined.

(** X28.  Reading the check boxes of the tiles, when no two boxes stand
    for the same store, category and item: no [KeyError] is raised, the
    catalog is left alone, an item with a box is chosen afterwards
    exactly when its box is checked, every other item is chosen exactly
    when it was before, and the selection keeps the stores and
    categories of the catalog. *)
Theorem tick_reads_boxes (rt : runtime) (search : pystr)
    (checked : pystr -> pystr -> pystr -> bool -> bool)
    (stores : catalog) (selected : selection) :
  aligned stores selected ->
  NoDup (drawn_boxes search stores) ->
  exists selected',
    handle rt (Tick search checked) stores selected
    = Some (stores, selected')
    /\ (forall s c x, In (s, c, x) (drawn_boxes search stores) ->
          (In x (chosen selected' s c)
           <-> checked s c x (mem x (chosen selected s c)) = true))
    /\ (forall s c x, ~ In (s, c, x) (drawn_boxes search stores) ->
          (In x (chosen selected' s c) <-> In x (chosen selected s c)))
    /\ aligned stores selected'.
Proof.
  intros Hal Hnd.
  destruct (@read_boxes checked (drawn_boxes search stores) selected Hnd)
    as [sel' [Hf [Hin [Hout _]]]].
  { intros s c x Hb.
    exact (@drawn_box_has_entry search stores selected s c x Hal Hb). }
  exists sel'. cbn [handle]. rewrite Hf. split; [reflexivity|].
  split; [exact Hin|]. split; [exact Hout|].
  exact (@read_boxes_aligned checked stores _ selected sel' Hf Hal).
Qed.

Lemma tick_reads_boxes_witness :
  exists selected',
    handle insertion_order_runtime
      (Tick (py " MILK ") (fun _ _ _ shown => negb shown))
      DEFAULT_STORES (initial_selection DEFAULT_STORES)
    = Some (DEFAULT_STORES, selected')
    /\ (forall s c x,
          In (s, c, x) (drawn_boxes (py " MILK ") DEFAULT_STORES) ->
          (In x (chosen selected' s c)
           <-> negb (mem x (chosen (initial_selection DEFAULT_STORES) s c))
               = true))
    /\ (forall s c x,
          ~ In (s, c, x) (drawn_boxes (py " MILK ") DEFAULT_STORES) ->
          (In x (chosen selected' s c)
           <-> In x (chosen (initial_selection DEFAULT_STORES) s c)))
    /\ aligned DEFAULT_STORES selected'.
Proof.
  apply (@tick_reads_boxes insertion_order_runtime (py " MILK ")
           (fun _ _ _ shown => negb shown)
           DEFAULT_STORES (initial_selection DEFAULT_STORES)).
  - apply initial_selection_aligned.
  - vm_compute. constructor; [intros [] | constructor].
Defined.

(** ** The structure the list is formatted from *)

Lemma output_categories (rt : runtime) (sel : selection) (s : pystr)
    (inner : dict pyset) (ks : list pystr) (acc : category_map) :
  dict_get s sel = Some inner ->
  fold_left
    (fun cats cat =>
       match cats with
       | None => None
       | Some cats =>
           match dict_get s sel with
           | None => None
           | Some inner =>
               Some (dict_set cat
                       (sorted lower (set_iter rt (dict_get_or cat [] inner)))
                       cats)
           end
       end) ks (Some acc)
  = Some (fold_left
            (fun cats cat =>
               dict_set cat (sorted lower (set_iter rt (chosen sel s cat)))
                        cats) ks acc).
Proof.
  intros Hg. revert acc. induction ks as [|k ks IH]; intros acc;
    [reflexivity|].
  cbn [fold_left]. rewrite <- IH. f_equal. unalias. rewrite Hg.
  pose proof (@chosen_present sel s k inner Hg) as E. unalias.
  now rewrite E.
Qed.

Lemma output_stores (rt : runtime) (stores : catalog) (sel : selection)
    (ks : list pystr) (acc : catalog) :
  (forall s, In s ks -> exists inner, dict_get s sel = Some inner) ->
  fold_left
    (fun out store =>
       match out with
       | None => None
       | Some out =>
           option_map (fun cats => dict_set store cats out)
             (fold_left
                (fun cats cat =>
                   match cats with
                   | None => None
                   | Some cats =>
                       match dict_get store sel with
                       | None => None
                       | Some inner =>
                           Some (dict_set cat
                                   (sorted lower
                                      (set_iter rt (dict_get_or cat [] inner)))
                                   cats)
                       end
                   end)
                (dict_keys (dict_get_or store [] stores)) (Some []))
       end) ks (Some acc)
  = Some (fold_left
            (fun out store =>
               dict_set store
                 (fold_left
                    (fun cats cat =>
                       dict_set cat
                         (sorted lower (set_iter rt (chosen sel store cat)))
                         cats)
                    (dict_keys (dict_get_or store [] stores)) [])
                 out) ks acc).
Proof.
  revert acc. induction ks as [|k ks IH]; intros acc Hall; [reflexivity|].
  cbn [fold_left].
  destruct (Hall k (or_introl eq_refl)) as [inner Hg].
  rewrite (@output_categories rt sel k inner _ [] Hg). cbn [option_map].
  apply IH. intros s Hs. apply Hall. now right.
Qed.

(** X29.  On a selection that has the stores and categories of the
    catalog, the structure the list is formatted from is built without
    a [KeyError]; it has an item list exactly for the stores and
    categories of the catalog, and that list is the chosen set of the
    category, sorted by lower-cased name. *)
Theorem selected_for_output_spec (rt : runtime) (stores : catalog)
    (selected : selection) :
  aligned stores selected ->
  exists out,
    selected_for_output rt stores selected = Some out
    /\ forall s c,
         category_items out s c
         = match category_items stores s c with
           | Some _ => Some (sorted lower (set_iter rt (chosen selected s c)))
           | None => None
           end.
Proof.
  intros Hal. eexists. split.
  - unfold selected_for_output. apply output_stores.
    intros s Hs. exact (@aligned_store_entry stores selected s Hal Hs).
  - intros s c. unfold category_items at 1 2.
    pose proof (@fold_set_get category_map
                  (fun store =>
                     fold_left
                       (fun (cats : category_map) cat =>
                          dict_set cat
                            (sorted lower
                               (set_iter rt (chosen selected store cat)))
                            cats)
                       (dict_keys (dict_get_or store [] stores)) [])
                  (dict_keys stores) [] s) as G.
    unalias. rewrite G. clear G.
    destruct (mem s (dict_keys stores)) eqn:Es.
    + apply mem_In, dict_mem_In, dict_mem_get in Es. destruct Es as [cats Hs].
      unalias. rewrite Hs.
      assert (dict_get_or s [] stores = cats) as E
        by (unfold dict_get_or; unalias; now rewrite Hs).
      unalias. rewrite E.
      pose proof (@fold_set_get (list pystr)
                    (fun cat =>
                       sorted lower (set_iter rt (chosen selected s cat)))
                    (dict_keys cats) [] c) as G.
      unalias. rewrite G. clear G.
      destruct (mem c (dict_keys cats)) eqn:Ec.
      * apply mem_In, dict_mem_In, dict_mem_get in Ec.
        destruct Ec as [items Hc]. now rewrite Hc.
      * pose proof (mem_keys_get cats c Ec) as Hc. unalias. now rewrite Hc.
    + pose proof (mem_keys_get stores s Es) as Hs. unalias. now rewrite Hs.
Qed.

Lemma selected_for_output_spec_witness :
  exists out,
    selected_for_output insertion_order_runtime one_store_catalog
      (reconcile one_store_catalog
         [(py "S", [(py "Dairy", [py "milk"; py "Eggs"; py "milk"]);
                    (py "Bakery", [py "Bread"])]);
          (py "T", [])])
    = Some out
    /\ forall s c,
         category_items out s c
         = match category_items one_store_catalog s c with
           | Some _ =>
               Some (sorted lower
                       (set_iter insertion_order_runtime
                          (chosen
                             (reconcile one_store_catalog
                                [(py "S",
                                  [(py "Dairy",
                                    [py "milk"; py "Eggs"; py "milk"]);
                                   (py "Bakery", [py "Bread"])]);
                                 (py "T", [])])
                             s c)))
           | None => None
           end.
Proof.
  apply (@selected_for_output_spec insertion_order_runtime one_store_catalog).
  apply reconcile_aligned.
Defined.

(** X30.  The selection a session starts with, and the one "Reset to
    defaults" installs: it has the stores and categories of the catalog,
    nothing is chosen in it, and the reconciliation block leaves it as
    it is. *)
Theorem initial_selection_spec (stores : catalog) :
  session_ok stores (initial_selection stores)
  /\ (forall s c, chosen (initial_selection stores) s c = [])
  /\ reconcile stores (initial_selection stores) = initial_selection stores.
Proof.
  split; [apply initial_session_ok|]. split.
  - apply initial_selection_empty.
  - apply reconcile_fixed, initial_selection_aligned.
Qed.
